(** * iopup: the benchmark launchers, the scheduler and the loss report

    A shallow embedding of [bin/iopup.py] and of [loss_frame] from
    [bin/interference_summary.py].

    - Python objects with identity (launchers, files, process handles) live
      in a [World]: launchers in a heap addressed by reference, everything
      the program does to the outside (logging, [subprocess.Popen],
      [proc.wait], [time.sleep], [open]) is appended to a trace.
    - The workers of the thread pool are threads whose statements take
      turns as the world decides, so that what is proved of the pool holds
      for every interleaving.
    - A Python exception is a result [Raise e]; the state reached when it
      was raised is kept, as Python keeps the mutations done before a
      [raise].
    - Wall-clock readings are an oracle of the world, performance values
      and timestamps are binary64 floats. *)

From Stdlib Require Import ZArith String Ascii List Floats DecimalString Lia Bool.
From stdpp Require Import gmap strings list.
Import ListNotations.
Local Open Scope string_scope.

(** ** Python values *)

Module Py.

(** [str(n)] for an [int]. *)
Definition str_int (z : Z) : string := NilZero.string_of_int (Z.to_int z).

(** A [str] is held as its UTF-8 encoding, one [ascii] for each byte.  A
    byte 133 or 160 that follows an ASCII byte, or none, is no part of an
    encoding: it is read as the character of that code, U+0085 or U+00A0. *)

(** The white-space characters, those [str.isspace] accepts, are the
    characters [str.strip()] removes and [str.split()] splits at.  The
    ones of one byte: the ASCII codes 9 to 13 and 28 to 32. *)
Definition is_space (c : ascii) : bool :=
  let n := nat_of_ascii c in
  ((9 <=? n)%nat && (n <=? 13)%nat) || ((28 <=? n)%nat && (n <=? 32)%nat).

(** The ones of two bytes: U+0085 and U+00A0. *)
Definition is_space2 (a b : ascii) : bool :=
  let a := nat_of_ascii a in
  let b := nat_of_ascii b in
  (a =? 194)%nat && ((b =? 133)%nat || (b =? 160)%nat).

(** The ones of three bytes: U+1680, U+2000 to U+200A, U+2028, U+2029,
    U+202F, U+205F and U+3000. *)
Definition is_space3 (a b c : ascii) : bool :=
  let a := nat_of_ascii a in
  let b := nat_of_ascii b in
  let c := nat_of_ascii c in
  ((a =? 225)%nat && (b =? 154)%nat && (c =? 128)%nat)
  || ((a =? 226)%nat && (b =? 128)%nat
      && (((128 <=? c)%nat && (c <=? 138)%nat)
          || (c =? 168)%nat || (c =? 169)%nat || (c =? 175)%nat))
  || ((a =? 226)%nat && (b =? 129)%nat && (c =? 159)%nat)
  || ((a =? 227)%nat && (b =? 128)%nat && (c =? 128)%nat).

(** U+0085 and U+00A0 as a byte on its own. *)
Definition is_lone_space (c : ascii) : bool :=
  let n := nat_of_ascii c in
  (n =? 133)%nat || (n =? 160)%nat.

Definition is_ascii (c : ascii) : bool := (nat_of_ascii c <? 128)%nat.

(** The number of bytes of the white-space character [s] begins with, 0
    when it begins with none.  [lone] says that [s] follows an ASCII byte,
    or none. *)
Definition space_width (lone : bool) (s : string) : nat :=
  match s with
  | EmptyString => 0
  | String a s1 =>
      if is_space a || (lone && is_lone_space a) then 1
      else
        match s1 with
        | EmptyString => 0
        | String b s2 =>
            if is_space2 a b then 2
            else
              match s2 with
              | EmptyString => 0
              | String c _ => if is_space3 a b c then 3 else 0
              end
        end
  end.

(** [s.strip().split()]: the maximal runs of characters that are not white
    space.  [cur] is the token being read, [skip] the number of bytes that
    are left of the white-space character being passed. *)
Fixpoint split_from (skip : nat) (lone : bool) (cur : string) (s : string) : list string :=
  match s with
  | EmptyString => if decide (cur = EmptyString) then [] else [cur]
  | String c s' =>
      match skip with
      | S k => split_from k true cur s'
      | O =>
          match space_width lone s with
          | O => split_from 0 (is_ascii c) (cur ++ String c EmptyString) s'
          | S k =>
              if decide (cur = EmptyString) then split_from k true EmptyString s'
              else cur :: split_from k true EmptyString s'
          end
      end
  end.

Definition split (s : string) : list string := split_from 0 true EmptyString s.

(** [sep.join(l)] *)
Definition join (sep : string) (l : list string) : string := String.concat sep l.

(** [c.lower()] on an ASCII character; the bytes of the other characters
    are left as they are. *)
Definition lower_ascii (c : ascii) : ascii :=
  let n := nat_of_ascii c in
  if (65 <=? n)%nat && (n <=? 90)%nat then ascii_of_nat (n + 32) else c.

(** [s.lower()] *)
Fixpoint lower (s : string) : string :=
  match s with
  | EmptyString => EmptyString
  | String c s' => String (lower_ascii c) (lower s')
  end.

(** Values given as extra keyword arguments. *)
Inductive value :=
| VBool (b : bool)
| VInt (z : Z)
| VStr (s : string).

(** [str(v)] *)
Definition str (v : value) : string :=
  match v with
  | VBool true => "True"
  | VBool false => "False"
  | VInt z => str_int z
  | VStr s => s
  end.

(** A [dict] whose iteration order matters: keys in insertion order. *)
Definition dict (V : Type) := list (string * V).

(** [d[k] = v]: an existing key keeps its position. *)
Fixpoint dict_set {V} (k : string) (v : V) (d : dict V) : dict V :=
  match d with
  | [] => [(k, v)]
  | (k', v') :: d' =>
      if decide (k = k') then (k, v) :: d' else (k', v') :: dict_set k v d'
  end.

(** [d.update(new)] *)
Definition dict_update {V} (d new : dict V) : dict V :=
  fold_left (fun acc kv => dict_set (fst kv) (snd kv) acc) new d.

(** Truncation of a non-negative or negative binary64 to an integer,
    [int(x)]; infinities and NaN (where Python raises) give 0. *)
Definition int_of_float (x : float) : Z :=
  match Prim2SF x with
  | S754_finite s m e =>
      let a := if (0 <=? e)%Z then Z.shiftl (Z.pos m) e else Z.shiftr (Z.pos m) (- e) in
      if s then (- a)%Z else a
  | _ => 0%Z
  end.

End Py.

(** ** Exceptions and the state-and-exception monad *)

Inductive exn :=
| KeyError (key : string)
| ValueError (msg : string)
| NotImplementedError (msg : string)
| TypeError (msg : string)
| IndexError (msg : string)
| ReferenceLost.
(** [ReferenceLost] has no Python counterpart: it is what the model answers
    when it is handed a launcher reference that names no object. *)

Inductive Res (A : Type) :=
| OK (a : A)
| Raise (e : exn).
Arguments OK {A} a.
Arguments Raise {A} e.

(** A computation over a state [S]: the result, or the exception raised,
    together with the state reached. *)
Definition M (S A : Type) : Type := S -> Res A * S.

#[global] Instance M_ret {S} : MRet (M S) := fun A a s => (OK a, s).

#[global] Instance M_bind {S} : MBind (M S) := fun A B f m s =>
  match m s with
  | (OK a, s') => f a s'
  | (Raise e, s') => (Raise e, s')
  end.

Definition raise {S A} (e : exn) : M S A := fun s => (Raise e, s).
Definition get {S} : M S S := fun s => (OK s, s).
Definition modify {S} (f : S -> S) : M S unit := fun s => (OK tt, f s).

(** [for x in xs: body(x)] *)
Fixpoint for_each {S A} (xs : list A) (body : A -> M S unit) : M S unit :=
  match xs with
  | [] => mret tt
  | x :: xs' => body x ;; for_each xs' body
  end.

(** ** The world outside the interpreter *)

(** What [stdout] and [stderr] can be bound to: [None], [subprocess.PIPE],
    or a file object, which has an identity and a [name]. *)
Inductive stream :=
| SNone
| SPipe
| SFile (fid : nat) (name : string).

#[global] Instance stream_eq_dec : EqDecision stream.
Proof. solve_decision. Defined.

Inductive level := INFO | DEBUG.

Inductive method := Preflight | Run | Teardown.

#[global] Instance method_eq_dec : EqDecision method.
Proof. solve_decision. Defined.

(** The trace.  [EvIssued] and [EvReturned] are written by the scheduler
    around each launcher method it calls, and [EvTime] by a worker of the
    pool when it has read the clock; they have no counterpart in the source
    and only make the order of the scheduler's calls and of the workers'
    readings observable. *)
Inductive event :=
| EvLog (lv : level) (msg : string)
| EvLogFinished (what : string) (t0 tf : float)
| EvPopen (pid : nat) (cmdline : list string) (stdout stderr : stream)
| EvWait (pid : nat)
| EvSleep (secs : Z)
| EvOpen (fid : nat) (name : string)
| EvIssued (m : method) (idx : nat)
| EvReturned (m : method) (idx : nat) (handle : option nat)
| EvTime (t : float).

(** ** Launchers *)

(** The three adapters.  [BenchmarkLauncher] itself is abstract: its
    [_add_hosts] and [_add_output_dir] raise [NotImplementedError]. *)
Inductive kind := Elbencho | Ior | Mdworkbench.

#[global] Instance kind_eq_dec : EqDecision kind.
Proof. solve_decision. Defined.

Record Launcher := {
  cls : kind;
  _binary : string;
  _hosts : option (list string);
  _ppn : Z;
  _output_dir : list string;
  _timelimit : Z;
  _timelimit_args : list string;
  _random_data : bool;
  _random_data_args : list string;
  _test : bool;
  _kwargs : Py.dict Py.value;
  _cmdline : list string;
  _common_args : list string;
  _access_args : gmap string (list string);
  _pattern_args : gmap string (list string);
  _access_pattern_args : gmap string (gmap string (list string));
  _prepend_cmdline : list string;
  _stdout : stream;
  _stderr : stream;
  _livecsv : bool;
}.

Definition with_cmdline (c : list string) (l : Launcher) : Launcher :=
  {| cls := cls l; _binary := _binary l; _hosts := _hosts l; _ppn := _ppn l;
     _output_dir := _output_dir l; _timelimit := _timelimit l;
     _timelimit_args := _timelimit_args l; _random_data := _random_data l;
     _random_data_args := _random_data_args l; _test := _test l;
     _kwargs := _kwargs l; _cmdline := c; _common_args := _common_args l;
     _access_args := _access_args l; _pattern_args := _pattern_args l;
     _access_pattern_args := _access_pattern_args l;
     _prepend_cmdline := _prepend_cmdline l; _stdout := _stdout l;
     _stderr := _stderr l; _livecsv := _livecsv l |}.

Definition with_kwargs (k : Py.dict Py.value) (l : Launcher) : Launcher :=
  {| cls := cls l; _binary := _binary l; _hosts := _hosts l; _ppn := _ppn l;
     _output_dir := _output_dir l; _timelimit := _timelimit l;
     _timelimit_args := _timelimit_args l; _random_data := _random_data l;
     _random_data_args := _random_data_args l; _test := _test l;
     _kwargs := k; _cmdline := _cmdline l; _common_args := _common_args l;
     _access_args := _access_args l; _pattern_args := _pattern_args l;
     _access_pattern_args := _access_pattern_args l;
     _prepend_cmdline := _prepend_cmdline l; _stdout := _stdout l;
     _stderr := _stderr l; _livecsv := _livecsv l |}.

Definition with_stdout (s : stream) (l : Launcher) : Launcher :=
  {| cls := cls l; _binary := _binary l; _hosts := _hosts l; _ppn := _ppn l;
     _output_dir := _output_dir l; _timelimit := _timelimit l;
     _timelimit_args := _timelimit_args l; _random_data := _random_data l;
     _random_data_args := _random_data_args l; _test := _test l;
     _kwargs := _kwargs l; _cmdline := _cmdline l; _common_args := _common_args l;
     _access_args := _access_args l; _pattern_args := _pattern_args l;
     _access_pattern_args := _access_pattern_args l;
     _prepend_cmdline := _prepend_cmdline l; _stdout := s;
     _stderr := _stderr l; _livecsv := _livecsv l |}.

Definition with_stderr (s : stream) (l : Launcher) : Launcher :=
  {| cls := cls l; _binary := _binary l; _hosts := _hosts l; _ppn := _ppn l;
     _output_dir := _output_dir l; _timelimit := _timelimit l;
     _timelimit_args := _timelimit_args l; _random_data := _random_data l;
     _random_data_args := _random_data_args l; _test := _test l;
     _kwargs := _kwargs l; _cmdline := _cmdline l; _common_args := _common_args l;
     _access_args := _access_args l; _pattern_args := _pattern_args l;
     _access_pattern_args := _access_pattern_args l;
     _prepend_cmdline := _prepend_cmdline l; _stdout := _stdout l;
     _stderr := s; _livecsv := _livecsv l |}.

Definition with_random_data (b : bool) (l : Launcher) : Launcher :=
  {| cls := cls l; _binary := _binary l; _hosts := _hosts l; _ppn := _ppn l;
     _output_dir := _output_dir l; _timelimit := _timelimit l;
     _timelimit_args := _timelimit_args l; _random_data := b;
     _random_data_args := _random_data_args l; _test := _test l;
     _kwargs := _kwargs l; _cmdline := _cmdline l; _common_args := _common_args l;
     _access_args := _access_args l; _pattern_args := _pattern_args l;
     _access_pattern_args := _access_pattern_args l;
     _prepend_cmdline := _prepend_cmdline l; _stdout := _stdout l;
     _stderr := _stderr l; _livecsv := _livecsv l |}.

Definition with_livecsv (b : bool) (l : Launcher) : Launcher :=
  {| cls := cls l; _binary := _binary l; _hosts := _hosts l; _ppn := _ppn l;
     _output_dir := _output_dir l; _timelimit := _timelimit l;
     _timelimit_args := _timelimit_args l; _random_data := _random_data l;
     _random_data_args := _random_data_args l; _test := _test l;
     _kwargs := _kwargs l; _cmdline := _cmdline l; _common_args := _common_args l;
     _access_args := _access_args l; _pattern_args := _pattern_args l;
     _access_pattern_args := _access_pattern_args l;
     _prepend_cmdline := _prepend_cmdline l; _stdout := _stdout l;
     _stderr := _stderr l; _livecsv := b |}.

(** ** Tool configuration and construction *)

(** One tool's entry of the YAML configuration.  [access_pattern_args] and
    [random_data_args] are optional keys. *)
Record ToolConfig := {
  binary : string;
  common_args : string;
  access_args : gmap string string;
  pattern_args : gmap string string;
  access_pattern_args : option (gmap string (gmap string string));
  random_data_args : option string;
  timelimit_args : string;
}.

(** The arguments of [BenchmarkLauncher.__init__]. *)
Record InitArgs := {
  hosts : option (list string);
  ppn : Z;
  output_dir : string + list string;
  timelimit : Z;
  random_data : bool;
  config : gmap string ToolConfig;
  test : bool;
  stdout : stream;
  stderr : stream;
  kwargs : Py.dict Py.value;
}.

(** [l.index(x)] *)
Fixpoint index_of (x : string) (l : list string) : option nat :=
  match l with
  | [] => None
  | y :: l' => if decide (x = y) then Some 0 else S <$> index_of x l'
  end.

(** [len(self._hosts)] *)
Definition len_hosts (h : option (list string)) : Res Z :=
  match h with
  | Some h => OK (Z.of_nat (length h))
  | None => Raise (TypeError "object of type 'NoneType' has no len()")
  end.

(** [",".join(self._hosts)] *)
Definition join_hosts (h : option (list string)) : Res string :=
  match h with
  | Some h => OK (Py.join "," h)
  | None => Raise (TypeError "can only join an iterable")
  end.

Section Construction.

(** The module-level [MPIRUN_BIN] when the launcher is built. *)
Variable mpirun_bin : string.

(** [BenchmarkLauncher.__init__] followed by [_init_args(key)]. *)
Definition _init_args (c : kind) (key : string) (a : InitArgs) : Res Launcher :=
  match config a !! key with
  | None => Raise (KeyError key)
  | Some t =>
      OK {| cls := c;
            _binary := binary t;
            _hosts := hosts a;
            _ppn := ppn a;
            _output_dir := match output_dir a with inl d => [d] | inr ds => ds end;
            _timelimit := timelimit a;
            _timelimit_args := Py.split (timelimit_args t);
            _random_data := random_data a;
            _random_data_args := Py.split (default EmptyString (random_data_args t));
            _test := test a;
            _kwargs := kwargs a;
            _cmdline := [];
            _common_args := Py.split (common_args t);
            _access_args := Py.split <$> access_args t;
            _pattern_args := Py.split <$> pattern_args t;
            _access_pattern_args :=
              (fun m : gmap string string => Py.split <$> m) <$> default ∅ (access_pattern_args t);
            _prepend_cmdline := [];
            _stdout := stdout a;
            _stderr := stderr a;
            _livecsv := false |}
  end.

Definition with_common_args (c : list string) (l : Launcher) : Launcher :=
  {| cls := cls l; _binary := _binary l; _hosts := _hosts l; _ppn := _ppn l;
     _output_dir := _output_dir l; _timelimit := _timelimit l;
     _timelimit_args := _timelimit_args l; _random_data := _random_data l;
     _random_data_args := _random_data_args l; _test := _test l;
     _kwargs := _kwargs l; _cmdline := _cmdline l; _common_args := c;
     _access_args := _access_args l; _pattern_args := _pattern_args l;
     _access_pattern_args := _access_pattern_args l;
     _prepend_cmdline := _prepend_cmdline l; _stdout := _stdout l;
     _stderr := _stderr l; _livecsv := _livecsv l |}.

Definition with_prepend_cmdline (p : list string) (l : Launcher) : Launcher :=
  {| cls := cls l; _binary := _binary l; _hosts := _hosts l; _ppn := _ppn l;
     _output_dir := _output_dir l; _timelimit := _timelimit l;
     _timelimit_args := _timelimit_args l; _random_data := _random_data l;
     _random_data_args := _random_data_args l; _test := _test l;
     _kwargs := _kwargs l; _cmdline := _cmdline l; _common_args := _common_args l;
     _access_args := _access_args l; _pattern_args := _pattern_args l;
     _access_pattern_args := _access_pattern_args l;
     _prepend_cmdline := p; _stdout := _stdout l;
     _stderr := _stderr l; _livecsv := _livecsv l |}.

(** [ElbenchoLauncher.__init__]: the thread count after [-t] or
    [--threads] (or the second common argument when neither is there) is
    overwritten with [ppn]. *)
Definition ElbenchoLauncher (a : InitArgs) : Res Launcher :=
  match _init_args Elbencho "elbencho" a with
  | Raise e => Raise e
  | OK l =>
      let idx :=
        match index_of "-t" (_common_args l) with
        | Some i => i
        | None => default 0 (index_of "--threads" (_common_args l))
        end in
      if decide (idx + 1 < length (_common_args l))
      then OK (with_common_args (<[idx + 1 := Py.str_int (_ppn l)]> (_common_args l)) l)
      else Raise (IndexError "list assignment index out of range")
  end.

(** The prefix [srun -N <nodes> -n <nodes * ppn>] of the two adapters
    that are started through the job launcher. *)
Definition mpirun_prefix (l : Launcher) : Res Launcher :=
  match len_hosts (_hosts l) with
  | Raise e => Raise e
  | OK n =>
      OK (with_prepend_cmdline
            [mpirun_bin; "-N"; Py.str_int n; "-n"; Py.str_int (n * _ppn l)] l)
  end.

Definition IorLauncher (a : InitArgs) : Res Launcher :=
  match _init_args Ior "ior" a with
  | Raise e => Raise e
  | OK l => mpirun_prefix l
  end.

Definition MdworkbenchLauncher (a : InitArgs) : Res Launcher :=
  match _init_args Mdworkbench "md-workbench" a with
  | Raise e => Raise e
  | OK l => mpirun_prefix l
  end.

End Construction.

(** ** Command-line assembly *)

Section Assembly.

(** The module-level [MPIRUN_BIN] and [os.path.isfile], as they are when
    the method runs. *)
Variable mpirun_bin : string.
Variable isfile : string -> bool.

(** [self._cmdline += toks] *)
Definition extend (toks : list string) : M Launcher unit :=
  modify (fun l => with_cmdline (_cmdline l ++ toks) l).

Definition _add_hosts : M Launcher unit :=
  l ← get;
  match _hosts l with
  | None => mret tt
  | Some h =>
      match cls l with
      | Elbencho => extend ["--hosts"; Py.join "," h]
      | Ior | Mdworkbench =>
          match _cmdline l with
          | [] => raise (IndexError "list index out of range")
          | c0 :: rest =>
              if decide (c0 = mpirun_bin)
              then modify (with_cmdline (c0 :: "--nodelist" :: Py.join "," h :: rest))
              else raise (ValueError ("Can't find " ++ mpirun_bin ++ " to insert nodelist"))
          end
      end
  end.

Definition _add_timelimit : M Launcher unit :=
  l ← get;
  if decide (_timelimit l = 0%Z) then mret tt
  else extend (_timelimit_args l ++ [Py.str_int (_timelimit l)]).

Definition _add_output_dir : M Launcher unit :=
  l ← get;
  match _output_dir l with
  | [] => mret tt
  | d :: ds =>
      match cls l with
      | Elbencho => extend (d :: ds)
      | Ior | Mdworkbench => extend ["-o"; d]
      end
  end.

Definition _add_random_data : M Launcher unit :=
  l ← get;
  if _random_data l then extend (_random_data_args l) else mret tt.

Definition _add_results_file : M Launcher unit :=
  l ← get;
  match cls l, _stdout l with
  | Elbencho, SFile _ name =>
      if isfile name
      then extend (["--resfile"; name ++ ".results"; "--csvfile"; name ++ ".csv"]
                   ++ (if _livecsv l then ["--livecsv"; name ++ ".live.csv"] else []))
      else mret tt
  | _, _ => mret tt
  end.

(** The tokens of one extra keyword argument. *)
Definition kwarg_tokens (kv : string * Py.value) : list string :=
  match snd kv with
  | Py.VBool true => ["--" ++ fst kv]
  | v => ["--" ++ fst kv; Py.str v]
  end.

(** [d[k]] on a table of the configuration. *)
Definition getitem (d : gmap string (list string)) (k : string) : M Launcher (list string) :=
  match d !! k with
  | Some v => mret v
  | None => raise (KeyError k)
  end.

Definition _prep_cmdline (access pattern : string) : M Launcher unit :=
  modify (with_cmdline []) ;;
  modify (fun l => match _prepend_cmdline l with
                   | [] => l
                   | p => with_cmdline p l
                   end) ;;
  l ← get;
  extend [_binary l] ;;
  _add_hosts ;;
  _add_timelimit ;;
  _add_random_data ;;
  _add_results_file ;;
  extend (_common_args l) ;;
  a ← getitem (_access_args l) access;
  extend a ;;
  p ← getitem (_pattern_args l) pattern;
  extend p ;;
  extend (default [] (default ∅ (_access_pattern_args l !! access) !! pattern)) ;;
  for_each (_kwargs l) (fun kv => extend (kwarg_tokens kv)) ;;
  _add_output_dir.

End Assembly.

(** ** The world *)

Record World := {
  heap : list Launcher;           (* the launcher objects, by reference *)
  trace : list event;             (* what has been done so far, oldest first *)
  files : list string;            (* the paths that are regular files *)
  next_id : nat;                  (* next fresh process or file identity *)
  MPIRUN_BIN : string;            (* the module-level global *)
  SLURM_JOBID : option string;    (* os.environ.get("SLURM_JOBID") *)
  clock : nat -> float;           (* what the k-th time.time() returns *)
  ticks : nat;                    (* number of time.time() calls so far *)
  scheduler : nat -> list nat;    (* the threads that get the turns in a pool
                                     started after that many events *)
}.

Definition with_heap (h : list Launcher) (w : World) : World :=
  {| heap := h; trace := trace w; files := files w; next_id := next_id w;
     MPIRUN_BIN := MPIRUN_BIN w; SLURM_JOBID := SLURM_JOBID w; clock := clock w;
     ticks := ticks w; scheduler := scheduler w |}.

Definition with_trace (t : list event) (w : World) : World :=
  {| heap := heap w; trace := t; files := files w; next_id := next_id w;
     MPIRUN_BIN := MPIRUN_BIN w; SLURM_JOBID := SLURM_JOBID w; clock := clock w;
     ticks := ticks w; scheduler := scheduler w |}.

Definition with_files (f : list string) (w : World) : World :=
  {| heap := heap w; trace := trace w; files := f; next_id := next_id w;
     MPIRUN_BIN := MPIRUN_BIN w; SLURM_JOBID := SLURM_JOBID w; clock := clock w;
     ticks := ticks w; scheduler := scheduler w |}.

Definition with_next_id (n : nat) (w : World) : World :=
  {| heap := heap w; trace := trace w; files := files w; next_id := n;
     MPIRUN_BIN := MPIRUN_BIN w; SLURM_JOBID := SLURM_JOBID w; clock := clock w;
     ticks := ticks w; scheduler := scheduler w |}.

Definition with_ticks (n : nat) (w : World) : World :=
  {| heap := heap w; trace := trace w; files := files w; next_id := next_id w;
     MPIRUN_BIN := MPIRUN_BIN w; SLURM_JOBID := SLURM_JOBID w; clock := clock w;
     ticks := n; scheduler := scheduler w |}.

(** [os.path.isfile] in a world. *)
Definition isfile (w : World) (path : string) : bool := bool_decide (path ∈ files w).

Definition emit (e : event) : M World unit :=
  modify (fun w => with_trace (trace w ++ [e]) w).

Definition logger_info (msg : string) : M World unit := emit (EvLog INFO msg).
Definition logger_debug (msg : string) : M World unit := emit (EvLog DEBUG msg).

(** [subprocess.Popen(cmdline, stdout=.., stderr=.., text=True)]: the process
    starts and its handle is returned.  A launch that fails in the
    operating system is outside the model. *)
Definition subprocess_Popen (cmdline : list string) (out err : stream) : M World nat :=
  fun w => (OK (next_id w),
            with_next_id (S (next_id w))
              (with_trace (trace w ++ [EvPopen (next_id w) cmdline out err]) w)).

(** [proc.wait()] *)
Definition proc_wait (pid : nat) : M World unit := emit (EvWait pid).

(** [time.sleep(secs)]: a negative length is refused. *)
Definition time_sleep (secs : Z) : M World unit :=
  if decide (secs < 0)%Z then raise (ValueError "sleep length must be non-negative")
  else emit (EvSleep secs).

(** [time.time()] *)
Definition time_time : M World float :=
  fun w => (OK (clock w (ticks w)), with_ticks (S (ticks w)) w).

(** [open(name, "a")]: the file exists afterwards. *)
Definition open_append (name : string) : M World stream :=
  fun w => (OK (SFile (next_id w) name),
            with_next_id (S (next_id w))
              (with_files (if isfile w name then files w else files w ++ [name])
                 (with_trace (trace w ++ [EvOpen (next_id w) name]) w))).

(** The launcher a reference names. *)
Definition deref (self : nat) : M World Launcher :=
  fun w => match heap w !! self with
           | Some l => (OK l, w)
           | None => (Raise ReferenceLost, w)
           end.

(** Runs a method body on the launcher [self] names and stores the
    launcher back, also when the body raises. *)
Definition with_self {A} (self : nat)
    (body : string -> (string -> bool) -> M Launcher A) : M World A :=
  fun w => match heap w !! self with
           | Some l =>
               let '(r, l') := body (MPIRUN_BIN w) (isfile w) l in
               (r, with_heap (<[self := l']> (heap w)) w)
           | None => (Raise ReferenceLost, w)
           end.

Definition update (self : nat) (f : Launcher -> Launcher) : M World unit :=
  with_self self (fun _ _ => modify f).

(** [if proc: proc.wait()] *)
Definition wait_if (proc : option nat) : M World unit :=
  match proc with
  | Some p => proc_wait p
  | None => mret tt
  end.

(** A pure result as a computation. *)
Definition lift {S A} (r : Res A) : M S A := fun s => (r, s).

(** ** The launcher contract *)

Definition set_stdout (self : nat) (s : stream) : M World unit := update self (with_stdout s).
Definition get_stdout (self : nat) : M World stream := l ← deref self; mret (_stdout l).
Definition set_stderr (self : nat) (s : stream) : M World unit := update self (with_stderr s).
Definition get_stderr (self : nat) : M World stream := l ← deref self; mret (_stderr l).
Definition get_hosts (self : nat) : M World (option (list string)) :=
  l ← deref self; mret (_hosts l).

(** [set_random_data] returns the flag it has set. *)
Definition set_random_data (self : nat) (random_data : bool) : M World bool :=
  update self (with_random_data random_data) ;; mret random_data.
Definition get_random_data (self : nat) : M World bool :=
  l ← deref self; mret (_random_data l).

(** [ElbenchoLauncher.set_livecsv] and [get_livecsv]. *)
Definition set_livecsv (self : nat) (livecsv : bool) : M World bool :=
  update self (with_livecsv livecsv) ;; mret livecsv.
Definition get_livecsv (self : nat) : M World bool :=
  l ← deref self; mret (_livecsv l).

(** Where [run] says a pipe goes. *)
Definition pipe_target (s : stream) : string :=
  match s with
  | SNone => "nowhere"
  | SFile _ name => name
  | SPipe => "subprocess.PIPE"
  end.

(** The debug line [run] writes for one of the two pipes. *)
Definition describe_pipe (pipe : string) (s : stream) : M World unit :=
  logger_debug ("Directing " ++ pipe ++ " to " ++ pipe_target s).

(** The first two statements of [run]: the extra keyword arguments are
    merged into the launcher's own, then the command line is built. *)
Definition assemble (mpirun_bin : string) (isfile : string -> bool)
    (access pattern : string) (kwargs : Py.dict Py.value) : M Launcher unit :=
  modify (fun l => with_kwargs (Py.dict_update (_kwargs l) kwargs) l) ;;
  _prep_cmdline mpirun_bin isfile access pattern.

(** [BenchmarkLauncher.run].  [stdout] and [stderr] are [None] for the
    default [-94720], which selects the launcher's own stream. *)
Definition run (self : nat) (access pattern : string)
    (stdout stderr : option stream) (kwargs : Py.dict Py.value) : M World (option nat) :=
  with_self self (fun mpirun_bin isfile => assemble mpirun_bin isfile access pattern kwargs) ;;
  l ← deref self;
  logger_info ("Executing: " ++ Py.join " " (_cmdline l)) ;;
  if _test l then mret None
  else
    let out := default (_stdout l) stdout in
    let err := default (_stderr l) stderr in
    describe_pipe "stdout" out ;;
    describe_pipe "stderr" err ;;
    proc ← subprocess_Popen (_cmdline l) out err;
    update self (with_cmdline []) ;;
    mret (Some proc).

(** The command line [srun -N n -n n --nodelist hosts binary phase ...] the
    preflight and teardown of the two service-like adapters start from. *)
Definition service_cmdline (mpirun_bin : string) (l : Launcher) (tail : list string)
  : Res (list string) :=
  match len_hosts (_hosts l), join_hosts (_hosts l) with
  | OK n, OK h =>
      OK ([mpirun_bin; "-N"; Py.str_int n; "-n"; Py.str_int n; "--nodelist"; h; _binary l]
            ++ tail)%list
  | Raise e, _ => Raise e
  | _, Raise e => Raise e
  end.

(** [preflight]: inherited unchanged by [IorLauncher], overridden by the
    other two. *)
Definition preflight (self : nat) : M World (option nat) :=
  l ← deref self;
  match cls l with
  | Ior => mret None
  | Elbencho =>
      logger_info "Launching preflight" ;;
      w ← get;
      c ← lift (service_cmdline (MPIRUN_BIN w) l ["--service"; "--foreground"]);
      update self (with_cmdline c) ;;
      logger_info (Py.join " " c) ;;
      if _test l then mret None
      else
        subprocess_Popen c SPipe SPipe ;;
        update self (with_cmdline []) ;;
        time_sleep 5 ;;
        mret None
  | Mdworkbench =>
      logger_info "Launching preflight" ;;
      w ← get;
      c ← lift (service_cmdline (MPIRUN_BIN w) l ("-1" :: _common_args l));
      update self (with_cmdline c) ;;
      logger_info (Py.join " " c) ;;
      if _test l then mret None
      else
        pservice ← subprocess_Popen c SPipe SPipe;
        update self (with_cmdline []) ;;
        mret (Some pservice)
  end.

(** [teardown(access, pattern, **kwargs)] *)
Definition teardown (self : nat) (access pattern : string) (kwargs : Py.dict Py.value)
  : M World (option nat) :=
  l ← deref self;
  match cls l with
  | Ior => mret None
  | Elbencho =>
      logger_info "Launching teardown - file cleanup" ;;
      stdout ← get_stdout self;
      stderr ← get_stderr self;
      set_stdout self SNone ;;
      set_stderr self SNone ;;
      proc ← run self "clean" pattern (Some SPipe) (Some SPipe) kwargs;
      set_stdout self stdout ;;
      set_stderr self stderr ;;
      wait_if proc ;;
      logger_info "Launching teardown - service shutdown" ;;
      update self (with_cmdline [_binary l; "--quit"]) ;;
      with_self self (fun mpirun_bin _ => _add_hosts mpirun_bin) ;;
      l' ← deref self;
      logger_info (Py.join " " (_cmdline l')) ;;
      if _test l then mret None
      else
        pservice ← subprocess_Popen (_cmdline l') SPipe SPipe;
        update self (with_cmdline []) ;;
        time_sleep 5 ;;
        mret (Some pservice)
  | Mdworkbench =>
      logger_info "Launching teardown - file cleanup" ;;
      w ← get;
      c ← lift (service_cmdline (MPIRUN_BIN w) l ("-3" :: _common_args l));
      update self (with_cmdline c) ;;
      logger_info (Py.join " " c) ;;
      if _test l then mret None
      else
        pservice ← subprocess_Popen c SPipe SPipe;
        update self (with_cmdline []) ;;
        time_sleep 5 ;;
        mret (Some pservice)
  end.

(** ** The scheduler *)

(** A workload descriptor: the [dict] the entry points receive, with the
    keys they add as optional fields. *)
Record Workload := {
  launcher : nat;
  workload : string;
  access : string;
  pattern : string;
  jobid : option string;
  nnodes : option Z;
  pnodes : option Z;
  snodes : option Z;
  contention : option string;
}.

(** *** Threads *)

(** What a thread has left to do: nothing, its outcome being known, or the
    step [m] and then what [k] makes of its result.  A step is one
    statement of the function the thread runs; between two steps of a
    thread the other threads take any number of theirs. *)
Inductive Thread (A : Type) : Type :=
| Done (r : Res A)
| Act {X : Type} (m : M World X) (k : X -> Thread A).
Arguments Done {A} r.
Arguments Act {A X} m k.

(** A call inside a thread: the steps of [t], then those of [f] on its
    result; an exception ends the thread. *)
Fixpoint call {A B} (t : Thread A) (f : A -> Thread B) : Thread B :=
  match t with
  | Done (OK a) => f a
  | Done (Raise e) => Done (Raise e)
  | Act m k => Act m (fun x => call (k x) f)
  end.

(** The steps of a thread one after the other, with no other thread in
    between. *)
Fixpoint finish {A} (t : Thread A) : M World A :=
  match t with
  | Done r => lift r
  | Act m k => x ← m; finish (k x)
  end.

(** [BenchmarkLauncher.run] statement by statement, with the launcher read
    anew in each statement that names [self]. *)
Definition run_steps (self : nat) (access pattern : string)
    (stdout stderr : option stream) (kwargs : Py.dict Py.value) : Thread (option nat) :=
  Act (update self (fun l => with_kwargs (Py.dict_update (_kwargs l) kwargs) l)) (fun _ =>
  Act (with_self self (fun mpirun_bin isfile =>
         _prep_cmdline mpirun_bin isfile access pattern)) (fun _ =>
  Act (l ← deref self; logger_info ("Executing: " ++ Py.join " " (_cmdline l))) (fun _ =>
  Act (deref self) (fun l =>
  if _test l then Done (OK None)
  else
    Act (deref self) (fun l =>
    let out := default (_stdout l) stdout in
    let err := default (_stderr l) stderr in
    Act (describe_pipe "stdout" out) (fun _ =>
    Act (describe_pipe "stderr" err) (fun _ =>
    Act (l ← deref self; subprocess_Popen (_cmdline l) out err) (fun proc =>
    Act (update self (with_cmdline [])) (fun _ =>
    Done (OK (Some proc))))))))))).

(** [time.time()] in a worker of the pool, with the mark of the reading. *)
Definition read_clock : M World float :=
  t ← time_time; emit (EvTime t) ;; mret t.

Definition _run_and_wait_after_delay (wl : Workload) (delay : Z) : Thread (float * float) :=
  Act (time_sleep delay) (fun _ =>
  Act (emit (EvIssued Run (launcher wl))) (fun _ =>
  call (run_steps (launcher wl) (access wl) (pattern wl) None None []) (fun proc =>
  Act (emit (EvReturned Run (launcher wl) proc)) (fun _ =>
  Act read_clock (fun time0 =>
  Act (wait_if proc) (fun _ =>
  Act read_clock (fun timef =>
  Done (OK (time0, timef))))))))).

(** *** The pool *)

(** A pool at work: by position, the threads that have not handed in
    their outcome; and the outcomes handed in so far, oldest first. *)
Definition Pool (A : Type) : Type := list (option (Thread A)) * list (nat * Res A).

(** Thread [i] gets a turn: it takes its next step, or, at its end, hands
    in its outcome.  A thread that has handed in its outcome lets the turn
    pass, and so does a position outside the pool. *)
Definition turn {A} (i : nat) (p : Pool A) (w : World) : Pool A * World :=
  match p.1 !! i with
  | Some (Some (Done r)) => ((<[i := None]> p.1, (p.2 ++ [(i, r)])%list), w)
  | Some (Some (Act m k)) =>
      match m w with
      | (OK x, w') => ((<[i := Some (k x)]> p.1, p.2), w')
      | (Raise e, w') => ((<[i := Some (Done (Raise e))]> p.1, p.2), w')
      end
  | _ => (p, w)
  end.

(** Thread [i] runs to its end and hands in its outcome. *)
Definition run_out {A} (i : nat) (p : Pool A) (w : World) : Pool A * World :=
  match p.1 !! i with
  | Some (Some t) =>
      let '(r, w') := finish t w in ((<[i := None]> p.1, (p.2 ++ [(i, r)])%list), w')
  | _ => (p, w)
  end.

(** The threads at the positions [order] get to do [op], one after the
    other. *)
Fixpoint each {A} (op : nat -> Pool A -> World -> Pool A * World) (order : list nat)
    (p : Pool A) (w : World) : Pool A * World :=
  match order with
  | [] => (p, w)
  | i :: order' => let '(p', w') := op i p w in each op order' p' w'
  end.

(** The exception [starmap] re-raises: that of the first task to hand in a
    failure. *)
Fixpoint first_failure {A} (outcomes : list (nat * Res A)) : option exn :=
  match outcomes with
  | [] => None
  | (_, Raise e) :: _ => Some e
  | (_, OK _) :: rest => first_failure rest
  end.

(** The value task [idx] returned. *)
Fixpoint result_of {A} (outcomes : list (nat * Res A)) (idx : nat) : option A :=
  match outcomes with
  | [] => None
  | (i, r) :: rest =>
      if decide (i = idx)
      then match r with OK a => Some a | Raise _ => None end
      else result_of rest idx
  end.

(** [pool.starmap] on a pool with one thread for each task.  The world's
    scheduler says which thread gets each turn; when it has no more to say,
    the threads that are left run to their ends in the order of their
    positions, so that every interleaving of the steps of the threads is
    what happens in some world.  [starmap] waits for every task, also when
    one has failed, and gives the results in the order of the tasks. *)
Definition starmap {A} (threads : list (Thread A)) : M World (list A) := fun w =>
  let '(p1, w1) := each turn (scheduler w (length (trace w))) (Some <$> threads, []) w in
  let '(p2, w2) := each run_out (seq 0 (length threads)) p1 w1 in
  match first_failure p2.2 with
  | Some e => (Raise e, w2)
  | None => (OK (omap (result_of p2.2) (seq 0 (length threads))), w2)
  end.

(** [with ThreadPool(len(workloads)) as pool: pool.starmap(...)] on the
    tasks [(workload, delay * idx)]. *)
Definition pool_starmap (workloads : list Workload) (delay : Z) : M World (list (float * float)) :=
  if decide (length workloads < 1)
  then raise (ValueError "Number of processes must be at least 1")
  else
    starmap (imap (fun idx wl => _run_and_wait_after_delay wl (delay * Z.of_nat idx))
               workloads).

Definition run_launchers (workloads : list Workload) (delay : Z) : M World (list (float * float)) :=
  for_each workloads (fun wl =>
    emit (EvIssued Preflight (launcher wl)) ;;
    prep_p ← preflight (launcher wl);
    emit (EvReturned Preflight (launcher wl) prep_p) ;;
    wait_if prep_p) ;;
  results ← pool_starmap workloads delay;
  time_sleep 5 ;;
  for_each workloads (fun wl =>
    emit (EvIssued Teardown (launcher wl)) ;;
    prep_p ← teardown (launcher wl) (access wl) (pattern wl) [];
    emit (EvReturned Teardown (launcher wl) prep_p) ;;
    wait_if prep_p) ;;
  mret results.

(** ** The interference drivers *)

Definition with_labels (j : option string) (n p s : option Z) (c : option string)
    (wl : Workload) : Workload :=
  {| launcher := launcher wl; workload := workload wl; access := access wl;
     pattern := pattern wl; jobid := j; nnodes := n; pnodes := p; snodes := s;
     contention := c |}.

(** [workload[key]] for a key the entry points add. *)
Definition key {A} (name : string) (v : option A) : Res A :=
  match v with
  | Some a => OK a
  | None => Raise (KeyError name)
  end.

(** [OUTPUT_FILENAME.format] on the keys of the descriptor, with
    [OUTPUT_FILENAME = "{workload}_{contention}.{pnodes:d}p-{snodes:d}s.{jobid}.out"]. *)
Definition OUTPUT_FILENAME (wl : Workload) : Res string :=
  match key "contention" (contention wl), key "pnodes" (pnodes wl),
        key "snodes" (snodes wl), key "jobid" (jobid wl) with
  | OK c, OK p, OK s, OK j =>
      OK (workload wl ++ "_" ++ c ++ "." ++ Py.str_int p ++ "p-" ++ Py.str_int s ++ "s."
            ++ j ++ ".out")
  | Raise e, _, _, _ | _, Raise e, _, _ | _, _, Raise e, _ | _, _, _, Raise e => Raise e
  end.

(** ["Launching {contention} {access} {pattern} on {nnodes} {workload} nodes"]
    formatted on the keys of the descriptor. *)
Definition launching_message (wl : Workload) : Res string :=
  match key "contention" (contention wl), key "nnodes" (nnodes wl) with
  | OK c, OK n =>
      OK ("Launching " ++ c ++ " " ++ access wl ++ " " ++ pattern wl ++ " on "
            ++ Py.str_int n ++ " " ++ workload wl ++ " nodes")
  | Raise e, _ | _, Raise e => Raise e
  end.

(** The two labels every entry point starts with: the job id, from the
    environment or else from the clock, and the launcher's node count. *)
Definition init_labels (wl : Workload) : M World Workload :=
  t ← time_time;
  w ← get;
  h ← get_hosts (launcher wl);
  n ← lift (len_hosts h);
  mret (with_labels (Some (default (Py.str_int (Py.int_of_float t)) (SLURM_JOBID w)))
          (Some n) (pnodes wl) (snodes wl) (contention wl) wl).

(** [for workload in workloads: ...] where the body rebinds keys of the
    descriptor. *)
Fixpoint for_each_update {S A} (xs : list A) (body : A -> M S A) : M S (list A) :=
  match xs with
  | [] => mret []
  | x :: xs' => y ← body x; ys ← for_each_update xs' body; mret (y :: ys)
  end.

(** Labels a workload with a contention, logs it, and points the
    launcher's stdout and stderr at the freshly opened output file. *)
Definition start_phase (c : string) (wl : Workload) : M World Workload :=
  let wl := with_labels (jobid wl) (nnodes wl) (pnodes wl) (snodes wl) (Some c) wl in
  msg ← lift (launching_message wl);
  logger_info msg ;;
  name ← lift (OUTPUT_FILENAME wl);
  f ← open_append name;
  set_stdout (launcher wl) f ;;
  out ← get_stdout (launcher wl);
  set_stderr (launcher wl) out ;;
  mret wl.

(** [logger.info("Finished ...".format(.., timestamps[0][0], timestamps[0][1], ..))] *)
Definition log_first_finished (what : string) (timestamps : list (float * float)) : M World unit :=
  match timestamps with
  | [] => raise (IndexError "list index out of range")
  | (t0, tf) :: _ => emit (EvLogFinished what t0 tf)
  end.

(** [for index, timestamp in enumerate(timestamps): logger.info(...)] *)
Fixpoint log_noisy_finished (index : nat) (timestamps : list (float * float)) : M World unit :=
  match timestamps with
  | [] => mret tt
  | (t0, tf) :: rest =>
      emit (EvLogFinished ("noisy workload " ++ Py.str_int (Z.of_nat index)) t0 tf) ;;
      log_noisy_finished (S index) rest
  end.

(** [workloads[i]["nnodes"]] *)
Definition nnodes_at (workloads : list Workload) (i : nat) : Res Z :=
  match workloads !! i with
  | None => Raise (IndexError "tuple index out of range")
  | Some wl => key "nnodes" (nnodes wl)
  end.

(** The isolation loop of the symmetric driver, over the workloads from
    position [i] on. *)
Fixpoint symmetric_quiet (workloads : list Workload) (i : nat) (todo : nat)
  : M World (list Workload) :=
  match todo with
  | O => mret workloads
  | S todo' =>
      match workloads !! i with
      | None => mret workloads
      | Some wl =>
          p ← lift (nnodes_at workloads 0);
          s ← lift (nnodes_at workloads 1);
          wl ← start_phase "quiet"
                 (with_labels (jobid wl) (nnodes wl) (Some p) (Some s) (contention wl) wl);
          timestamps ← run_launchers [wl] 0;
          log_first_finished "quiet workload" timestamps ;;
          symmetric_quiet (<[i := wl]> workloads) (S i) todo'
      end
  end.

Definition run_symmetric_interference (workloads : list Workload) : M World unit :=
  workloads ← for_each_update workloads init_labels;
  if decide (2 < length workloads)
  then raise (NotImplementedError "more than two workloads provided")
  else
    workloads ← symmetric_quiet workloads 0 (length workloads);
    workloads ← for_each_update workloads (start_phase "noisy");
    timestamps ← run_launchers workloads 0;
    log_noisy_finished 0 timestamps.

(** Which of the two descriptors an isolated run is about. *)
Inductive role := Primary | Secondary.

Definition select (primary secondary : Workload) (r : role) : Workload :=
  match r with Primary => primary | Secondary => secondary end.

(** The isolation loop of the asymmetric driver: [primary] and [secondary]
    are the descriptors as they stand, [runs] the roles still to run. *)
Fixpoint isolated_quiet (primary secondary : Workload) (runs : list role)
  : M World (Workload * Workload) :=
  match runs with
  | [] => mret (primary, secondary)
  | r :: runs' =>
      wl ← start_phase "quiet" (select primary secondary r);
      timestamps ← run_launchers [wl] 0;
      c ← lift (key "contention" (contention wl));
      log_first_finished (c ++ " workload") timestamps ;;
      match r with
      | Primary => isolated_quiet wl secondary runs'
      | Secondary => isolated_quiet primary wl runs'
      end
  end.

Definition run_interference (primary secondary : Workload) (delay : Z) (isolate : string)
  : M World unit :=
  match Py.lower isolate with
  | EmptyString => raise (IndexError "string index out of range")
  | String isolate _ =>
      let isolated_runs :=
        if decide (isolate = "b"%char) then Some [Primary; Secondary]
        else if decide (isolate = "p"%char) then Some [Primary]
        else if decide (isolate = "s"%char) then Some [Secondary]
        else None in
      match isolated_runs with
      | None => raise (ValueError "isolate must be one of: primary secondary both")
      | Some isolated_runs =>
          primary ← init_labels primary;
          secondary ← init_labels secondary;
          p ← lift (key "nnodes" (nnodes primary));
          s ← lift (key "nnodes" (nnodes secondary));
          let primary :=
            with_labels (jobid primary) (nnodes primary) (Some p) (Some s)
              (contention primary) primary in
          let secondary :=
            with_labels (jobid secondary) (nnodes secondary) (Some p) (Some s)
              (contention secondary) secondary in
          '(primary, secondary) ← isolated_quiet primary secondary isolated_runs;
          primary ← start_phase "noisy" primary;
          secondary ← start_phase "noisy" secondary;
          timestamps ← run_launchers [primary; secondary] delay;
          log_noisy_finished 0 timestamps
      end
  end.

(** ** The loss report *)

Module Summary.

(** A column of the performance pivot: [(contention, workload_id)]. *)
Definition column : Type := string * string.

(** A node-count pair [(primary_nodes, secondary_nodes)], the index of
    both pivots. *)
Definition pair : Type := Z * Z.

(** The frame [performance_frame] returns: one row of cells per
    node-count pair, aligned with the columns.  A combination without
    data is a NaN cell, as [pivot_table] leaves it. *)
Record DataFrame := {
  columns : list column;
  rows : list (pair * list float);
}.

Definition index (performance : DataFrame) : list pair := fst <$> rows performance.

(** Position of a column. *)
Fixpoint position (c : column) (cols : list column) : option nat :=
  match cols with
  | [] => None
  | c' :: cols' => if decide (c = c') then Some 0 else S <$> position c cols'
  end.

(** [row.loc[c]] on a row of [iterrows()]: [KeyError] when the frame has
    no such column, else the cell, NaN included. *)
Definition row_loc (cols : list column) (cells : list float) (c : column) : Res float :=
  match position c cols with
  | None => Raise (KeyError (fst c ++ "," ++ snd c))
  | Some j => OK (nth j cells nan)
  end.

(** The two statements of the [try] block, for one workload. *)
Definition loss_of (cols : list column) (cells : list float) (workload_id : string)
  : Res float :=
  match row_loc cols cells ("quiet", workload_id),
        row_loc cols cells ("noisy", workload_id) with
  | OK quiet, OK noisy =>
      let loss := (quiet - noisy)%float in
      match row_loc cols cells ("quiet", workload_id) with
      | OK quiet' => OK (loss * (100 / quiet'))%float
      | Raise e => Raise e
      end
  | Raise e, _ => Raise e
  | _, Raise e => Raise e
  end.

(** The [loss] dictionary of one row: [except KeyError: pass] leaves the
    workload out. *)
Fixpoint row_loss (cols : list column) (cells : list float) (ids : list string)
  : Py.dict float :=
  match ids with
  | [] => []
  | workload_id :: ids' =>
      match loss_of cols cells workload_id with
      | OK v => (workload_id, v) :: row_loss cols cells ids'
      | Raise _ => row_loss cols cells ids'
      end
  end.

(** The loss pivot: a record per node-count pair. *)
Definition LossFrame : Type := list (pair * Py.dict float).

(** [pandas.DataFrame.from_records(losses, index=...)]: the records are
    matched with the index by position. *)
Definition from_records (losses : list (Py.dict float)) (idx : list pair) : Res LossFrame :=
  match losses with
  | [] => OK ((fun i => (i, [])) <$> idx)
  | _ =>
      if decide (length losses = length idx) then OK (zip idx losses)
      else Raise (ValueError "Length of values does not match length of index")
  end.

Definition loss_frame (performance : DataFrame) : Res LossFrame :=
  let losses :=
    filter (fun loss => loss ≠ [])
      ((fun row => row_loss (columns performance) (snd row) ["primary"; "secondary"])
         <$> rows performance) in
  from_records losses (index performance).

(** The entry of a pivot's record. *)
Fixpoint lookup_key {V} (k : string) (d : Py.dict V) : option V :=
  match d with
  | [] => None
  | (k', v) :: d' => if decide (k = k') then Some v else lookup_key k d'
  end.

(** The loss entry of a workload at a node-count pair, if there is one. *)
Fixpoint loss_at (loss : LossFrame) (p : pair) (workload_id : string) : option float :=
  match loss with
  | [] => None
  | (p', record) :: loss' =>
      if decide (p = p') then lookup_key workload_id record
      else loss_at loss' p workload_id
  end.

(** A value exists in the pivot for a pair and a column: the column is
    there and the cell is a number. *)
Definition has_value (performance : DataFrame) (p : pair) (c : column) : bool :=
  match list_find (fun row => fst row = p) (rows performance) with
  | None => false
  | Some (_, row) =>
      match row_loc (columns performance) (snd row) c with
      | OK v => negb (is_nan v)
      | Raise _ => false
      end
  end.

(** Both columns a workload's loss is computed from are in the pivot. *)
Definition both_columns (cols : list column) (workload_id : string) : Prop :=
  is_Some (position ("quiet", workload_id) cols)
  /\ is_Some (position ("noisy", workload_id) cols).

End Summary.

(** ** A concrete installation *)

Module Sample.

(** A configuration in the shape of the one [load_config] documents. *)
Definition cfg : gmap string ToolConfig :=
  {[ "elbencho" :=
       {| binary := "/opt/elbencho"; common_args := "--threads 1 --sync";
          access_args := {[ "write" := "--write"; "read" := "--read";
                            "clean" := "--delfiles" ]};
          pattern_args := {[ "bw" := "--size 1t --block 1m";
                             "iops" := "--size 1t --block 4k --rand" ]};
          access_pattern_args := None; random_data_args := Some "--randdata";
          timelimit_args := "--timelimit" |};
     "ior" :=
       {| binary := "/opt/ior"; common_args := "-F -e";
          access_args := {[ "write" := "-w"; "read" := "-r" ]};
          pattern_args := {[ "bw" := "-t 1m -b 1g"; "iops" := "-t 4k -z" ]};
          access_pattern_args := Some {[ "write" := {[ "iops" := "-Y" ]} ]};
          random_data_args := None; timelimit_args := "-D" |};
     "md-workbench" :=
       {| binary := "/opt/md-workbench"; common_args := "-I 10";
          access_args := {[ "write" := "-2" ]};
          pattern_args := {[ "iops" := "-P 5" ]};
          access_pattern_args := None; random_data_args := None;
          timelimit_args := "-w" |} ]}.

Definition init (dry : bool) : InitArgs :=
  {| hosts := Some ["n1"; "n2"]; ppn := 4; output_dir := inl "/scratch/out";
     timelimit := 45; random_data := true; config := cfg; test := dry;
     stdout := SNone; stderr := SNone; kwargs := [] |}.

(** The value of a construction that succeeded. *)
Definition the {A : Type} (r : Res A)
  : match r return Type with OK _ => A | Raise _ => exn end :=
  match r with OK a => a | Raise e => e end.

(** One launcher of each adapter, for a dry run and for a real one. *)
Definition elbencho_dry : Launcher := Eval vm_compute in the (ElbenchoLauncher (init true)).
Definition elbencho_real : Launcher := Eval vm_compute in the (ElbenchoLauncher (init false)).
Definition elbencho (dry : bool) : Launcher := if dry then elbencho_dry else elbencho_real.

Definition ior_dry : Launcher := Eval vm_compute in the (IorLauncher "srun" (init true)).
Definition ior_real : Launcher := Eval vm_compute in the (IorLauncher "srun" (init false)).
Definition ior (dry : bool) : Launcher := if dry then ior_dry else ior_real.

Definition mdworkbench_dry : Launcher := Eval vm_compute in the (MdworkbenchLauncher "srun" (init true)).
Definition mdworkbench_real : Launcher := Eval vm_compute in the (MdworkbenchLauncher "srun" (init false)).
Definition mdworkbench (dry : bool) : Launcher := if dry then mdworkbench_dry else mdworkbench_real.

Definition world (launchers : list Launcher) : World :=
  {| heap := launchers; trace := []; files := []; next_id := 0;
     MPIRUN_BIN := "srun"; SLURM_JOBID := Some "123";
     clock := fun k => PrimFloat.of_uint63 (Uint63.of_Z (Z.of_nat k));
     ticks := 0; scheduler := fun _ => [] |}.

(** The three of them, at references 0, 1 and 2. *)
Definition adapters (dry : bool) : World :=
  world [elbencho dry; ior dry; mdworkbench dry].

(** The world [w] with a scheduler that gives the threads of every pool
    the turns [turns]. *)
Definition scheduled (turns : list nat) (w : World) : World :=
  {| heap := heap w; trace := trace w; files := files w; next_id := next_id w;
     MPIRUN_BIN := MPIRUN_BIN w; SLURM_JOBID := SLURM_JOBID w; clock := clock w;
     ticks := ticks w; scheduler := fun _ => turns |}.

(** Turns that let the second of two workers start its process first and
    the first one read the clock last. *)
Definition turns : list nat :=
  [1; 1; 0; 0; 1; 0; 1; 0; 0; 0; 0; 0; 0; 0; 0; 0; 1; 1; 1; 1; 1; 1; 1; 1; 1; 1; 1; 1; 1; 1].

(** U+00A0, the no-break space, and U+2003, the em space. *)
Definition nbsp : string := String (ascii_of_nat 194) (String (ascii_of_nat 160) "").
Definition emsp : string :=
  String (ascii_of_nat 226) (String (ascii_of_nat 128) (String (ascii_of_nat 131) "")).

(** U+00E0, a letter whose second byte is that of the no-break space. *)
Definition agrave : string := String (ascii_of_nat 195) (String (ascii_of_nat 160) "").

(** The byte 160 on its own. *)
Definition byte160 : string := String (ascii_of_nat 160) "".

Definition descriptor (ref : nat) (label access pattern : string) : Workload :=
  {| launcher := ref; workload := label; access := access; pattern := pattern;
     jobid := None; nnodes := None; pnodes := None; snodes := None;
     contention := None |}.

(** The command line the launcher at [ref] holds. *)
Definition cmdline_at (ref : nat) (w : World) : option (list string) :=
  _cmdline <$> heap w !! ref.

End Sample.

(** ** Vocabulary of the properties *)

(** The launcher with its scratch buffer emptied: every field assembly can
    read. *)
Definition settled (l : Launcher) : Launcher := with_cmdline [] l.

(** A method body that writes nothing but the scratch buffer. *)
Definition scratch_only {A} (m : M Launcher A) : Prop :=
  forall l, exists c, snd (m l) = with_cmdline c l.

(** What construction establishes for the two adapters started through the
    job launcher: their prefix begins with [MPIRUN_BIN]. *)
Definition launcher_ok (mpirun_bin : string) (l : Launcher) : Prop :=
  cls l = Elbencho \/ exists rest, _prepend_cmdline l = mpirun_bin :: rest.

(** A step that only extends the command line, whatever it holds. *)
Definition succeeds (m : M Launcher unit) (c0 : list string) (l : Launcher) : Prop :=
  exists c, m (with_cmdline c0 l) = (OK tt, with_cmdline c l).

(** The part of [_prep_cmdline] from the access-mode arguments on. *)
Definition prep_tail (l : Launcher) (access pattern : string) : M Launcher unit :=
  a ← getitem (_access_args l) access;
  extend a ;;
  p ← getitem (_pattern_args l) pattern;
  extend p ;;
  extend (default [] (default ∅ (_access_pattern_args l !! access) !! pattern)) ;;
  for_each (_kwargs l) (fun kv => extend (kwarg_tokens kv)) ;;
  _add_output_dir.

(** The descriptor names a launcher that has a host list. *)
Definition has_hosts (w : World) (wl : Workload) : Prop :=
  exists l h, heap w !! launcher wl = Some l /\ _hosts l = Some h.

(** What labelling the workloads leaves untouched: everything but the
    count of clock readings. *)
Definition only_clock_read (w w' : World) : Prop :=
  heap w' = heap w /\ trace w' = trace w /\ files w' = files w
  /\ next_id w' = next_id w.

(** A performance pivot with both values for the primary at (4, 2) and only
    a noisy value at (3, 3). *)
Definition sample_performance : Summary.DataFrame :=
  {| Summary.columns := [("noisy", "primary"); ("quiet", "primary")];
     Summary.rows := [((4, 2)%Z, [80; 100]%float); ((3, 3)%Z, [60; nan]%float)] |}.

(** The world [w] with another heap, more events in its trace and another
    next identity: what the launcher methods can change. *)
Definition after (w : World) (h : list Launcher) (evs : list event) (n : nat) : World :=
  {| heap := h; trace := trace w ++ evs; files := files w; next_id := n;
     MPIRUN_BIN := MPIRUN_BIN w; SLURM_JOBID := SLURM_JOBID w; clock := clock w;
     ticks := ticks w; scheduler := scheduler w |}.

(** What [run] writes to the trace once the command line [c] is there. *)
Definition run_events (dry : bool) (c : list string) (out err : stream) (n : nat)
  : list event :=
  EvLog INFO ("Executing: " ++ Py.join " " c)
  :: (if dry then []
      else [EvLog DEBUG ("Directing stdout to " ++ pipe_target out);
            EvLog DEBUG ("Directing stderr to " ++ pipe_target err);
            EvPopen n c out err]).

(** The outcome of [run], from the outcome [r] of the assembly. *)
Definition run_outcome (self : nat) (l : Launcher) (r : Res unit * Launcher)
    (out err : option stream) (w : World) (h : list Launcher) (evs : list event) (n : nat)
  : Res (option nat) * World :=
  let events := run_events (_test l) (_cmdline r.2)
                  (default (_stdout l) out) (default (_stderr l) err) n in
  match r.1 with
  | Raise e => (Raise e, after w (<[self := r.2]> h) evs n)
  | OK _ =>
      if _test l
      then (OK None, after w (<[self := r.2]> h) (evs ++ events) n)
      else (OK (Some n), after w (<[self := with_cmdline [] r.2]> h) (evs ++ events) (S n))
  end.

(** What a preflight or teardown that starts from [service_cmdline] writes
    to the trace. *)
Definition service_events (l : Launcher) (banner : string) (c : list string)
    (settle : bool) (n : nat) : list event :=
  [EvLog INFO banner; EvLog INFO (Py.join " " c)]
  ++ (if _test l then []
      else EvPopen n c SPipe SPipe :: (if settle then [EvSleep 5] else [])).

(** The outcome of such a preflight or teardown: [handle] says whether the
    process handle is returned. *)
Definition service_outcome (self : nat) (l : Launcher) (banner : string)
    (tail : list string) (settle handle : bool) (w : World) (h : list Launcher)
    (evs : list event) (n : nat) : Res (option nat) * World :=
  match service_cmdline (MPIRUN_BIN w) l tail with
  | Raise e => (Raise e, after w h (evs ++ [EvLog INFO banner]) n)
  | OK c =>
      if _test l
      then (OK None,
            after w (<[self := with_cmdline c l]> h) (evs ++ service_events l banner c settle n) n)
      else (OK (if handle then Some n else None),
            after w (<[self := with_cmdline [] l]> h)
              (evs ++ service_events l banner c settle n) (S n))
  end.

(** [--hosts a,b,c], the tokens elbencho's [_add_hosts] appends. *)
Definition hosts_tokens (l : Launcher) : list string :=
  match _hosts l with
  | Some hs => ["--hosts"; Py.join "," hs]
  | None => []
  end.

(** The outcome of elbencho's [teardown]: [r] is the outcome of assembling
    the cleanup command on the launcher with both streams set to [None]. *)
Definition elbencho_teardown_outcome (self : nat) (l : Launcher)
    (r : Res unit * Launcher) (w : World) (h : list Launcher) (evs : list event) (n : nat)
  : Res (option nat) * World :=
  let banner := EvLog INFO "Launching teardown - file cleanup" in
  let restored := with_stderr (_stderr l) (with_stdout (_stdout l) r.2) in
  let quit := ([_binary l; "--quit"] ++ hosts_tokens l)%list in
  let cleanup := run_events (_test l) (_cmdline r.2) SPipe SPipe n in
  let shutdown := [EvLog INFO "Launching teardown - service shutdown";
                   EvLog INFO (Py.join " " quit)] in
  match r.1 with
  | Raise e => (Raise e, after w (<[self := r.2]> h) (evs ++ [banner]) n)
  | OK _ =>
      if _test l
      then (OK None,
            after w (<[self := with_cmdline quit restored]> h)
              (evs ++ banner :: cleanup ++ shutdown) n)
      else (OK (Some (S n)),
            after w (<[self := with_cmdline [] restored]> h)
              (evs ++ banner :: cleanup
                   ++ EvWait n :: shutdown ++ [EvPopen (S n) quit SPipe SPipe; EvSleep 5])
              (S (S n)))
  end.

(** An INFO line of the log. *)
Definition info_log (e : event) : Prop := exists msg, e = EvLog INFO msg.

(** Between [w] and [w'] the events [evs] were written, all of them INFO
    lines, and no process identity was used. *)
Definition only_logged (w w' : World) (evs : list event) : Prop :=
  trace w' = (trace w ++ evs)%list /\ Forall info_log evs /\ next_id w' = next_id w.

(** The call returned no process handle: it returned [None] or raised. *)
Definition no_handle (r : Res (option nat)) : Prop :=
  r = OK None \/ exists e, r = Raise e.

(** The command line the launcher holds is in the log, after [prefix]. *)
Definition cmdline_logged (self : nat) (prefix : string) (w' : World) (evs : list event)
  : Prop :=
  exists l', heap w' !! self = Some l'
             /\ EvLog INFO (prefix ++ Py.join " " (_cmdline l')) ∈ evs.

(** A process, if the event starts one, has both streams on pipes. *)
Definition piped (e : event) : Prop :=
  match e with
  | EvPopen _ _ out err => out = SPipe /\ err = SPipe
  | _ => True
  end.

(** The sample world once the elbencho launcher's stdout and stderr are
    the output file of a phase. *)
Definition routed : World :=
  ((f ← open_append "primary_quiet.2p-1s.123.out"; set_stdout 0 f ;; set_stderr 0 f)
     (Sample.adapters false)).2.

(** An event a launcher method can write: anything but the marks. *)
Definition internal (e : event) : Prop :=
  match e with
  | EvIssued _ _ | EvReturned _ _ _ | EvTime _ => False
  | _ => True
  end.

(** The marks and the waits on process handles. *)
Definition is_sched (e : event) : bool :=
  match e with
  | EvIssued _ _ | EvReturned _ _ _ | EvTime _ | EvWait _ => true
  | _ => false
  end.

(** What is left of a trace when only those are kept. *)
Definition scheduler_view (evs : list event) : list event := List.filter is_sched evs.

(** [if proc: proc.wait()] as events. *)
Definition wait_events (handle : option nat) : list event :=
  match handle with
  | Some p => [EvWait p]
  | None => []
  end.

(** One call of the scheduler in the view: the call is issued, the method
    waits on the processes [detail.1] of its own, it returns the handle
    [detail.2], and the scheduler waits on the handle if there is one. *)
Definition block (m : method) (ref : nat) (detail : list nat * option nat) : list event :=
  (EvIssued m ref :: (EvWait <$> detail.1)
     ++ EvReturned m ref detail.2 :: wait_events detail.2)%list.

(** The calls of [m] on the launchers [refs], one after the other. *)
Definition blocks (m : method) (refs : list nat) (details : list (list nat * option nat))
  : list event :=
  concat (zip_with (block m) refs details).

(** From [w] to [w'] the events [evs] were written; the clock was not
    read. *)
Definition steps (w w' : World) (evs : list event) : Prop :=
  trace w' = (trace w ++ evs)%list /\ ticks w' = ticks w /\ clock w' = clock w
  /\ scheduler w' = scheduler w.

(** What the worker of [wl] shows in the view when it comes to its end:
    the run call and the handle [h] it returns, the first reading of the
    clock, the wait on the handle if there is one, the second reading. *)
Definition run_block (wl : Workload) (h : option nat) (t : float * float) : list event :=
  ([EvIssued Run (launcher wl); EvReturned Run (launcher wl) h; EvTime t.1]
     ++ wait_events h ++ [EvTime t.2])%list.

(** [evs] is an interleaving of the lists [ls]: every element of [evs] is
    the next one of one of the lists, and none is left over. *)
Inductive interleaved {A : Type} : list (list A) -> list A -> Prop :=
| interleaved_nil ls : Forall (fun l => l = []) ls -> interleaved ls []
| interleaved_cons ls i x l evs :
    ls !! i = Some (x :: l) -> interleaved (<[i := l]> ls) evs -> interleaved ls (x :: evs).

(** Every step of the thread takes a world to one that [R] relates to it. *)
Fixpoint acts {A} (R : World -> World -> Prop) (t : Thread A) : Prop :=
  match t with
  | Done _ => True
  | Act m k => (forall w, R w (m w).2) /\ forall x, acts R (k x)
  end.

(** Nothing is taken from the trace. *)
Definition extends (w w' : World) : Prop := exists evs, trace w' = (trace w ++ evs)%list.

(** The thread can write the events [evs] and end with [r], each of its
    steps taken in some world. *)
Fixpoint runs {A} (t : Thread A) (evs : list event) (r : Res A) : Prop :=
  match t with
  | Done r' => evs = [] /\ r = r'
  | Act m k =>
      exists w e1,
        trace (m w).2 = (trace w ++ e1)%list
        /\ match (m w).1 with
           | OK x => exists e2, evs = (e1 ++ e2)%list /\ runs (k x) e2 r
           | Raise e => evs = e1 /\ r = Raise e
           end
  end.

(** The pool and the world as they can be after some turns: [evs] has
    been written, [evss !! i] of it by thread [i]. *)
Definition pool_inv {A} (threads : list (Thread A)) (w0 : World) (p : Pool A) (w : World)
  : Prop :=
  exists evss evs,
    trace w = (trace w0 ++ evs)%list
    /\ interleaved evss evs
    /\ length evss = length threads
    /\ length p.1 = length threads
    /\ (forall i t, p.1 !! i = Some (Some t) ->
          acts extends t
          /\ exists t0 l, threads !! i = Some t0 /\ evss !! i = Some l
               /\ forall e r, runs t e r -> runs t0 (l ++ e)%list r)
    /\ (forall i, p.1 !! i = Some None -> exists r, (i, r) ∈ p.2)
    /\ (forall i r, (i, r) ∈ p.2 ->
          p.1 !! i = Some None
          /\ exists t0 l, threads !! i = Some t0 /\ evss !! i = Some l /\ runs t0 l r).

(** An event [run] writes: a line of the log or the start of a process. *)
Definition run_event (e : event) : Prop :=
  match e with
  | EvLog _ _ | EvPopen _ _ _ _ => True
  | _ => False
  end.

(** From [w] to [w'] events that satisfy [P] were written. *)
Definition writes (P : event -> Prop) (w w' : World) : Prop :=
  exists evs, trace w' = (trace w ++ evs)%list /\ Forall P evs.

(** Two workloads on the md-workbench and the IOR launcher of the sample. *)
Definition sample_workloads : list Workload :=
  [Sample.descriptor 2 "primary" "write" "iops"; Sample.descriptor 1 "secondary" "read" "bw"].

(** ** Vocabulary of the further properties *)

(** A white-space character occurs in the string, which follows an ASCII
    byte or none when [lone] is set. *)
Fixpoint has_space_from (lone : bool) (s : string) : bool :=
  match s with
  | EmptyString => false
  | String c s' => negb (Py.space_width lone s =? 0)%nat || has_space_from (Py.is_ascii c) s'
  end.

(** A white-space character occurs in the string. *)
Definition has_space (s : string) : bool := has_space_from true s.

(** A command-line token: not empty and free of white space. *)
Definition token (t : string) : Prop := t <> EmptyString /\ has_space t = false.

(** No white-space character begins in [cur] when [s] follows it. *)
Fixpoint spaceless (lone : bool) (cur s : string) : Prop :=
  match cur with
  | EmptyString => True
  | String c cur' =>
      Py.space_width lone (cur ++ s)%string = 0 /\ spaceless (Py.is_ascii c) cur' s
  end.

(** Whether what follows [cur] follows an ASCII byte, or none. *)
Fixpoint lone_after (lone : bool) (cur : string) : bool :=
  match cur with
  | EmptyString => lone
  | String c cur' => lone_after (Py.is_ascii c) cur'
  end.

(** An elbencho entry of the configuration that names no thread flag,
    and construction arguments with it. *)
Definition flagless_tool : ToolConfig :=
  {| binary := "/opt/elbencho"; common_args := "--sync --direct --nolive";
     access_args := {[ "write" := "--write" ]};
     pattern_args := {[ "bw" := "--block 1m" ]};
     access_pattern_args := None; random_data_args := None;
     timelimit_args := "--timelimit" |}.

Definition flagless : InitArgs :=
  {| hosts := Some ["n1"]; ppn := 4; output_dir := inr ["/scratch/a"; "/scratch/b"];
     timelimit := 0; random_data := false;
     config := {[ "elbencho" := flagless_tool ]};
     test := false; stdout := SNone; stderr := SNone; kwargs := [] |}.

(** *** The fragments of a command line *)

(** The node list the two adapters started through the job launcher put
    after its name. *)
Definition nodelist_tokens (l : Launcher) : list string :=
  match _hosts l with
  | Some hs => ["--nodelist"; Py.join "," hs]
  | None => []
  end.

(** The time limit, when there is one. *)
Definition timelimit_tokens (l : Launcher) : list string :=
  if decide (_timelimit l = 0%Z) then []
  else (_timelimit_args l ++ [Py.str_int (_timelimit l)])%list.

(** The switch for random data, when it is asked for. *)
Definition random_data_tokens (l : Launcher) : list string :=
  if _random_data l then _random_data_args l else [].

(** Where elbencho is told to write its results: beside the file its
    stdout goes to, when that is a regular file. *)
Definition results_tokens (isfile : string -> bool) (l : Launcher) : list string :=
  match _stdout l with
  | SFile _ name =>
      if isfile name
      then (["--resfile"; (name ++ ".results")%string; "--csvfile"; (name ++ ".csv")%string]
              ++ (if _livecsv l then ["--livecsv"; (name ++ ".live.csv")%string] else []))%list
      else []
  | _ => []
  end.

(** The arguments of the workload: the common ones, the given ones of the
    access mode and of the pattern, those of their combination, and the
    extra keyword arguments in the order they were first given. *)
Definition workload_tokens (l : Launcher) (access pattern : string)
    (a p : list string) : list string :=
  (_common_args l ++ a ++ p
     ++ default [] (default ∅ (_access_pattern_args l !! access) !! pattern)
     ++ flat_map kwarg_tokens (_kwargs l))%list.

(** The target of the two adapters that take one directory. *)
Definition first_output_dir (l : Launcher) : list string :=
  match _output_dir l with
  | [] => []
  | d :: _ => ["-o"; d]
  end.

(** An elbencho launcher built without a host list, and one whose access
    table has no cleanup mode, with its streams on an output file. *)
Definition hostless : Launcher :=
  Eval vm_compute in
    Sample.the (ElbenchoLauncher
      {| hosts := None; ppn := 4; output_dir := inl "/scratch/out"; timelimit := 0;
         random_data := false; config := Sample.cfg; test := true; stdout := SNone;
         stderr := SNone; kwargs := [] |}).

Definition uncleanable : Launcher :=
  Eval vm_compute in
    with_stderr (SFile 7 "primary_quiet.out")
      (with_stdout (SFile 7 "primary_quiet.out") (Sample.the (ElbenchoLauncher flagless))).

(** *** What a method call can change *)

(** [l'] is [l] but for the command-line buffer and the merged keyword
    arguments. *)
Definition same_setup (l l' : Launcher) : Prop :=
  exists c k, l' = with_cmdline c (with_kwargs k l).

(** The same, but for the two streams as well. *)
Definition same_setup_but_streams (l l' : Launcher) : Prop :=
  exists out err, same_setup (with_stdout out (with_stderr err l)) l'.

(** From [w] to [w'] the heap changed at most at [self], where the
    launchers are related by [R]; no file was created and the clock was
    not read. *)
Definition confined (R : Launcher -> Launcher -> Prop) (self : nat) (w w' : World) : Prop :=
  (forall i, i <> self -> heap w' !! i = heap w !! i)
  /\ length (heap w') = length (heap w)
  /\ (forall l, heap w !! self = Some l -> exists l', heap w' !! self = Some l' /\ R l l')
  /\ files w' = files w
  /\ ticks w' = ticks w.

(** From [w] to [w'] no file was created, no launcher was added or
    removed, the launchers outside [refs] are as they were, and the others
    differ at most in the command-line buffer, the merged keyword arguments
    and the streams. *)
Definition undisturbed (refs : list nat) (w w' : World) : Prop :=
  files w' = files w
  /\ length (heap w') = length (heap w)
  /\ (forall i, i ∉ refs -> heap w' !! i = heap w !! i)
  /\ (forall i l, heap w !! i = Some l ->
      exists l', heap w' !! i = Some l' /\ same_setup_but_streams l l').

(** A computation that leaves every world so. *)
Definition sparing {A} (refs : list nat) (m : M World A) : Prop :=
  forall w, undisturbed refs w (m w).2.

(** *** The barriers of the scheduler *)

(** The scheduler issues a call of [m]. *)
Definition is_issued (m : method) (e : event) : bool :=
  match e with
  | EvIssued m' _ => bool_decide (m' = m)
  | _ => false
  end.

(** A call of [m] returns to the scheduler. *)
Definition is_returned (m : method) (e : event) : bool :=
  match e with
  | EvReturned m' _ _ => bool_decide (m' = m)
  | _ => false
  end.

(** The number of calls of [m] that have returned. *)
Definition returned (m : method) (evs : list event) : nat :=
  length (List.filter (is_returned m) evs).

(** An event a launcher method writes: a line of the log, the start of a
    process, a wait, a sleep. *)
Definition launched (e : event) : Prop :=
  match e with
  | EvLog _ _ | EvPopen _ _ _ _ | EvWait _ | EvSleep _ => True
  | _ => False
  end.

(** An event of the phase of [m]: a mark of [m], or an event of a
    launcher method. *)
Definition phase_event (m : method) (e : event) : bool :=
  match e with
  | EvIssued m' _ | EvReturned m' _ _ => bool_decide (m' = m)
  | EvOpen _ _ | EvLogFinished _ _ _ => false
  | _ => true
  end.

(** Whenever an event that satisfies [P] is written, [k] calls of [m]
    plus those in the events before it make [n]. *)
Definition guarded (P : event -> bool) (m : method) (n k : nat) (evs : list event) : Prop :=
  forall before e after,
    evs = (before ++ e :: after)%list -> P e = true -> k + returned m before = n.

(** A descriptor of the sample with the labels the drivers add first. *)
Definition labelled : Workload :=
  with_labels (Some "123") (Some 2%Z) (Some 2%Z) (Some 1%Z) None
    (Sample.descriptor 0 "primary" "write" "bw").

(** The run call on [r] comes after a sleep of [delay] times the position
    of a workload of [ws] whose launcher is [r], a length that is not
    negative. *)
Definition after_stagger (ws : list Workload) (delay : Z) (before : list event) (r : nat)
  : Prop :=
  exists idx wl,
    ws !! idx = Some wl /\ launcher wl = r
    /\ (0 <= delay * Z.of_nat idx)%Z
    /\ EvSleep (delay * Z.of_nat idx) ∈ before.

(** Every run call in the events is issued that way. *)
Definition staggered (ws : list Workload) (delay : Z) (evs : list event) : Prop :=
  forall before r after,
    evs = (before ++ EvIssued Run r :: after)%list -> after_stagger ws delay before r.

(** What the worker of the workload at position [idx] writes, from its
    first step to its outcome: nothing when its sleep is refused, the
    length being negative; else its sleep, then the issue of its run call,
    then events among which no run call is issued. *)
Definition worker_start (delay : Z) (idx : nat) (wl : Workload) (l : list event) : Prop :=
  if decide (delay * Z.of_nat idx < 0)%Z then l = []
  else exists rest,
         l = (EvSleep (delay * Z.of_nat idx) :: EvIssued Run (launcher wl) :: rest)%list
         /\ Forall (fun e => is_issued Run e = false) rest.

(** The events of a run phase: what the workers write, one worker for each
    workload, interleaved. *)
Definition workers_phase (ws : list Workload) (delay : Z) (evs : list event) : Prop :=
  exists evss,
    interleaved evss evs /\ length evss = length ws
    /\ forall idx wl l, ws !! idx = Some wl -> evss !! idx = Some l ->
          worker_start delay idx wl l.

(** *** The node-count loop of [main] *)

(** [range(start, stop, step)] *)
Definition py_range (start stop step : Z) : Res (list Z) :=
  if decide (step = 0%Z) then Raise (ValueError "range() arg 3 must not be zero")
  else
    let n := if decide (0 < step)%Z then ((stop - start + step - 1) / step)%Z
             else ((start - stop - step - 1) / (- step))%Z in
    OK ((fun i => (start + Z.of_nat i * step)%Z) <$> seq 0 (Z.to_nat n)).

(** The bound [k] of a slice of a list of length [n], as a position:
    a negative bound counts from the end. *)
Definition slice_bound (n : nat) (k : Z) : nat :=
  Z.to_nat (if decide (k < 0)%Z then Z.of_nat n + k else k)%Z.

(** [l[:k]] and [l[k:]] *)
Definition slice_to {A} (l : list A) (k : Z) : list A := take (slice_bound (length l) k) l.
Definition slice_from {A} (l : list A) (k : Z) : list A := drop (slice_bound (length l) k) l.

(** The loop header of [main] and the first two statements of its body:
    the host lists of the primary and of the secondary workload, iteration
    by iteration, for the nodes of the job and the [--step] option. *)
Definition node_partitions (node_list : list string) (step : Z)
  : Res (list (list string * list string)) :=
  let num_nodes := Z.of_nat (length node_list) in
  let node_step := (-1 * step)%Z in
  match py_range (num_nodes + node_step) 0 node_step with
  | Raise e => Raise e
  | OK nums =>
      OK ((fun num_primary => (slice_to node_list num_primary, slice_from node_list num_primary))
            <$> nums)
  end.

(** An IOR launcher built while [MPIRUN_BIN] was [mpiexec]. *)
Definition flagged : Launcher :=
  Eval vm_compute in Sample.the (IorLauncher "mpiexec" (Sample.init false)).

(** *** The files of an experiment *)

(** [d.get(k)] *)
Fixpoint dict_get {V} (k : string) (d : Py.dict V) : option V :=
  match d with
  | [] => None
  | (k', v) :: d' => if decide (k = k') then Some v else dict_get k d'
  end.

(** The names of the files the events open, in order. *)
Definition opened (evs : list event) : list string :=
  omap (fun e => match e with EvOpen _ name => Some name | _ => None end) evs.

(** The name [OUTPUT_FILENAME] gives for a workload label, a contention,
    the two node counts and a job. *)
Definition output_name (label c : string) (p s : Z) (j : string) : string :=
  label ++ "_" ++ c ++ "." ++ Py.str_int p ++ "p-" ++ Py.str_int s ++ "s." ++ j ++ ".out".

(** The job a descriptor is labelled with once the clock has been read
    [k] more times: that of the environment, or else the integer part of
    the reading. *)
Definition job_label (w : World) (k : nat) : string :=
  default (Py.str_int (Py.int_of_float (clock w (ticks w + k)))) (SLURM_JOBID w).

(** The labels the drivers give a descriptor, but for the contention. *)
Definition labels_of (wl : Workload)
  : string * option string * option Z * option Z * option Z :=
  (workload wl, jobid wl, nnodes wl, pnodes wl, snodes wl).

(** * Properties *)

(** ** The model on sample inputs *)

Example split_example :
  Py.split "  --threads 1   --sync " = ["--threads"; "1"; "--sync"].
Proof. reflexivity. Qed.

Example split_unicode_example :
  Py.split ("--sync" ++ Sample.nbsp ++ "--direct" ++ Sample.emsp ++ "-t 1")
  = ["--sync"; "--direct"; "-t"; "1"]
  /\ Py.split ("voil" ++ Sample.agrave ++ " tout") = ["voil" ++ Sample.agrave; "tout"]
  /\ Py.split ("--sync" ++ Sample.byte160 ++ "--direct") = ["--sync"; "--direct"].
Proof. repeat split; reflexivity. Qed.

Example str_int_example : map Py.str_int [0; 45; -7]%Z = ["0"; "45"; "-7"].
Proof. reflexivity. Qed.

Example dict_update_example :
  Py.dict_update [("a", 1); ("b", 2)] [("b", 5); ("c", 3)] = [("a", 1); ("b", 5); ("c", 3)].
Proof. reflexivity. Qed.

Example loss_frame_example :
  Summary.loss_frame
    {| Summary.columns := [("noisy", "secondary"); ("quiet", "secondary"); ("noisy", "primary")];
       Summary.rows := [((4, 2)%Z, [50; 200; 7]%float); ((3, 3)%Z, [30; 40; 8]%float)] |}
  = OK [((4, 2)%Z, [("secondary", 75%float)]); ((3, 3)%Z, [("secondary", 25%float)])].
Proof. vm_compute. reflexivity. Qed.

Example sample_launchers_built dry :
  ElbenchoLauncher (Sample.init dry) = OK (Sample.elbencho dry) /\
  IorLauncher "srun" (Sample.init dry) = OK (Sample.ior dry) /\
  MdworkbenchLauncher "srun" (Sample.init dry) = OK (Sample.mdworkbench dry).
Proof. destruct dry; vm_compute; repeat split; reflexivity. Qed.

Example ior_dry_run :
  let '(r, w) := run 1 "write" "iops" None None [("foo", Py.VInt 1); ("bar", Py.VBool true)]
                   (Sample.adapters true) in
  r = OK None /\
  trace w = [EvLog INFO "Executing: srun --nodelist n1,n2 -N 2 -n 8 /opt/ior -D 45 -F -e -w -t 4k -z -Y --foo 1 --bar -o /scratch/out"].
Proof. vm_compute. split; reflexivity. Qed.

Example elbencho_results_routing :
  let '(r, w) := (f ← open_append "x.out"; set_stdout 0 f ;; run 0 "read" "bw" None None [])
                   (Sample.adapters false) in
  r = OK (Some 1) /\
  last (trace w) =
    Some (EvPopen 1 ["/opt/elbencho"; "--hosts"; "n1,n2"; "--timelimit"; "45"; "--randdata";
                     "--resfile"; "x.out.results"; "--csvfile"; "x.out.csv";
                     "--threads"; "4"; "--sync"; "--read"; "--size"; "1t"; "--block"; "1m";
                     "/scratch/out"] (SFile 0 "x.out") SNone).
Proof. vm_compute. split; reflexivity. Qed.

(** Two workers whose steps interleave: both run calls are issued before
    either returns, and the worker of the first descriptor reads the clock
    last.  The pairs come back in the order of the descriptors. *)
Example pool_interleaving_example :
  let '(r, w) := run_launchers sample_workloads 0
                   (Sample.scheduled Sample.turns (Sample.adapters false)) in
  r = OK [(2, 3); (0, 1)]%float /\
  scheduler_view (trace w)
  = [EvIssued Preflight 2; EvReturned Preflight 2 (Some 0); EvWait 0;
     EvIssued Preflight 1; EvReturned Preflight 1 None;
     EvIssued Run 1; EvIssued Run 2; EvReturned Run 2 (Some 1); EvReturned Run 1 (Some 2);
     EvTime 0; EvWait 2; EvTime 1; EvTime 2; EvWait 1; EvTime 3;
     EvIssued Teardown 2; EvReturned Teardown 2 (Some 3); EvWait 3;
     EvIssued Teardown 1; EvReturned Teardown 1 None].
Proof. vm_compute. split; reflexivity. Qed.

(** A task that fails does not stop the other tasks of the pool: the run
    call on launcher 2 is made after the one on launcher 1 has raised, and
    the exception comes out of the pool when every task has ended. *)
Example pool_failing_task_example :
  let '(r, w) := run_launchers [Sample.descriptor 1 "primary" "append" "bw";
                                Sample.descriptor 2 "secondary" "write" "iops"] 0
                   (Sample.adapters true) in
  r = Raise (KeyError "append") /\
  scheduler_view (trace w)
  = [EvIssued Preflight 1; EvReturned Preflight 1 None;
     EvIssued Preflight 2; EvReturned Preflight 2 None;
     EvIssued Run 1; EvIssued Run 2; EvReturned Run 2 None; EvTime 0; EvTime 1].
Proof. vm_compute. split; reflexivity. Qed.

(** A negative delay: the first worker sleeps [0] seconds and runs, the
    sleep of the second is refused. *)
Example negative_delay_example :
  let '(r, w) := run_launchers sample_workloads (-1) (Sample.adapters true) in
  r = Raise (ValueError "sleep length must be non-negative") /\
  List.filter (fun e => negb (is_sched e)) (trace w)
  = [EvLog INFO "Launching preflight";
     EvLog INFO "srun -N 2 -n 2 --nodelist n1,n2 /opt/md-workbench -1 -I 10";
     EvSleep 0;
     EvLog INFO "Executing: srun --nodelist n1,n2 -N 2 -n 8 /opt/md-workbench -w 45 -I 10 -2 -P 5 -o /scratch/out"].
Proof. vm_compute. split; reflexivity. Qed.

(** ** Stepping through computations *)

Lemma bind_eq {S A B} (m : M S A) (f : A -> M S B) (s : S) :
  (m ≫= f) s = match m s with
               | (OK a, s') => f a s'
               | (Raise e, s') => (Raise e, s')
               end.
Proof. reflexivity. Qed.

Lemma bind_inv {S A B} (m : M S A) (f : A -> M S B) (s s' : S) (r : Res B) :
  (m ≫= f) s = (r, s') ->
  (exists a s1, m s = (OK a, s1) /\ f a s1 = (r, s')) \/
  (exists e, m s = (Raise e, s') /\ r = Raise e).
Proof.
  rewrite bind_eq. destruct (m s) as [[a|e] s1]; intros H.
  - left. eauto.
  - right. inversion H; subst. eauto.
Qed.

(** ** C1: what the assembled command line depends on *)

Lemma _prep_cmdline_scratch mpirun_bin isfile access pattern c l :
  _prep_cmdline mpirun_bin isfile access pattern (with_cmdline c l)
  = _prep_cmdline mpirun_bin isfile access pattern l.
Proof. reflexivity. Qed.

Lemma scratch_only_ret {A} (a : A) : scratch_only (mret a).
Proof. intros l. exists (_cmdline l). by destruct l. Qed.

Lemma scratch_only_raise {A} e : scratch_only (raise (A := A) e).
Proof. intros l. exists (_cmdline l). by destruct l. Qed.

Lemma scratch_only_get : scratch_only get.
Proof. intros l. exists (_cmdline l). by destruct l. Qed.

Lemma scratch_only_with_cmdline c : scratch_only (modify (with_cmdline c)).
Proof. intros l. by exists c. Qed.

Lemma scratch_only_extend toks : scratch_only (extend toks).
Proof. intros l. by eexists. Qed.

Lemma scratch_only_bind {A B} (m : M Launcher A) (f : A -> M Launcher B) :
  scratch_only m -> (forall a, scratch_only (f a)) -> scratch_only (m ≫= f).
Proof.
  intros Hm Hf l. rewrite bind_eq. destruct (Hm l) as [c Hc].
  destruct (m l) as [[a|e] l1]; simpl in Hc; subst l1.
  - destruct (Hf a (with_cmdline c l)) as [c' Hc']. exists c'. by rewrite Hc'.
  - by exists c.
Qed.

Lemma scratch_only_for_each {A} (xs : list A) (body : A -> M Launcher unit) :
  (forall x, scratch_only (body x)) -> scratch_only (for_each xs body).
Proof.
  intros Hb. induction xs as [|x xs IH]; simpl.
  - apply scratch_only_ret.
  - apply scratch_only_bind; auto.
Qed.

Create HintDb scratch.
#[local] Hint Resolve scratch_only_ret scratch_only_raise scratch_only_get
  scratch_only_with_cmdline scratch_only_extend : scratch.

Ltac scratch :=
  repeat first
    [ apply scratch_only_bind; [| intros ?]
    | apply scratch_only_for_each; intros ?
    | solve [auto with scratch]
    | match goal with
      | |- scratch_only (match ?x with _ => _ end) => destruct x
      | |- scratch_only (if ?x then _ else _) => destruct x
      end ].

Lemma scratch_only__add_hosts mpirun_bin : scratch_only (_add_hosts mpirun_bin).
Proof. unfold _add_hosts. scratch. Qed.

Lemma scratch_only__add_timelimit : scratch_only _add_timelimit.
Proof. unfold _add_timelimit. scratch. Qed.

Lemma scratch_only__add_output_dir : scratch_only _add_output_dir.
Proof. unfold _add_output_dir. scratch. Qed.

Lemma scratch_only__add_random_data : scratch_only _add_random_data.
Proof. unfold _add_random_data. scratch. Qed.

Lemma scratch_only__add_results_file isfile : scratch_only (_add_results_file isfile).
Proof. unfold _add_results_file. scratch. Qed.

Lemma scratch_only_getitem d k : scratch_only (getitem d k).
Proof. unfold getitem. scratch. Qed.

#[local] Hint Resolve scratch_only__add_hosts scratch_only__add_timelimit
  scratch_only__add_output_dir scratch_only__add_random_data
  scratch_only__add_results_file scratch_only_getitem : scratch.

Lemma scratch_only__prep_cmdline mpirun_bin isfile access pattern :
  scratch_only (_prep_cmdline mpirun_bin isfile access pattern).
Proof.
  unfold _prep_cmdline.
  apply scratch_only_bind; [auto with scratch | intros _].
  apply scratch_only_bind.
  { intros l. simpl. destruct (_prepend_cmdline l); [exists (_cmdline l); by destruct l | by eexists]. }
  intros _. scratch.
Qed.

Lemma assemble_kwargs mpirun_bin isfile access pattern kwargs l :
  _kwargs (snd (assemble mpirun_bin isfile access pattern kwargs l))
  = Py.dict_update (_kwargs l) kwargs.
Proof.
  unfold assemble. rewrite bind_eq. simpl.
  destruct (scratch_only__prep_cmdline mpirun_bin isfile access pattern
              (with_kwargs (Py.dict_update (_kwargs l) kwargs) l)) as [c Hc].
  by rewrite Hc.
Qed.

(** C1, as the code has it.  The command line [run] assembles is a function
    of the launcher's fields other than the scratch buffer (the
    configuration, the current stdout, the extra arguments merged in so
    far), of [MPIRUN_BIN], of [os.path.isfile] and of the call's (access,
    pattern, extra) arguments: two launchers that agree on these are left in
    the same state, with the same token sequence and the same outcome,
    whatever a prior call left in the buffer.  The extra arguments of the
    call are merged into the launcher and stay there for later calls. *)
Theorem assemble_deterministic mpirun_bin isfile access pattern kwargs l1 l2 :
  settled l1 = settled l2 ->
  assemble mpirun_bin isfile access pattern kwargs l1
  = assemble mpirun_bin isfile access pattern kwargs l2
  /\ _kwargs (snd (assemble mpirun_bin isfile access pattern kwargs l1))
     = Py.dict_update (_kwargs l1) kwargs.
Proof.
  intros H. split; [| apply assemble_kwargs].
  unfold assemble. rewrite !bind_eq. simpl.
  rewrite <- (_prep_cmdline_scratch _ _ _ _ []
                (with_kwargs (Py.dict_update (_kwargs l1) kwargs) l1)).
  rewrite <- (_prep_cmdline_scratch _ _ _ _ []
                (with_kwargs (Py.dict_update (_kwargs l2) kwargs) l2)).
  change (with_cmdline [] (with_kwargs (Py.dict_update (_kwargs l1) kwargs) l1))
    with (with_kwargs (Py.dict_update (_kwargs (settled l1)) kwargs) (settled l1)).
  change (with_cmdline [] (with_kwargs (Py.dict_update (_kwargs l2) kwargs) l2))
    with (with_kwargs (Py.dict_update (_kwargs (settled l2)) kwargs) (settled l2)).
  by rewrite H.
Qed.

(** Two launchers that differ in what the last call left in the buffer. *)
Lemma assemble_deterministic_witness :
  assemble "srun" (fun _ => false) "write" "bw" [("foo", Py.VInt 1)] (Sample.ior true)
  = assemble "srun" (fun _ => false) "write" "bw" [("foo", Py.VInt 1)]
      (with_cmdline ["left"; "over"] (Sample.ior true))
  /\ _kwargs (snd (assemble "srun" (fun _ => false) "write" "bw" [("foo", Py.VInt 1)]
                     (Sample.ior true)))
     = Py.dict_update (_kwargs (Sample.ior true)) [("foo", Py.VInt 1)].
Proof.
  apply (assemble_deterministic "srun" (fun _ => false) "write" "bw" [("foo", Py.VInt 1)]
           (Sample.ior true) (with_cmdline ["left"; "over"] (Sample.ior true))).
  reflexivity.
Defined.

(** C1 as stated fails: the same launcher, with the configuration it was
    built with and the same call [run("write", "bw")], assembles a different
    token sequence after a call that passed [foo=1]. *)
Lemma assembly_retains_kwargs :
  let fresh := Sample.adapters true in
  let used := snd (run 1 "write" "bw" None None [("foo", Py.VInt 1)] fresh) in
  Sample.cmdline_at 1 (snd (run 1 "write" "bw" None None [] fresh))
  = Some ["srun"; "--nodelist"; "n1,n2"; "-N"; "2"; "-n"; "8"; "/opt/ior"; "-D"; "45";
          "-F"; "-e"; "-w"; "-t"; "1m"; "-b"; "1g"; "-o"; "/scratch/out"]
  /\ Sample.cmdline_at 1 (snd (run 1 "write" "bw" None None [] used))
  = Some ["srun"; "--nodelist"; "n1,n2"; "-N"; "2"; "-n"; "8"; "/opt/ior"; "-D"; "45";
          "-F"; "-e"; "-w"; "-t"; "1m"; "-b"; "1g"; "--foo"; "1"; "-o"; "/scratch/out"].
Proof. vm_compute. split; reflexivity. Qed.

(** ** C3: an unknown access mode or pattern *)

Lemma succeeds__add_timelimit c0 l : succeeds _add_timelimit c0 l.
Proof.
  unfold succeeds, _add_timelimit. rewrite bind_eq. simpl.
  destruct (decide (_timelimit l = 0%Z)); by eexists.
Qed.

Lemma succeeds__add_random_data c0 l : succeeds _add_random_data c0 l.
Proof.
  unfold succeeds, _add_random_data. rewrite bind_eq. simpl.
  destruct (_random_data l); by eexists.
Qed.

Lemma succeeds__add_results_file isfile c0 l : succeeds (_add_results_file isfile) c0 l.
Proof.
  unfold succeeds, _add_results_file. rewrite bind_eq. simpl.
  destruct (cls l), (_stdout l); try by eexists.
  destruct (isfile name); by eexists.
Qed.

Lemma succeeds__add_hosts mpirun_bin c0 l :
  cls l = Elbencho \/ (exists rest, c0 = mpirun_bin :: rest) ->
  succeeds (_add_hosts mpirun_bin) c0 l.
Proof.
  intros H. unfold succeeds, _add_hosts. rewrite bind_eq. simpl.
  destruct (_hosts l) as [h|]; [| by eexists].
  destruct H as [-> | [rest ->]]; [by eexists |].
  destruct (cls l); try by eexists.
  all: rewrite decide_True by done; by eexists.
Qed.

Ltac step H :=
  let c := fresh "c" in
  let E := fresh "E" in
  destruct H as [c E]; [.. | rewrite bind_eq, E; clear E].

Lemma _prep_cmdline_from mpirun_bin isfile access pattern c0 l :
  cls l = Elbencho \/ (exists rest, c0 = mpirun_bin :: rest) ->
  exists c,
    (l0 ← get;
     extend [_binary l0] ;;
     _add_hosts mpirun_bin ;;
     _add_timelimit ;;
     _add_random_data ;;
     _add_results_file isfile ;;
     extend (_common_args l0) ;;
     prep_tail l0 access pattern) (with_cmdline c0 l)
    = prep_tail l access pattern (with_cmdline c l).
Proof.
  intros Hc0.
  rewrite bind_eq. simpl. rewrite bind_eq. simpl.
  change (with_cmdline (c0 ++ [_binary l]) (with_cmdline c0 l))
    with (with_cmdline (c0 ++ [_binary l]) l).
  step (succeeds__add_hosts mpirun_bin (c0 ++ [_binary l]) l).
  { destruct Hc0 as [? | [rest ->]]; eauto. }
  step (succeeds__add_timelimit c l).
  step (succeeds__add_random_data c1 l).
  step (succeeds__add_results_file isfile c2 l).
  rewrite bind_eq. simpl. eexists. reflexivity.
Qed.

Lemma _prep_cmdline_prefix mpirun_bin isfile access pattern l :
  launcher_ok mpirun_bin l ->
  exists c,
    _prep_cmdline mpirun_bin isfile access pattern l
    = prep_tail l access pattern (with_cmdline c l).
Proof.
  intros Hok. unfold _prep_cmdline.
  rewrite bind_eq. simpl. rewrite bind_eq. simpl.
  destruct Hok as [He | [rest Hp]].
  - destruct (_prepend_cmdline l) as [|p ps].
    + apply (_prep_cmdline_from mpirun_bin isfile access pattern [] l). auto.
    + apply (_prep_cmdline_from mpirun_bin isfile access pattern (p :: ps) l). auto.
  - rewrite Hp.
    apply (_prep_cmdline_from mpirun_bin isfile access pattern (mpirun_bin :: rest) l). eauto.
Qed.

Lemma _prep_cmdline_unknown_access mpirun_bin isfile access pattern l :
  launcher_ok mpirun_bin l ->
  _access_args l !! access = None ->
  exists c, _prep_cmdline mpirun_bin isfile access pattern l
            = (Raise (KeyError access), with_cmdline c l).
Proof.
  intros Hok Ha. destruct (_prep_cmdline_prefix mpirun_bin isfile access pattern l Hok) as [c ->].
  exists c. unfold prep_tail, getitem. rewrite Ha. reflexivity.
Qed.

Lemma _prep_cmdline_unknown_pattern mpirun_bin isfile access pattern l :
  launcher_ok mpirun_bin l ->
  is_Some (_access_args l !! access) ->
  _pattern_args l !! pattern = None ->
  exists c, _prep_cmdline mpirun_bin isfile access pattern l
            = (Raise (KeyError pattern), with_cmdline c l).
Proof.
  intros Hok [a Ha] Hp.
  destruct (_prep_cmdline_prefix mpirun_bin isfile access pattern l Hok) as [c ->].
  unfold prep_tail, getitem. rewrite Ha, Hp. eexists. reflexivity.
Qed.

Lemma constructed_launcher_ok mpirun_bin a l :
  ElbenchoLauncher a = OK l \/ IorLauncher mpirun_bin a = OK l
  \/ MdworkbenchLauncher mpirun_bin a = OK l ->
  launcher_ok mpirun_bin l.
Proof.
  unfold ElbenchoLauncher, IorLauncher, MdworkbenchLauncher, mpirun_prefix, _init_args.
  intros [H | [H | H]]; destruct (config a !! _) as [t|]; try discriminate; simpl in H.
  - case_decide; [| discriminate]. inversion H; subst. by left.
  - destruct (len_hosts (hosts a)); [| discriminate]. inversion H; subst. right. by eexists.
  - destruct (len_hosts (hosts a)); [| discriminate]. inversion H; subst. right. by eexists.
Qed.

Lemma with_self_eq {A} self (body : string -> (string -> bool) -> M Launcher A) w l :
  heap w !! self = Some l ->
  with_self self body w
  = ((body (MPIRUN_BIN w) (isfile w) l).1,
     with_heap (<[self := (body (MPIRUN_BIN w) (isfile w) l).2]> (heap w)) w).
Proof. intros H. unfold with_self. rewrite H. by destruct (body _ _ l). Qed.

(** C3.  For a launcher of any of the three adapters, [run] with an access
    mode that is not a key of the access table, or with a pattern that is
    not a key of the pattern table, raises [KeyError] on that key, and it
    does so before anything is logged or launched: the trace is what it
    was and no process identity has been used. *)
Theorem run_unknown_key self access pattern stdout stderr kwargs w l :
  heap w !! self = Some l ->
  launcher_ok (MPIRUN_BIN w) l ->
  _access_args l !! access = None \/ _pattern_args l !! pattern = None ->
  exists k w',
    run self access pattern stdout stderr kwargs w = (Raise (KeyError k), w')
    /\ k = (if decide (_access_args l !! access = None) then access else pattern)
    /\ trace w' = trace w
    /\ next_id w' = next_id w.
Proof.
  intros Hl Hok Hkey.
  set (l1 := with_kwargs (Py.dict_update (_kwargs l) kwargs) l).
  assert (Hok1 : launcher_ok (MPIRUN_BIN w) l1) by exact Hok.
  assert (exists c, assemble (MPIRUN_BIN w) (isfile w) access pattern kwargs l
                    = (Raise (KeyError (if decide (_access_args l !! access = None)
                                        then access else pattern)),
                       with_cmdline c l1)) as [c Hc].
  { unfold assemble. rewrite bind_eq. simpl. fold l1. case_decide as Ha.
    - apply _prep_cmdline_unknown_access; auto.
    - apply _prep_cmdline_unknown_pattern; auto.
      + destruct (_access_args l !! access) eqn:E; [by eexists | done].
      + by destruct Hkey. }
  unfold run. rewrite bind_eq, (with_self_eq _ _ _ _ Hl), Hc. simpl.
  eexists _, _. split; [reflexivity |]. auto.
Qed.

(** The three sample launchers with a mode, and a pattern, their tables lack. *)
Lemma run_unknown_key_witness :
  (exists k w', run 0 "append" "bw" None None [] (Sample.adapters false)
                = (Raise (KeyError k), w')
                /\ k = "append" /\ trace w' = [] /\ next_id w' = 0)
  /\ (exists k w', run 1 "read" "latency" None None [] (Sample.adapters false)
                   = (Raise (KeyError k), w')
                   /\ k = "latency" /\ trace w' = [] /\ next_id w' = 0)
  /\ (exists k w', run 2 "read" "iops" None None [] (Sample.adapters false)
                   = (Raise (KeyError k), w')
                   /\ k = "read" /\ trace w' = [] /\ next_id w' = 0).
Proof.
  split; [| split].
  - apply (run_unknown_key 0 "append" "bw" None None [] (Sample.adapters false)
             (Sample.elbencho false) eq_refl (or_introl eq_refl) (or_introl eq_refl)).
  - apply (run_unknown_key 1 "read" "latency" None None [] (Sample.adapters false)
             (Sample.ior false) eq_refl
             (or_intror (ex_intro _ _ eq_refl)) (or_intror eq_refl)).
  - apply (run_unknown_key 2 "read" "iops" None None [] (Sample.adapters false)
             (Sample.mdworkbench false) eq_refl
             (or_intror (ex_intro _ _ eq_refl)) (or_introl eq_refl)).
Defined.

(** ** C6: preflight and teardown of the adapters without a service *)

Lemma deref_eq self w l : heap w !! self = Some l -> deref self w = (OK l, w).
Proof. intros H. unfold deref. by rewrite H. Qed.

(** C6, as the code has it.  For the IOR adapter, the one adapter that
    inherits [preflight] and [teardown] from the base class, both are
    no-ops: they return no handle and leave the world, the launcher
    included, exactly as it was, so nothing is launched or logged. *)
Theorem ior_preflight_teardown_noop self w l :
  heap w !! self = Some l ->
  cls l = Ior ->
  preflight self w = (OK None, w)
  /\ forall access pattern kwargs, teardown self access pattern kwargs w = (OK None, w).
Proof.
  intros Hl Hc. split; [| intros access pattern kwargs].
  - unfold preflight. rewrite bind_eq, (deref_eq _ _ _ Hl), Hc. reflexivity.
  - unfold teardown. rewrite bind_eq, (deref_eq _ _ _ Hl), Hc. reflexivity.
Qed.

Lemma ior_preflight_teardown_noop_witness :
  preflight 1 (Sample.adapters false) = (OK None, Sample.adapters false)
  /\ forall access pattern kwargs,
       teardown 1 access pattern kwargs (Sample.adapters false)
       = (OK None, Sample.adapters false).
Proof.
  apply (ior_preflight_teardown_noop 1 (Sample.adapters false) (Sample.ior false));
    reflexivity.
Defined.

(** C6 as stated fails on the md-workbench adapter.  It is started through
    the job launcher and keeps no service, yet outside a dry run its
    preflight launches a process and returns its handle, and so does its
    teardown. *)
Lemma mdworkbench_preflight_teardown_launch :
  cls (Sample.mdworkbench false) = Mdworkbench
  /\ (preflight 2 (Sample.adapters false)).1 = OK (Some 0)
  /\ trace (preflight 2 (Sample.adapters false)).2
     = [EvLog INFO "Launching preflight";
        EvLog INFO "srun -N 2 -n 2 --nodelist n1,n2 /opt/md-workbench -1 -I 10";
        EvPopen 0 ["srun"; "-N"; "2"; "-n"; "2"; "--nodelist"; "n1,n2";
                   "/opt/md-workbench"; "-1"; "-I"; "10"] SPipe SPipe]
  /\ (teardown 2 "write" "iops" [] (Sample.adapters false)).1 = OK (Some 0)
  /\ trace (teardown 2 "write" "iops" [] (Sample.adapters false)).2
     = [EvLog INFO "Launching teardown - file cleanup";
        EvLog INFO "srun -N 2 -n 2 --nodelist n1,n2 /opt/md-workbench -3 -I 10";
        EvPopen 0 ["srun"; "-N"; "2"; "-n"; "2"; "--nodelist"; "n1,n2";
                   "/opt/md-workbench"; "-3"; "-I"; "10"] SPipe SPipe;
        EvSleep 5].
Proof. vm_compute. repeat split; reflexivity. Qed.

(** ** C8: the isolation selector *)

(** C8, as the code has it.  A selector whose first character, once
    lower-cased, is none of [b], [p], [s] is refused with the [ValueError]
    that lists the legal values, before anything else is done. *)
Theorem run_interference_bad_selector primary secondary delay isolate c rest w :
  Py.lower isolate = String c rest ->
  c <> "b"%char -> c <> "p"%char -> c <> "s"%char ->
  run_interference primary secondary delay isolate w
  = (Raise (ValueError "isolate must be one of: primary secondary both"), w).
Proof.
  intros Hlow Hb Hp Hs. unfold run_interference. rewrite Hlow.
  rewrite !decide_False by done. reflexivity.
Qed.

Lemma run_interference_bad_selector_witness :
  run_interference (Sample.descriptor 1 "primary" "write" "bw")
    (Sample.descriptor 2 "secondary" "write" "iops") 15 "Neither" (Sample.adapters true)
  = (Raise (ValueError "isolate must be one of: primary secondary both"),
     Sample.adapters true).
Proof.
  apply (run_interference_bad_selector _ _ 15 "Neither" "n"%char "either");
    [reflexivity | discriminate ..].
Defined.

(** C8 as stated fails: ["sideways"] is none of [primary], [secondary],
    [both], and the driver takes it for [secondary] and runs to the end. *)
Lemma run_interference_accepts_prefix :
  ("sideways" ∉ ["primary"; "secondary"; "both"])
  /\ (run_interference (Sample.descriptor 1 "primary" "write" "bw")
        (Sample.descriptor 2 "secondary" "write" "iops") 15 "sideways"
        (Sample.adapters true)).1 = OK tt
  /\ trace (run_interference (Sample.descriptor 1 "primary" "write" "bw")
              (Sample.descriptor 2 "secondary" "write" "iops") 15 "sideways"
              (Sample.adapters true)).2
     = trace (run_interference (Sample.descriptor 1 "primary" "write" "bw")
                (Sample.descriptor 2 "secondary" "write" "iops") 15 "secondary"
                (Sample.adapters true)).2.
Proof.
  split; [| split].
  - rewrite !elem_of_cons, elem_of_nil. intros [H | [H | [H | []]]]; discriminate H.
  - vm_compute. reflexivity.
  - vm_compute. reflexivity.
Qed.

(** ** C9: more than two workloads for the symmetric driver *)

Lemma init_labels_ok wl w :
  has_hosts w wl ->
  exists wl' w', init_labels wl w = (OK wl', w') /\ only_clock_read w w'.
Proof.
  intros (l & h & Hl & Hh). unfold init_labels, get_hosts.
  rewrite bind_eq. simpl. rewrite bind_eq. simpl. rewrite !bind_eq.
  rewrite (deref_eq (launcher wl) (with_ticks (S (ticks w)) w) l Hl). simpl.
  rewrite bind_eq. unfold lift. rewrite Hh. simpl.
  eexists _, _. split; [reflexivity |]. by repeat split.
Qed.

Lemma init_labels_all workloads w :
  Forall (has_hosts w) workloads ->
  exists ws' w',
    for_each_update workloads init_labels w = (OK ws', w')
    /\ length ws' = length workloads /\ only_clock_read w w'.
Proof.
  revert w. induction workloads as [|wl ws IH]; intros w Hall.
  - exists [], w. by repeat split.
  - inversion Hall as [|? ? Hwl Hws]; subst.
    destruct (init_labels_ok wl w Hwl) as (wl' & w1 & E1 & Hh & Ht & Hf & Hn).
    destruct (IH w1) as (ws' & w2 & E2 & Hlen & Hh2 & Ht2 & Hf2 & Hn2).
    { eapply Forall_impl; [exact Hws |]. intros x (l & h & ? & ?).
      exists l, h. by rewrite Hh. }
    simpl. rewrite bind_eq, E1, bind_eq, E2. simpl.
    eexists _, _. split; [reflexivity |]. simpl. split; [by rewrite Hlen |].
    repeat split; congruence.
Qed.

(** C9.  Given more than two workloads, each with a launcher that has a
    host list, the symmetric driver raises [NotImplementedError]; nothing
    has been logged, opened or launched by then, so no workload was run. *)
Theorem run_symmetric_interference_three workloads w :
  2 < length workloads ->
  Forall (has_hosts w) workloads ->
  exists w',
    run_symmetric_interference workloads w
    = (Raise (NotImplementedError "more than two workloads provided"), w')
    /\ only_clock_read w w'.
Proof.
  intros Hlen Hall.
  destruct (init_labels_all workloads w Hall) as (ws' & w' & E & Hl & Hframe).
  exists w'. split; [| exact Hframe].
  unfold run_symmetric_interference. rewrite bind_eq, E.
  rewrite decide_True by lia. reflexivity.
Qed.

Lemma run_symmetric_interference_three_witness :
  exists w',
    run_symmetric_interference
      [Sample.descriptor 0 "primary" "write" "bw";
       Sample.descriptor 1 "secondary" "write" "iops";
       Sample.descriptor 2 "tertiary" "write" "iops"] (Sample.adapters true)
    = (Raise (NotImplementedError "more than two workloads provided"), w')
    /\ only_clock_read (Sample.adapters true) w'.
Proof.
  apply run_symmetric_interference_three.
  - simpl. lia.
  - repeat constructor.
    + exists (Sample.elbencho true), ["n1"; "n2"]. split; reflexivity.
    + exists (Sample.ior true), ["n1"; "n2"]. split; reflexivity.
    + exists (Sample.mdworkbench true), ["n1"; "n2"]. split; reflexivity.
Defined.

(** ** C4 and C5: the loss pivot *)

Module SummaryFacts.
Import Summary.

Lemma row_loc_OK cols cells c :
  is_Some (position c cols) <-> exists v, row_loc cols cells c = OK v.
Proof.
  unfold row_loc. destruct (position c cols); split.
  - by eexists.
  - by eexists.
  - by intros [? ?].
  - by intros [? ?].
Qed.

(** [KeyError] is a matter of the columns, not of the cells. *)
Lemma loss_of_OK cols cells workload_id :
  both_columns cols workload_id <-> exists v, loss_of cols cells workload_id = OK v.
Proof.
  unfold both_columns, loss_of, row_loc.
  destruct (position ("quiet", workload_id) cols), (position ("noisy", workload_id) cols);
    split; intros H.
  all: try (destruct H as [v H]; discriminate H).
  all: try (destruct H as [[? H1] [? H2]]; discriminate).
  - by eexists.
  - split; by eexists.
Qed.

Lemma row_loss_keys cols cells cells' ids :
  row_loss cols cells ids = [] -> row_loss cols cells' ids = [].
Proof.
  induction ids as [|i ids IH]; simpl; [done |].
  destruct (loss_of cols cells i) eqn:E; [done |]. intros H.
  destruct (loss_of cols cells' i) eqn:E'; [| auto].
  assert (exists v, loss_of cols cells i = OK v) as [v Hv].
  { apply loss_of_OK. apply (loss_of_OK cols cells'). by eexists. }
  congruence.
Qed.

Lemma lookup_row_loss cols cells workload_id :
  workload_id = "primary" \/ workload_id = "secondary" ->
  lookup_key workload_id (row_loss cols cells ["primary"; "secondary"])
  = match loss_of cols cells workload_id with
    | OK v => Some v
    | Raise _ => None
    end.
Proof.
  intros [-> | ->]; simpl;
    destruct (loss_of cols cells "primary"), (loss_of cols cells "secondary"); reflexivity.
Qed.

Lemma filter_all_empty {A} (f : A -> Py.dict float) (l : list A) :
  (forall x, x ∈ l -> f x = []) -> filter (fun loss => loss ≠ []) (f <$> l) = [].
Proof.
  induction l as [|x l IH]; intros H; simpl; [done |].
  rewrite filter_cons_False; [| rewrite H; [tauto | left]].
  apply IH. intros y Hy. apply H. by right.
Qed.

Lemma filter_none_empty {A} (f : A -> Py.dict float) (l : list A) :
  (forall x, x ∈ l -> f x ≠ []) -> filter (fun loss => loss ≠ []) (f <$> l) = f <$> l.
Proof.
  induction l as [|x l IH]; intros H; simpl; [done |].
  rewrite filter_cons_True; [| apply H; left].
  f_equal. apply IH. intros y Hy. apply H. by right.
Qed.

Lemma loss_at_empty_records (idx : list pair) p workload_id :
  loss_at ((fun i => (i, [])) <$> idx) p workload_id = None.
Proof. induction idx as [|i idx IH]; simpl; [done |]. by case_decide. Qed.

Lemma loss_at_zip (f : pair * list float -> Py.dict float) rs p cells workload_id :
  NoDup (fst <$> rs) ->
  (p, cells) ∈ rs ->
  loss_at (zip (fst <$> rs) (f <$> rs)) p workload_id = lookup_key workload_id (f (p, cells)).
Proof.
  induction rs as [|[p' c'] rs IH]; intros Hnd Hin; [by apply elem_of_nil in Hin |].
  simpl in *. apply NoDup_cons in Hnd as [Hnot Hnd]. apply elem_of_cons in Hin.
  case_decide as Hp.
  - subst p'. destruct Hin as [Heq | Hin]; [by inversion Heq |].
    exfalso. apply Hnot. apply list_elem_of_fmap. by exists (p, cells).
  - destruct Hin as [Heq | Hin]; [inversion Heq; congruence | auto].
Qed.

(** The loss pivot never fails to build, and its entry at a row of the
    performance pivot is that row's loss. *)
Lemma loss_frame_at performance p cells workload_id :
  NoDup (index performance) ->
  (p, cells) ∈ rows performance ->
  workload_id = "primary" \/ workload_id = "secondary" ->
  exists loss,
    loss_frame performance = OK loss
    /\ loss_at loss p workload_id
       = match loss_of (columns performance) cells workload_id with
         | OK v => Some v
         | Raise _ => None
         end.
Proof.
  intros Hnd Hin Hw. unfold loss_frame, index in *.
  set (f := fun row : pair * list float =>
              row_loss (columns performance) row.2 ["primary"; "secondary"]).
  destruct (decide (f (p, cells) = [])) as [Hempty | Hfull].
  - rewrite filter_all_empty.
    2:{ intros [p' c'] _. apply (row_loss_keys _ cells). exact Hempty. }
    simpl. eexists. split; [reflexivity |].
    rewrite loss_at_empty_records.
    rewrite <- (lookup_row_loss _ _ _ Hw).
    change (row_loss (columns performance) cells ["primary"; "secondary"])
      with (f (p, cells)).
    by rewrite Hempty.
  - rewrite filter_none_empty.
    2:{ intros [p' c'] _ H. apply Hfull. apply (row_loss_keys _ c'). exact H. }
    unfold from_records.
    destruct (f <$> rows performance) eqn:E.
    { destruct (rows performance); [by apply elem_of_nil in Hin | discriminate E]. }
    rewrite <- E. rewrite decide_True by (by rewrite !length_fmap).
    eexists. split; [reflexivity |].
    rewrite (loss_at_zip f _ p cells _ Hnd Hin). apply lookup_row_loss, Hw.
Qed.

Lemma loss_of_value cols cells workload_id quiet noisy :
  row_loc cols cells ("quiet", workload_id) = OK quiet ->
  row_loc cols cells ("noisy", workload_id) = OK noisy ->
  loss_of cols cells workload_id = OK ((quiet - noisy) * (100 / quiet))%float.
Proof. intros Hq Hn. unfold loss_of. by rewrite Hq, Hn. Qed.

Lemma loss_of_absent cols cells workload_id :
  ~ both_columns cols workload_id ->
  exists e, loss_of cols cells workload_id = Raise e.
Proof.
  intros H. destruct (loss_of cols cells workload_id) eqn:E; [| by eexists].
  exfalso. apply H. apply (loss_of_OK cols cells). by eexists.
Qed.

End SummaryFacts.

(** C4, as the code has it.  Where the performance pivot has quiet = 100
    and noisy = 80 for the primary at a node-count pair, the loss entry of
    the primary at that pair is 20.0. *)
Theorem loss_of_quiet_100_noisy_80 performance p cells :
  NoDup (Summary.index performance) ->
  (p, cells) ∈ Summary.rows performance ->
  Summary.row_loc (Summary.columns performance) cells ("quiet", "primary") = OK 100%float ->
  Summary.row_loc (Summary.columns performance) cells ("noisy", "primary") = OK 80%float ->
  exists loss,
    Summary.loss_frame performance = OK loss
    /\ Summary.loss_at loss p "primary" = Some 20%float.
Proof.
  intros Hnd Hin Hq Hn.
  destruct (SummaryFacts.loss_frame_at performance p cells "primary" Hnd Hin)
    as (loss & Hloss & Hat); [by left |].
  exists loss. split; [exact Hloss |].
  by rewrite Hat, (SummaryFacts.loss_of_value _ _ _ _ _ Hq Hn).
Qed.

Lemma sample_index_NoDup : NoDup (Summary.index sample_performance).
Proof.
  unfold Summary.index. simpl. apply NoDup_cons. split.
  - rewrite elem_of_cons, elem_of_nil. intros [H | []]. discriminate H.
  - apply NoDup_cons. split; [apply not_elem_of_nil | apply NoDup_nil_2].
Qed.

Lemma loss_of_quiet_100_noisy_80_witness :
  exists loss,
    Summary.loss_frame sample_performance = OK loss
    /\ Summary.loss_at loss (4, 2)%Z "primary" = Some 20%float.
Proof.
  apply (loss_of_quiet_100_noisy_80 sample_performance (4, 2)%Z [80; 100]%float).
  - exact sample_index_NoDup.
  - simpl. left.
  - reflexivity.
  - reflexivity.
Defined.

(** C4 as stated fails: with quiet = 100 and noisy = 80 the entry is 20.0,
    which is not 25.0. *)
Lemma loss_is_not_25 :
  exists loss,
    Summary.loss_frame sample_performance = OK loss
    /\ Summary.loss_at loss (4, 2)%Z "primary" = Some 20%float
    /\ Summary.loss_at loss (4, 2)%Z "primary" <> Some 25%float.
Proof.
  eexists. split; [vm_compute; reflexivity |]. split; [vm_compute; reflexivity |].
  intros H.
  apply (f_equal (fun o => match o with
                           | Some v => PrimFloat.eqb v 25
                           | None => false
                           end)) in H.
  vm_compute in H. discriminate H.
Qed.

(** C5, as the code has it.  At every row of the performance pivot and for
    each of the two workloads, the loss pivot has an entry exactly when the
    pivot has both the quiet and the noisy column of that workload, and the
    entry is (quiet - noisy) * (100 / quiet) on the row's two cells, NaN
    cells included; when a column is missing the entry is absent. *)
Theorem loss_entry performance p cells workload_id :
  NoDup (Summary.index performance) ->
  (p, cells) ∈ Summary.rows performance ->
  workload_id = "primary" \/ workload_id = "secondary" ->
  exists loss,
    Summary.loss_frame performance = OK loss
    /\ (Summary.both_columns (Summary.columns performance) workload_id ->
        exists quiet noisy,
          Summary.row_loc (Summary.columns performance) cells ("quiet", workload_id)
          = OK quiet
          /\ Summary.row_loc (Summary.columns performance) cells ("noisy", workload_id)
             = OK noisy
          /\ Summary.loss_at loss p workload_id
             = Some ((quiet - noisy) * (100 / quiet))%float)
    /\ (~ Summary.both_columns (Summary.columns performance) workload_id ->
        Summary.loss_at loss p workload_id = None).
Proof.
  intros Hnd Hin Hw.
  destruct (SummaryFacts.loss_frame_at performance p cells workload_id Hnd Hin Hw)
    as (loss & Hloss & Hat).
  exists loss. split; [exact Hloss |]. split.
  - intros [Hq Hn].
    apply (SummaryFacts.row_loc_OK _ cells) in Hq as [quiet Hq].
    apply (SummaryFacts.row_loc_OK _ cells) in Hn as [noisy Hn].
    exists quiet, noisy. split; [exact Hq |]. split; [exact Hn |].
    by rewrite Hat, (SummaryFacts.loss_of_value _ _ _ _ _ Hq Hn).
  - intros Hno.
    destruct (SummaryFacts.loss_of_absent _ cells _ Hno) as [e He].
    by rewrite Hat, He.
Qed.

Lemma loss_entry_witness :
  exists loss,
    Summary.loss_frame sample_performance = OK loss
    /\ (Summary.both_columns (Summary.columns sample_performance) "primary" ->
        exists quiet noisy,
          Summary.row_loc (Summary.columns sample_performance) [80; 100]%float
            ("quiet", "primary") = OK quiet
          /\ Summary.row_loc (Summary.columns sample_performance) [80; 100]%float
               ("noisy", "primary") = OK noisy
          /\ Summary.loss_at loss (4, 2)%Z "primary"
             = Some ((quiet - noisy) * (100 / quiet))%float)
    /\ (~ Summary.both_columns (Summary.columns sample_performance) "primary" ->
        Summary.loss_at loss (4, 2)%Z "primary" = None).
Proof.
  apply (loss_entry sample_performance (4, 2)%Z [80; 100]%float "primary").
  - exact sample_index_NoDup.
  - simpl. left.
  - by left.
Defined.

(** C5 as stated fails.  At (3, 3) the pivot has a noisy value for the
    primary and no quiet one, and the loss pivot nevertheless has an entry
    for the primary there: NaN, the missing value carried through. *)
Lemma loss_entry_nan_propagates :
  Summary.has_value sample_performance (3, 3)%Z ("noisy", "primary") = true
  /\ Summary.has_value sample_performance (3, 3)%Z ("quiet", "primary") = false
  /\ exists loss,
       Summary.loss_frame sample_performance = OK loss
       /\ Summary.loss_at loss (3, 3)%Z "primary" = Some nan
       /\ Summary.loss_at loss (3, 3)%Z "primary" <> None.
Proof.
  split; [vm_compute; reflexivity |]. split; [vm_compute; reflexivity |].
  eexists. split; [vm_compute; reflexivity |]. split; [vm_compute; reflexivity |].
  vm_compute. discriminate.
Qed.

(** ** Evaluating the launcher methods *)

Lemma after_start w : w = after w (heap w) [] (next_id w).
Proof. destruct w. unfold after. simpl. by rewrite app_nil_r. Qed.

Lemma emit_after e w h evs n :
  emit e (after w h evs n) = (OK tt, after w h (evs ++ [e]) n).
Proof. unfold emit, modify, after, with_trace. simpl. by rewrite app_assoc. Qed.

Lemma popen_after c o e w h evs n :
  subprocess_Popen c o e (after w h evs n)
  = (OK n, after w h (evs ++ [EvPopen n c o e]) (S n)).
Proof. unfold subprocess_Popen, after, with_trace, with_next_id. simpl. by rewrite app_assoc. Qed.

Lemma deref_after self w h evs n l :
  h !! self = Some l -> deref self (after w h evs n) = (OK l, after w h evs n).
Proof. intros H. unfold deref. simpl. by rewrite H. Qed.

Lemma with_self_after {A} self (body : string -> (string -> bool) -> M Launcher A) w h evs n l :
  h !! self = Some l ->
  with_self self body (after w h evs n)
  = ((body (MPIRUN_BIN w) (isfile w) l).1,
     after w (<[self := (body (MPIRUN_BIN w) (isfile w) l).2]> h) evs n).
Proof.
  intros H. unfold with_self. simpl. rewrite H.
  change (isfile (after w h evs n)) with (isfile w).
  by destruct (body _ _ l).
Qed.

Lemma update_after self f w h evs n l :
  h !! self = Some l ->
  update self f (after w h evs n) = (OK tt, after w (<[self := f l]> h) evs n).
Proof. intros H. unfold update. by rewrite (with_self_after _ _ _ _ _ _ _ H). Qed.

Lemma lookup_insert_self {A} (h : list A) i x y :
  h !! i = Some x -> <[i := y]> h !! i = Some y.
Proof. intros H. apply list_lookup_insert_eq. by eapply lookup_lt_Some. Qed.

Lemma assemble_frame mpirun_bin isfile access pattern kwargs l :
  exists c, (assemble mpirun_bin isfile access pattern kwargs l).2
            = with_cmdline c (with_kwargs (Py.dict_update (_kwargs l) kwargs) l).
Proof.
  unfold assemble. rewrite bind_eq. simpl.
  apply (scratch_only__prep_cmdline mpirun_bin isfile access pattern).
Qed.

Lemma run_after self access pattern out err kwargs w h evs n l :
  h !! self = Some l ->
  run self access pattern out err kwargs (after w h evs n)
  = run_outcome self l (assemble (MPIRUN_BIN w) (isfile w) access pattern kwargs l)
      out err w h evs n.
Proof.
  intros Hl. unfold run, run_outcome.
  rewrite bind_eq, (with_self_after _ _ _ _ _ _ _ Hl).
  destruct (assemble_frame (MPIRUN_BIN w) (isfile w) access pattern kwargs l) as [c Hc].
  destruct (assemble _ _ _ _ _ l) as [[[]|e] l']; simpl in Hc; subst l'; cbn [fst snd];
    [| done].
  rewrite bind_eq, (deref_after _ _ _ _ _ _ (lookup_insert_self _ _ _ _ Hl)).
  rewrite bind_eq. unfold logger_info. rewrite emit_after.
  unfold run_events.
  change (_test (with_cmdline c (with_kwargs (Py.dict_update (_kwargs l) kwargs) l)))
    with (_test l).
  destruct (_test l) eqn:Ht; [done |].
  unfold describe_pipe, logger_debug.
  rewrite bind_eq, emit_after, bind_eq, emit_after, bind_eq, popen_after.
  rewrite bind_eq, (update_after _ _ _ _ _ _ _ (lookup_insert_self _ _ _ _ Hl)).
  rewrite list_insert_insert_eq. unfold mret, M_ret. rewrite <- !app_assoc. reflexivity.
Qed.

Lemma lift_after {A} (r : Res A) w h evs n :
  lift r (after w h evs n) = (r, after w h evs n).
Proof. reflexivity. Qed.

Lemma sleep_after s w h evs n :
  (0 <= s)%Z ->
  time_sleep s (after w h evs n) = (OK tt, after w h (evs ++ [EvSleep s]) n).
Proof. intros Hs. unfold time_sleep. rewrite decide_False by lia. apply emit_after. Qed.

Lemma wait_after p w h evs n :
  proc_wait p (after w h evs n) = (OK tt, after w h (evs ++ [EvWait p]) n).
Proof. apply emit_after. Qed.

Lemma preflight_after self w h evs n l :
  h !! self = Some l ->
  preflight self (after w h evs n)
  = match cls l with
    | Ior => (OK None, after w h evs n)
    | Elbencho =>
        service_outcome self l "Launching preflight" ["--service"; "--foreground"]
          true false w h evs n
    | Mdworkbench =>
        service_outcome self l "Launching preflight" ("-1" :: _common_args l)
          false true w h evs n
    end.
Proof.
  intros Hl. unfold preflight. rewrite bind_eq, (deref_after _ _ _ _ _ l Hl).
  unfold service_outcome, service_events.
  destruct (cls l); [| done |].
  - unfold logger_info. rewrite bind_eq, emit_after, bind_eq. simpl.
    rewrite bind_eq, lift_after.
    destruct (service_cmdline _ l _) as [c|e]; [| done].
    rewrite bind_eq, (update_after _ _ _ _ _ _ l Hl), bind_eq, emit_after.
    destruct (_test l); [by rewrite <- app_assoc |].
    rewrite bind_eq, popen_after.
    rewrite bind_eq, (update_after _ _ _ _ _ _ (with_cmdline c l))
      by (by eapply lookup_insert_self).
    rewrite bind_eq, sleep_after, list_insert_insert_eq by lia.
    unfold mret, M_ret. by rewrite <- !app_assoc.
  - unfold logger_info. rewrite bind_eq, emit_after, bind_eq. simpl.
    rewrite bind_eq, lift_after.
    destruct (service_cmdline _ l _) as [c|e]; [| done].
    rewrite bind_eq, (update_after _ _ _ _ _ _ l Hl), bind_eq, emit_after.
    destruct (_test l); [by rewrite <- app_assoc |].
    rewrite bind_eq, popen_after.
    rewrite bind_eq, (update_after _ _ _ _ _ _ (with_cmdline c l))
      by (by eapply lookup_insert_self).
    rewrite list_insert_insert_eq.
    unfold mret, M_ret. by rewrite <- !app_assoc.
Qed.

Lemma get_stdout_after self w h evs n l :
  h !! self = Some l -> get_stdout self (after w h evs n) = (OK (_stdout l), after w h evs n).
Proof. intros H. unfold get_stdout. by rewrite bind_eq, (deref_after _ _ _ _ _ l H). Qed.

Lemma get_stderr_after self w h evs n l :
  h !! self = Some l -> get_stderr self (after w h evs n) = (OK (_stderr l), after w h evs n).
Proof. intros H. unfold get_stderr. by rewrite bind_eq, (deref_after _ _ _ _ _ l H). Qed.

Lemma _add_hosts_elbencho mpirun_bin c0 l :
  cls l = Elbencho ->
  _add_hosts mpirun_bin (with_cmdline c0 l)
  = (OK tt, with_cmdline (c0 ++ hosts_tokens l) l).
Proof.
  intros Hc. unfold _add_hosts, hosts_tokens. rewrite bind_eq. simpl. rewrite Hc.
  destruct (_hosts l); simpl; [done |]. by rewrite app_nil_r.
Qed.

Lemma hosts_tokens_frame c k s l :
  hosts_tokens (with_cmdline c l) = hosts_tokens l
  /\ hosts_tokens (with_kwargs k l) = hosts_tokens l
  /\ hosts_tokens (with_stdout s l) = hosts_tokens l
  /\ hosts_tokens (with_stderr s l) = hosts_tokens l.
Proof. by repeat split. Qed.

Ltac hosts_frame :=
  repeat first
    [ rewrite (proj1 (hosts_tokens_frame _ [] SNone _))
    | rewrite (proj1 (proj2 (hosts_tokens_frame [] _ SNone _)))
    | rewrite (proj1 (proj2 (proj2 (hosts_tokens_frame [] [] _ _))))
    | rewrite (proj2 (proj2 (proj2 (hosts_tokens_frame [] [] _ _)))) ].

Ltac launcher_cbn :=
  cbn [_cmdline _stdout _stderr with_cmdline with_stderr with_stdout with_kwargs
       default app fst snd].

Lemma teardown_after self access pattern kwargs w h evs n l :
  h !! self = Some l ->
  teardown self access pattern kwargs (after w h evs n)
  = match cls l with
    | Ior => (OK None, after w h evs n)
    | Elbencho =>
        elbencho_teardown_outcome self l
          (assemble (MPIRUN_BIN w) (isfile w) "clean" pattern kwargs
             (with_stderr SNone (with_stdout SNone l))) w h evs n
    | Mdworkbench =>
        service_outcome self l "Launching teardown - file cleanup"
          ("-3" :: _common_args l) true true w h evs n
    end.
Proof.
  intros Hl. unfold teardown. rewrite bind_eq, (deref_after _ _ _ _ _ l Hl).
  destruct (cls l) eqn:Hcls; [| done |].
  - unfold elbencho_teardown_outcome, logger_info, set_stdout, set_stderr.
    rewrite bind_eq, emit_after.
    rewrite bind_eq, (get_stdout_after _ _ _ _ _ l Hl).
    rewrite bind_eq, (get_stderr_after _ _ _ _ _ l Hl).
    rewrite bind_eq, (update_after _ _ _ _ _ _ l Hl).
    rewrite bind_eq, (update_after _ _ _ _ _ _ _ (lookup_insert_self _ _ _ _ Hl)).
    rewrite list_insert_insert_eq.
    rewrite bind_eq, (run_after _ _ _ _ _ _ _ _ _ _ _ (lookup_insert_self _ _ _ _ Hl)).
    unfold run_outcome.
    destruct (assemble_frame (MPIRUN_BIN w) (isfile w) "clean" pattern kwargs
                (with_stderr SNone (with_stdout SNone l))) as [c Hc].
    destruct (assemble _ _ _ _ _ _) as [[[]|e] l1]; simpl in Hc; subst l1; cbn [fst snd];
      [| by rewrite list_insert_insert_eq].
    change (_test (with_stderr SNone (with_stdout SNone l))) with (_test l).
    destruct (_test l) eqn:Ht.
    + rewrite list_insert_insert_eq.
      rewrite bind_eq, (update_after _ _ _ _ _ _ _ (lookup_insert_self _ _ _ _ Hl)).
      rewrite list_insert_insert_eq.
      rewrite bind_eq, (update_after _ _ _ _ _ _ _ (lookup_insert_self _ _ _ _ Hl)).
      rewrite list_insert_insert_eq.
      rewrite bind_eq. unfold wait_if. unfold mret at 1, M_ret at 1.
      rewrite bind_eq, emit_after.
      rewrite bind_eq, (update_after _ _ _ _ _ _ _ (lookup_insert_self _ _ _ _ Hl)).
      rewrite list_insert_insert_eq.
      rewrite bind_eq, (with_self_after _ _ _ _ _ _ _ (lookup_insert_self _ _ _ _ Hl)).
      rewrite list_insert_insert_eq.
      rewrite _add_hosts_elbencho by exact Hcls. cbn [fst snd].
      rewrite bind_eq, (deref_after _ _ _ _ _ _ (lookup_insert_self _ _ _ _ Hl)).
      rewrite bind_eq, emit_after.
      unfold mret, M_ret. rewrite <- !app_assoc. hosts_frame. launcher_cbn. reflexivity.
    + rewrite list_insert_insert_eq.
      rewrite bind_eq, (update_after _ _ _ _ _ _ _ (lookup_insert_self _ _ _ _ Hl)).
      rewrite list_insert_insert_eq.
      rewrite bind_eq, (update_after _ _ _ _ _ _ _ (lookup_insert_self _ _ _ _ Hl)).
      rewrite list_insert_insert_eq.
      rewrite bind_eq. unfold wait_if. rewrite wait_after.
      rewrite bind_eq, emit_after.
      rewrite bind_eq, (update_after _ _ _ _ _ _ _ (lookup_insert_self _ _ _ _ Hl)).
      rewrite list_insert_insert_eq.
      rewrite bind_eq, (with_self_after _ _ _ _ _ _ _ (lookup_insert_self _ _ _ _ Hl)).
      rewrite list_insert_insert_eq.
      rewrite _add_hosts_elbencho by exact Hcls. cbn [fst snd].
      rewrite bind_eq, (deref_after _ _ _ _ _ _ (lookup_insert_self _ _ _ _ Hl)).
      rewrite bind_eq, emit_after.
      rewrite bind_eq, popen_after.
      rewrite bind_eq, (update_after _ _ _ _ _ _ _ (lookup_insert_self _ _ _ _ Hl)).
      rewrite list_insert_insert_eq.
      rewrite bind_eq, sleep_after by lia.
      unfold mret, M_ret. rewrite <- !app_assoc. hosts_frame. launcher_cbn. reflexivity.
  - unfold service_outcome, service_events, logger_info.
    rewrite bind_eq, emit_after, bind_eq. unfold get at 1.
    rewrite bind_eq, lift_after.
    change (MPIRUN_BIN (after w h (evs ++ [EvLog INFO "Launching teardown - file cleanup"]) n))
      with (MPIRUN_BIN w).
    destruct (service_cmdline _ l _) as [c|e]; [| done].
    rewrite bind_eq, (update_after _ _ _ _ _ _ l Hl), bind_eq, emit_after.
    destruct (_test l); [by rewrite <- app_assoc |].
    rewrite bind_eq, popen_after.
    rewrite bind_eq, (update_after _ _ _ _ _ _ _ (lookup_insert_self _ _ _ _ Hl)).
    rewrite bind_eq, sleep_after, list_insert_insert_eq by lia.
    unfold mret, M_ret. by rewrite <- !app_assoc.
Qed.

(** ** C7: dry runs *)

Lemma run_at self access pattern out err kwargs w l :
  heap w !! self = Some l ->
  run self access pattern out err kwargs w
  = run_outcome self l (assemble (MPIRUN_BIN w) (isfile w) access pattern kwargs l)
      out err w (heap w) [] (next_id w).
Proof.
  intros Hl. etrans; [| by apply run_after].
  f_equal. apply after_start.
Qed.

Lemma run_steps_after self access pattern out err kwargs w h evs n l :
  h !! self = Some l ->
  finish (run_steps self access pattern out err kwargs) (after w h evs n)
  = run_outcome self l (assemble (MPIRUN_BIN w) (isfile w) access pattern kwargs l)
      out err w h evs n.
Proof.
  intros Hl. unfold run_steps, run_outcome. cbn [finish].
  rewrite bind_eq, (update_after _ _ _ _ _ _ _ Hl).
  rewrite bind_eq, (with_self_after _ _ _ _ _ _ _ (lookup_insert_self _ _ _ _ Hl)).
  rewrite list_insert_insert_eq.
  assert (Ha : assemble (MPIRUN_BIN w) (isfile w) access pattern kwargs l
               = _prep_cmdline (MPIRUN_BIN w) (isfile w) access pattern
                   (with_kwargs (Py.dict_update (_kwargs l) kwargs) l)).
  { unfold assemble. by rewrite bind_eq. }
  rewrite Ha.
  destruct (scratch_only__prep_cmdline (MPIRUN_BIN w) (isfile w) access pattern
              (with_kwargs (Py.dict_update (_kwargs l) kwargs) l)) as [c Hc].
  destruct (_prep_cmdline _ _ _ _ _) as [[[]|e] l']; cbn [fst snd] in Hc |- *; subst l';
    [| done].
  assert (Hl' : forall evs', deref self (after w (<[self := with_cmdline c
                  (with_kwargs (Py.dict_update (_kwargs l) kwargs) l)]> h) evs' n)
                = (OK (with_cmdline c (with_kwargs (Py.dict_update (_kwargs l) kwargs) l)),
                   after w (<[self := with_cmdline c
                      (with_kwargs (Py.dict_update (_kwargs l) kwargs) l)]> h) evs' n)).
  { intros evs'. apply deref_after. by eapply lookup_insert_self. }
  rewrite !bind_eq, Hl'. unfold logger_info. rewrite emit_after.
  rewrite bind_eq, Hl'. unfold run_events.
  change (_test (with_cmdline c (with_kwargs (Py.dict_update (_kwargs l) kwargs) l)))
    with (_test l).
  destruct (_test l) eqn:Ht; [done |]. cbn [finish].
  rewrite bind_eq, Hl'. unfold describe_pipe, logger_debug.
  rewrite bind_eq, emit_after, bind_eq, emit_after.
  rewrite !bind_eq, Hl', popen_after.
  rewrite bind_eq, (update_after _ _ _ _ _ _ _ (lookup_insert_self _ _ _ _ Hl)).
  rewrite list_insert_insert_eq. unfold lift. cbn [_cmdline with_cmdline].
  rewrite <- !app_assoc. reflexivity.
Qed.

(** [run_steps] is [run]: a thread that is not interrupted does what a call
    of [run] does. *)
Lemma run_steps_run self access pattern out err kwargs w :
  finish (run_steps self access pattern out err kwargs) w
  = run self access pattern out err kwargs w.
Proof.
  destruct (heap w !! self) as [l|] eqn:Hl.
  - rewrite (run_at _ _ _ _ _ _ _ _ Hl). rewrite (after_start w) at 1.
    by apply run_steps_after.
  - unfold run, run_steps, update, with_self. cbn [finish]. by rewrite !bind_eq, Hl.
Qed.

Lemma preflight_at self w l :
  heap w !! self = Some l ->
  preflight self w
  = match cls l with
    | Ior => (OK None, w)
    | Elbencho =>
        service_outcome self l "Launching preflight" ["--service"; "--foreground"]
          true false w (heap w) [] (next_id w)
    | Mdworkbench =>
        service_outcome self l "Launching preflight" ("-1" :: _common_args l)
          false true w (heap w) [] (next_id w)
    end.
Proof.
  intros Hl. etrans; [exact (f_equal (preflight self) (after_start w)) |].
  rewrite (preflight_after _ _ _ _ _ _ Hl). destruct (cls l); try done.
  by rewrite <- after_start.
Qed.

Lemma teardown_at self access pattern kwargs w l :
  heap w !! self = Some l ->
  teardown self access pattern kwargs w
  = match cls l with
    | Ior => (OK None, w)
    | Elbencho =>
        elbencho_teardown_outcome self l
          (assemble (MPIRUN_BIN w) (isfile w) "clean" pattern kwargs
             (with_stderr SNone (with_stdout SNone l))) w (heap w) [] (next_id w)
    | Mdworkbench =>
        service_outcome self l "Launching teardown - file cleanup"
          ("-3" :: _common_args l) true true w (heap w) [] (next_id w)
    end.
Proof.
  intros Hl. etrans; [exact (f_equal (teardown self access pattern kwargs) (after_start w)) |].
  rewrite (teardown_after _ _ _ _ _ _ _ _ _ Hl). destruct (cls l); try done.
  by rewrite <- after_start.
Qed.

Lemma info_log_intro msg : info_log (EvLog INFO msg).
Proof. by exists msg. Qed.

#[local] Hint Resolve info_log_intro : core.

Ltac logged :=
  unfold only_logged;
  split; [first [reflexivity | simpl; by rewrite app_nil_r]
         | split; [by repeat constructor | reflexivity]].

Lemma service_outcome_dry self l banner tail settle handle w r w' :
  heap w !! self = Some l ->
  _test l = true ->
  service_outcome self l banner tail settle handle w (heap w) [] (next_id w) = (r, w') ->
  no_handle r
  /\ exists evs, only_logged w w' evs /\ (r = OK None -> cmdline_logged self EmptyString w' evs).
Proof.
  intros Hl Ht. unfold service_outcome, service_events. rewrite Ht.
  destruct (service_cmdline _ l tail) as [c|e]; intros H; inversion H; subst; clear H.
  - split; [by left |]. eexists. split; [logged |].
    intros _. exists (with_cmdline c l). split.
    + simpl. by eapply lookup_insert_self.
    + simpl. rewrite !elem_of_cons. by right; left.
  - split; [right; by eexists |]. eexists.
    split; [logged | done].
Qed.

Lemma preflight_dry self w l r w' :
  heap w !! self = Some l ->
  _test l = true ->
  preflight self w = (r, w') ->
  no_handle r
  /\ exists evs, only_logged w w' evs
                 /\ (r = OK None -> cls l <> Ior -> cmdline_logged self EmptyString w' evs).
Proof.
  intros Hl Ht. rewrite (preflight_at _ _ _ Hl). destruct (cls l) eqn:Hc.
  - intros H. destruct (service_outcome_dry _ _ _ _ _ _ _ _ _ Hl Ht H) as (? & evs & ? & ?).
    split; [done |]. exists evs. auto.
  - intros H. inversion H; subst. split; [by left |]. exists [].
    split; [| done]. logged.
  - intros H. destruct (service_outcome_dry _ _ _ _ _ _ _ _ _ Hl Ht H) as (? & evs & ? & ?).
    split; [done |]. exists evs. auto.
Qed.

Lemma run_dry self access pattern out err kwargs w l r w' :
  heap w !! self = Some l ->
  _test l = true ->
  run self access pattern out err kwargs w = (r, w') ->
  no_handle r
  /\ exists evs, only_logged w w' evs
                 /\ (r = OK None ->
                     (assemble (MPIRUN_BIN w) (isfile w) access pattern kwargs l).1 = OK tt
                     /\ heap w' !! self
                        = Some (assemble (MPIRUN_BIN w) (isfile w) access pattern kwargs l).2
                     /\ cmdline_logged self "Executing: " w' evs).
Proof.
  intros Hl Ht. rewrite (run_at _ _ _ _ _ _ _ _ Hl). unfold run_outcome, run_events.
  rewrite Ht. destruct (assemble _ _ _ _ _ l) as [[[]|e] l']; cbn [fst snd];
    intros H; inversion H; subst; clear H.
  - split; [by left |]. eexists. split; [logged |].
    intros _.
    assert (Hl' : heap (after w (<[self:=l']> (heap w))
                          [EvLog INFO ("Executing: " ++ Py.join " " (_cmdline l'))]
                          (next_id w)) !! self = Some l').
    { simpl. by eapply lookup_insert_self. }
    split; [done |]. split; [exact Hl' |].
    exists l'. split; [exact Hl' |]. simpl. by left.
  - split; [right; by eexists |]. exists [].
    split; [logged | done].
Qed.

Lemma teardown_dry self access pattern kwargs w l r w' :
  heap w !! self = Some l ->
  _test l = true ->
  teardown self access pattern kwargs w = (r, w') ->
  no_handle r
  /\ exists evs, only_logged w w' evs
                 /\ (r = OK None -> cls l <> Ior -> cmdline_logged self EmptyString w' evs).
Proof.
  intros Hl Ht. rewrite (teardown_at _ _ _ _ _ _ Hl). destruct (cls l) eqn:Hc.
  - unfold elbencho_teardown_outcome, run_events. rewrite Ht.
    destruct (assemble _ _ _ _ _ _) as [[[]|e] l']; cbn [fst snd];
      intros H; inversion H; subst; clear H.
    + split; [by left |]. eexists.
      split; [logged |].
      intros _ _. eexists. split.
      * simpl. by eapply lookup_insert_self.
      * simpl. rewrite !elem_of_cons. right; right; right; by left.
    + split; [right; by eexists |]. eexists.
      split; [logged | done].
  - intros H. inversion H; subst. split; [by left |]. exists [].
    split; [| done]. logged.
  - intros H. destruct (service_outcome_dry _ _ _ _ _ _ _ _ _ Hl Ht H) as (? & evs & ? & ?).
    split; [done |]. exists evs. auto.
Qed.

(** C7.  On a launcher in dry-run mode, [preflight], [run] and [teardown]
    return no process handle, write nothing to the trace but INFO lines of
    the log and use no process identity, so no subprocess is launched, for
    each of the three adapters.  When the call returns, the command line it
    assembled is the one the launcher holds and it is in the log: after
    ["Executing: "] for [run], where it is what the assembly built, and on
    a line of its own for the preflight and the teardown of the two
    adapters that have one. *)
Theorem dry_run_launches_nothing self w l :
  heap w !! self = Some l ->
  _test l = true ->
  (forall r w',
     preflight self w = (r, w') ->
     no_handle r
     /\ exists evs, only_logged w w' evs
                    /\ (r = OK None -> cls l <> Ior -> cmdline_logged self EmptyString w' evs))
  /\ (forall access pattern out err kwargs r w',
        run self access pattern out err kwargs w = (r, w') ->
        no_handle r
        /\ exists evs,
             only_logged w w' evs
             /\ (r = OK None ->
                 (assemble (MPIRUN_BIN w) (isfile w) access pattern kwargs l).1 = OK tt
                 /\ heap w' !! self
                    = Some (assemble (MPIRUN_BIN w) (isfile w) access pattern kwargs l).2
                 /\ cmdline_logged self "Executing: " w' evs))
  /\ (forall access pattern kwargs r w',
        teardown self access pattern kwargs w = (r, w') ->
        no_handle r
        /\ exists evs, only_logged w w' evs
                       /\ (r = OK None -> cls l <> Ior -> cmdline_logged self EmptyString w' evs)).
Proof.
  intros Hl Ht. split; [| split].
  - intros r w'. by apply preflight_dry.
  - intros access pattern out err kwargs r w'. by apply run_dry.
  - intros access pattern kwargs r w'. by apply teardown_dry.
Qed.

Lemma dry_run_launches_nothing_witness :
  no_handle (preflight 0 (Sample.adapters true)).1
  /\ no_handle (run 0 "write" "bw" None None [] (Sample.adapters true)).1
  /\ no_handle (teardown 0 "write" "bw" [] (Sample.adapters true)).1
  /\ exists evs,
       only_logged (Sample.adapters true)
         (teardown 0 "write" "bw" [] (Sample.adapters true)).2 evs.
Proof.
  destruct (dry_run_launches_nothing 0 (Sample.adapters true) (Sample.elbencho true)
              eq_refl eq_refl) as (Hp & Hr & Ht).
  split; [| split; [| split]].
  - exact (proj1 (Hp _ _ (surjective_pairing _))).
  - exact (proj1 (Hr "write" "bw" None None [] _ _ (surjective_pairing _))).
  - exact (proj1 (Ht "write" "bw" [] _ _ (surjective_pairing _))).
  - destruct (Ht "write" "bw" [] _ _ (surjective_pairing _)) as (_ & evs & Hl & _).
    by exists evs.
Defined.

(** ** C10: teardown and the launcher's streams *)

(** C10.  When [teardown] returns, [get_stdout] and [get_stderr] give the
    streams they gave before the call, for every launcher; for the
    persistent-service adapter this is so although the cleanup is assembled
    and run with both streams of the launcher set to [None].  Every process
    [teardown] starts has its stdout and stderr on pipes, not on the
    launcher's streams. *)
Theorem teardown_keeps_streams self access pattern kwargs w l r w' :
  heap w !! self = Some l ->
  teardown self access pattern kwargs w = (OK r, w') ->
  get_stdout self w = (OK (_stdout l), w)
  /\ get_stderr self w = (OK (_stderr l), w)
  /\ get_stdout self w' = (OK (_stdout l), w')
  /\ get_stderr self w' = (OK (_stderr l), w')
  /\ exists evs, trace w' = (trace w ++ evs)%list /\ Forall piped evs.
Proof.
  intros Hl H.
  assert (Hget : forall w0 l0, heap w0 !! self = Some l0 ->
            get_stdout self w0 = (OK (_stdout l0), w0)
            /\ get_stderr self w0 = (OK (_stderr l0), w0)).
  { intros w0 l0 H0. unfold get_stdout, get_stderr.
    by rewrite !bind_eq, (deref_eq _ _ _ H0). }
  destruct (Hget w l Hl) as [Hout Herr].
  split; [exact Hout |]. split; [exact Herr |].
  rewrite (teardown_at _ _ _ _ _ _ Hl) in H. destruct (cls l) eqn:Hc.
  - destruct (assemble _ _ _ _ _ _) as [[[]|e] l1];
      unfold elbencho_teardown_outcome, run_events in H; cbn [fst snd] in H;
      [| discriminate H].
    destruct (_test l); injection H as <- <-.
    + split; [by rewrite (get_stdout_after _ _ _ _ _ _ (lookup_insert_self _ _ _ _ Hl)) |].
      split; [by rewrite (get_stderr_after _ _ _ _ _ _ (lookup_insert_self _ _ _ _ Hl)) |].
      eexists. split; [reflexivity |]. by repeat constructor.
    + split; [by rewrite (get_stdout_after _ _ _ _ _ _ (lookup_insert_self _ _ _ _ Hl)) |].
      split; [by rewrite (get_stderr_after _ _ _ _ _ _ (lookup_insert_self _ _ _ _ Hl)) |].
      eexists. split; [reflexivity |]. by repeat constructor.
  - injection H as <- <-. split; [exact Hout |]. split; [exact Herr |].
    exists []. split; [by rewrite app_nil_r | constructor].
  - unfold service_outcome in H.
    destruct (service_cmdline _ l _) as [c|e]; [| discriminate H].
    unfold service_events in H.
    destruct (_test l); injection H as <- <-.
    + split; [by rewrite (get_stdout_after _ _ _ _ _ _ (lookup_insert_self _ _ _ _ Hl)) |].
      split; [by rewrite (get_stderr_after _ _ _ _ _ _ (lookup_insert_self _ _ _ _ Hl)) |].
      eexists. split; [reflexivity |]. by repeat constructor.
    + split; [by rewrite (get_stdout_after _ _ _ _ _ _ (lookup_insert_self _ _ _ _ Hl)) |].
      split; [by rewrite (get_stderr_after _ _ _ _ _ _ (lookup_insert_self _ _ _ _ Hl)) |].
      eexists. split; [reflexivity |]. by repeat constructor.
Qed.

Lemma teardown_keeps_streams_witness :
  let w' := (teardown 0 "write" "bw" [] routed).2 in
  get_stdout 0 routed = (OK (SFile 0 "primary_quiet.2p-1s.123.out"), routed)
  /\ get_stderr 0 routed = (OK (SFile 0 "primary_quiet.2p-1s.123.out"), routed)
  /\ get_stdout 0 w' = (OK (SFile 0 "primary_quiet.2p-1s.123.out"), w')
  /\ get_stderr 0 w' = (OK (SFile 0 "primary_quiet.2p-1s.123.out"), w')
  /\ exists evs, trace w' = (trace routed ++ evs)%list /\ Forall piped evs.
Proof.
  apply (teardown_keeps_streams 0 "write" "bw" [] routed
           (with_stderr (SFile 0 "primary_quiet.2p-1s.123.out")
              (with_stdout (SFile 0 "primary_quiet.2p-1s.123.out") (Sample.elbencho false)))
           (Some 2)).
  - vm_compute. reflexivity.
  - vm_compute. reflexivity.
Defined.

(** ** C2: the phases of the scheduler *)

Local Open Scope list_scope.

Lemma steps_refl w : steps w w [].
Proof. repeat split. by rewrite app_nil_r. Qed.

Lemma steps_trans w w1 w2 e1 e2 :
  steps w w1 e1 -> steps w1 w2 e2 -> steps w w2 (e1 ++ e2).
Proof.
  intros (Ht1 & Hk1 & Hc1 & Hs1) (Ht2 & Hk2 & Hc2 & Hs2).
  repeat split; try congruence. by rewrite Ht2, Ht1, app_assoc.
Qed.

Lemma steps_after w h evs n : steps w (after w h evs n) evs.
Proof. by repeat split. Qed.

Lemma steps_emit e w : steps w (emit e w).2 [e].
Proof. by repeat split. Qed.

Lemma scheduler_view_app e1 e2 :
  scheduler_view (e1 ++ e2) = (scheduler_view e1 ++ scheduler_view e2)%list.
Proof. apply List.filter_app. Qed.

Lemma scheduler_view_internal evs :
  Forall internal evs -> exists ps, scheduler_view evs = EvWait <$> ps.
Proof.
  induction 1 as [|e evs He _ [ps IH]]; [by exists [] |].
  unfold scheduler_view in *. simpl. rewrite IH.
  destruct e; try (by exists ps); try done. by exists (pid :: ps).
Qed.

(** *** The launcher methods write no scheduler mark *)

Ltac internal_after :=
  eexists; split; [apply steps_after | by repeat constructor].

Lemma service_outcome_internal self l banner tail settle handle w :
  exists evs,
    steps w (service_outcome self l banner tail settle handle w (heap w) [] (next_id w)).2 evs
    /\ Forall internal evs.
Proof.
  unfold service_outcome. destruct (service_cmdline _ l tail); [| internal_after].
  unfold service_events. destruct (_test l); [internal_after |].
  destruct settle; internal_after.
Qed.

Lemma preflight_internal self w :
  exists evs, steps w (preflight self w).2 evs /\ Forall internal evs.
Proof.
  destruct (heap w !! self) as [l|] eqn:Hl.
  - rewrite (preflight_at _ _ _ Hl). destruct (cls l).
    + apply service_outcome_internal.
    + exists []. split; [apply steps_refl | constructor].
    + apply service_outcome_internal.
  - unfold preflight, deref. rewrite bind_eq, Hl.
    exists []. split; [apply steps_refl | constructor].
Qed.

Lemma run_internal self access pattern out err kwargs w :
  exists evs,
    steps w (run self access pattern out err kwargs w).2 evs /\ Forall internal evs.
Proof.
  destruct (heap w !! self) as [l|] eqn:Hl.
  - rewrite (run_at _ _ _ _ _ _ _ _ Hl).
    destruct (assemble _ _ _ _ _ _) as [[[]|e] l1]; unfold run_outcome, run_events;
      cbn [fst snd]; [| internal_after].
    destruct (_test l); internal_after.
  - unfold run, with_self. rewrite bind_eq, Hl.
    exists []. split; [apply steps_refl | constructor].
Qed.

Lemma teardown_internal self access pattern kwargs w :
  exists evs,
    steps w (teardown self access pattern kwargs w).2 evs /\ Forall internal evs.
Proof.
  destruct (heap w !! self) as [l|] eqn:Hl.
  - rewrite (teardown_at _ _ _ _ _ _ Hl). destruct (cls l).
    + destruct (assemble _ _ _ _ _ _) as [[[]|e] l1];
        unfold elbencho_teardown_outcome, run_events; cbn [fst snd]; [| internal_after].
      destruct (_test l); internal_after.
    + exists []. split; [apply steps_refl | constructor].
    + apply service_outcome_internal.
  - unfold teardown, deref. rewrite bind_eq, Hl.
    exists []. split; [apply steps_refl | constructor].
Qed.

(** *** One call, and a serial loop of calls *)

Lemma scheduler_view_block m ref evs h :
  Forall internal evs ->
  exists detail,
    scheduler_view (EvIssued m ref :: evs ++ EvReturned m ref h :: wait_events h)
    = block m ref detail.
Proof.
  intros Hint. destruct (scheduler_view_internal evs Hint) as [ps Hps].
  exists (ps, h). unfold block. cbn [fst snd].
  change (EvIssued m ref :: evs ++ EvReturned m ref h :: wait_events h)%list
    with ([EvIssued m ref] ++ evs ++ [EvReturned m ref h] ++ wait_events h)%list.
  rewrite !scheduler_view_app, Hps. simpl. by destruct h.
Qed.

Lemma call_view (m : method) (ref : nat) (call : M World (option nat)) w w' :
  (forall w0, exists evs, steps w0 (call w0).2 evs /\ Forall internal evs) ->
  (emit (EvIssued m ref) ;;
   prep_p ← call;
   emit (EvReturned m ref prep_p) ;;
   wait_if prep_p) w = (OK tt, w') ->
  exists evs detail, steps w w' evs /\ scheduler_view evs = block m ref detail.
Proof.
  intros Hcall H. rewrite bind_eq in H.
  change (emit (EvIssued m ref) w) with (OK tt, (emit (EvIssued m ref) w).2) in H.
  cbv beta iota in H. rewrite bind_eq in H.
  destruct (Hcall (emit (EvIssued m ref) w).2) as (evs & Hsteps & Hint).
  destruct (call _) as [[h|e] w2]; [| discriminate H]. cbn [snd] in Hsteps.
  rewrite bind_eq in H.
  change (emit (EvReturned m ref h) w2) with (OK tt, (emit (EvReturned m ref h) w2).2) in H.
  cbv beta iota in H.
  destruct (scheduler_view_block m ref evs h Hint) as [detail Hview].
  exists (EvIssued m ref :: evs ++ EvReturned m ref h :: wait_events h)%list, detail.
  split; [| exact Hview].
  assert (Hw : steps w (emit (EvReturned m ref h) w2).2
                 ([EvIssued m ref] ++ evs ++ [EvReturned m ref h])).
  { eapply steps_trans; [apply steps_emit |].
    eapply steps_trans; [exact Hsteps | apply steps_emit]. }
  destruct h as [p|]; simpl in H; injection H as <-.
  - replace (EvIssued m ref :: evs ++ EvReturned m ref (Some p) :: wait_events (Some p))%list
      with (([EvIssued m ref] ++ evs ++ [EvReturned m ref (Some p)]) ++ [EvWait p])%list
      by (simpl; by rewrite <- app_assoc).
    eapply steps_trans; [exact Hw | apply steps_emit].
  - exact Hw.
Qed.

Lemma loop_view (m : method) (ref : Workload -> nat)
    (call : Workload -> M World (option nat)) ws w w' :
  (forall wl w0, exists evs, steps w0 (call wl w0).2 evs /\ Forall internal evs) ->
  for_each ws (fun wl =>
    emit (EvIssued m (ref wl)) ;;
    prep_p ← call wl;
    emit (EvReturned m (ref wl) prep_p) ;;
    wait_if prep_p) w = (OK tt, w') ->
  exists evs details,
    steps w w' evs /\ length details = length ws
    /\ scheduler_view evs = blocks m (ref <$> ws) details.
Proof.
  intros Hcall. revert w. induction ws as [|wl ws IH]; intros w H.
  - injection H as <-. exists [], []. split; [apply steps_refl | done].
  - simpl in H. apply bind_inv in H as [([] & w1 & H1 & H2) | (e & _ & He)];
      [| discriminate He].
    destruct (call_view m (ref wl) (call wl) w w1 (Hcall wl) H1) as (e1 & d & Hs1 & Hv1).
    destruct (IH w1 H2) as (e2 & ds & Hs2 & Hlen & Hv2).
    exists (e1 ++ e2)%list, (d :: ds). split; [by eapply steps_trans |].
    split; [simpl; by rewrite Hlen |].
    rewrite scheduler_view_app, Hv1, Hv2. reflexivity.
Qed.

(** *** Interleavings *)

Lemma interleaved_only {A} (ls : list (list A)) i e :
  Forall (fun l => l = []) ls -> i < length ls -> interleaved (<[i := e]> ls) e.
Proof.
  intros Hall Hi. induction e as [|x e IH].
  - apply interleaved_nil. by apply Forall_insert.
  - apply (interleaved_cons _ i x e); [by apply list_lookup_insert_eq |].
    by rewrite list_insert_insert_eq.
Qed.

Lemma interleaved_snoc {A} (ls : list (list A)) evs i l e :
  interleaved ls evs -> ls !! i = Some l ->
  interleaved (<[i := l ++ e]> ls) (evs ++ e).
Proof.
  intros H. revert i l. induction H as [ls Hall | ls j x l0 evs Hj _ IH]; intros i l Hi.
  - assert (l = []) as ->.
    { eapply (proj1 (Forall_forall _ _) Hall). by eapply list_elem_of_lookup_2. }
    simpl. apply interleaved_only; [done | by eapply lookup_lt_Some].
  - simpl. destruct (decide (i = j)) as [-> | Hne].
    + rewrite Hj in Hi. injection Hi as <-.
      apply (interleaved_cons _ j x (l0 ++ e)).
      * apply list_lookup_insert_eq. by eapply lookup_lt_Some.
      * rewrite list_insert_insert_eq.
        rewrite <- (list_insert_insert_eq ls j (l0 ++ e) l0). apply IH.
        apply list_lookup_insert_eq. by eapply lookup_lt_Some.
    + apply (interleaved_cons _ j x l0).
      * by rewrite list_lookup_insert_ne.
      * rewrite list_insert_insert_ne by done. apply IH.
        by rewrite list_lookup_insert_ne.
Qed.

Lemma interleaved_Forall {A} (P : A -> Prop) (ls : list (list A)) evs :
  interleaved ls evs -> Forall (Forall P) ls -> Forall P evs.
Proof.
  induction 1 as [ls Hall | ls j x l0 evs Hj _ IH]; intros HP; [constructor |].
  assert (Hx : Forall P (x :: l0)).
  { eapply (proj1 (Forall_forall _ _) HP). by eapply list_elem_of_lookup_2. }
  apply Forall_cons in Hx as [Hx Hl0]. constructor; [exact Hx |].
  apply IH. by apply Forall_insert.
Qed.

Lemma interleaved_filter {A} (P : A -> bool) (ls : list (list A)) evs :
  interleaved ls evs -> interleaved (List.filter P <$> ls) (List.filter P evs).
Proof.
  induction 1 as [ls Hall | ls j x l0 evs Hj _ IH].
  - apply interleaved_nil. apply Forall_fmap. eapply Forall_impl; [exact Hall |].
    by intros l ->.
  - rewrite list_fmap_insert in IH. simpl. destruct (P x) eqn:Hx.
    + apply (interleaved_cons _ j x (List.filter P l0)); [| exact IH].
      rewrite list_lookup_fmap, Hj. simpl. by rewrite Hx.
    + rewrite list_insert_id in IH; [exact IH |].
      rewrite list_lookup_fmap, Hj. simpl. by rewrite Hx.
Qed.

Lemma sum_list_insert (ns : list nat) i n k :
  ns !! i = Some (S n) -> <[i := n]> ns = k -> sum_list ns = S (sum_list k).
Proof.
  intros Hi <-. revert i Hi. induction ns as [|m ns IH]; intros [|i] Hi; try done.
  - injection Hi as ->. reflexivity.
  - simpl in *. rewrite (IH i Hi). lia.
Qed.

Lemma interleaved_length {A} (ls : list (list A)) evs :
  interleaved ls evs -> length evs = sum_list (length <$> ls).
Proof.
  induction 1 as [ls Hall | ls j x l0 evs Hj _ IH].
  - induction Hall as [|l ls -> _ IH]; [done | exact IH].
  - simpl. rewrite IH. symmetry. eapply sum_list_insert.
    + rewrite list_lookup_fmap, Hj. reflexivity.
    + by rewrite list_fmap_insert.
Qed.

Lemma sum_list_ones {A} (f : A -> nat) (l : list A) :
  Forall (fun x => f x = 1) l -> sum_list (f <$> l) = length l.
Proof.
  induction 1 as [|x l Hx _ IH]; [done |].
  rewrite fmap_cons. cbn [sum_list sum_list_with length]. by rewrite Hx, IH.
Qed.

(** *** Threads *)

Lemma extends_refl w : extends w w.
Proof. exists []. by rewrite app_nil_r. Qed.

Lemma extends_trans w1 w2 w3 : extends w1 w2 -> extends w2 w3 -> extends w1 w3.
Proof. intros [e1 H1] [e2 H2]. exists (e1 ++ e2). by rewrite H2, H1, app_assoc. Qed.

Lemma acts_impl {A} (R R' : World -> World -> Prop) (t : Thread A) :
  (forall w w', R w w' -> R' w w') -> acts R t -> acts R' t.
Proof.
  intros HR. induction t as [r | X m k IH]; [done |].
  intros [Hm Hk]. split; [intros w; apply HR, Hm | intros x; apply IH, Hk].
Qed.

Lemma acts_call {A B} R (t : Thread A) (f : A -> Thread B) :
  acts R t -> (forall a, acts R (f a)) -> acts R (call t f).
Proof.
  intros Ht Hf. induction t as [[a|e] | X m k IH]; [apply Hf | done |].
  destruct Ht as [Hm Hk]. split; [exact Hm | intros x; apply IH, Hk].
Qed.

(** A thread that is run on its own satisfies what its steps satisfy. *)
Lemma finish_acts {A} (R : World -> World -> Prop) (t : Thread A) :
  (forall w, R w w) -> (forall w1 w2 w3, R w1 w2 -> R w2 w3 -> R w1 w3) ->
  acts R t -> forall w, R w (finish t w).2.
Proof.
  intros Hrefl Htrans. induction t as [r | X m k IH]; intros Ht w; [apply Hrefl |].
  destruct Ht as [Hm Hk]. cbn [finish]. rewrite bind_eq. specialize (Hm w).
  destruct (m w) as [[x|e] w1]; cbn [snd] in *; [| exact Hm].
  eapply Htrans; [exact Hm | by apply IH].
Qed.

Lemma finish_runs {A} (t : Thread A) :
  acts extends t ->
  forall w, exists evs,
    trace (finish t w).2 = trace w ++ evs /\ runs t evs (finish t w).1.
Proof.
  induction t as [r | X m k IH]; intros Ht w.
  - exists []. simpl. by rewrite app_nil_r.
  - destruct Ht as [Hm Hk]. cbn [finish]. rewrite bind_eq.
    destruct (Hm w) as [e1 He1].
    destruct (m w) as [[x|e] w1] eqn:Hmw; cbn [fst snd] in *.
    + destruct (IH x (Hk x) w1) as (e2 & He2 & Hruns).
      exists (e1 ++ e2). split; [by rewrite He2, He1, app_assoc |].
      exists w, e1. rewrite Hmw. cbn [fst snd]. split; [exact He1 |].
      exists e2. by split.
    + exists e1. split; [exact He1 |]. exists w, e1. rewrite Hmw. by cbn [fst snd].
Qed.

Lemma runs_call {A B} (t : Thread A) (f : A -> Thread B) evs r :
  runs (call t f) evs r ->
  (exists e1 e2 a, runs t e1 (OK a) /\ runs (f a) e2 r /\ evs = e1 ++ e2)
  \/ (exists e, runs t evs (Raise e) /\ r = Raise e).
Proof.
  revert evs. induction t as [[a|e] | X m k IH]; intros evs H.
  - left. exists [], evs, a. by repeat split.
  - right. destruct H as [-> ->]. exists e. by repeat split.
  - cbn [call runs] in H. destruct H as (w & e1 & He1 & H).
    destruct ((m w).1) as [x|e] eqn:Hr.
    + destruct H as (e2 & -> & H). apply IH in H as [(e3 & e4 & a & H3 & H4 & ->) | (e & H3 & ->)].
      * left. exists (e1 ++ e3), e4, a. split; [| split; [exact H4 | by rewrite app_assoc]].
        exists w, e1. rewrite Hr. split; [exact He1 |]. by exists e3.
      * right. exists e. split; [| done]. exists w, e1. rewrite Hr. split; [exact He1 |].
        by exists e2.
    + destruct H as [-> ->]. right. exists e. split; [| done].
      exists w, e1. rewrite Hr. by split.
Qed.

(** *** The pool *)

Section pool.
Context {A : Type} (threads : list (Thread A)) (w0 : World).

Lemma pool_inv_start :
  Forall (acts extends) threads -> pool_inv threads w0 (Some <$> threads, []) w0.
Proof.
  intros Hacts. exists (replicate (length threads) []), [].
  rewrite app_nil_r. split; [done |]. split.
  { apply interleaved_nil. by apply Forall_replicate. }
  split; [by rewrite length_replicate |]. split; [cbn [fst]; by rewrite length_fmap |].
  split; [| split].
  - intros i t. cbn [fst]. rewrite list_lookup_fmap.
    destruct (threads !! i) as [t0|] eqn:Ht0; [| done]. intros [= <-].
    split; [eapply (proj1 (Forall_forall _ _) Hacts); by eapply list_elem_of_lookup_2 |].
    exists t0, []. split; [done |]. split; [| done].
    apply lookup_replicate_2. by eapply lookup_lt_Some.
  - intros i. cbn [fst]. rewrite list_lookup_fmap. by destruct (threads !! i).
  - intros i r Hin. by apply elem_of_nil in Hin.
Qed.

(** Thread [i] hands in the outcome [r], having written [e1] since. *)
Lemma pool_inv_hand_in p w w' i t r e1 :
  pool_inv threads w0 p w ->
  p.1 !! i = Some (Some t) ->
  trace w' = trace w ++ e1 ->
  runs t e1 r ->
  pool_inv threads w0 (<[i := None]> p.1, p.2 ++ [(i, r)]) w'.
Proof.
  intros (evss & evs & Ht & Hil & Hlen & Hlp & Hrun & Hend & Hout) Hi He1 Hr.
  destruct (Hrun i t Hi) as (Hacts & t0 & l & Ht0 & Hl & Hcont).
  assert (Hlt : i < length p.1) by (by eapply lookup_lt_Some).
  exists (<[i := l ++ e1]> evss), (evs ++ e1).
  split; [by rewrite He1, Ht, app_assoc |].
  split; [by apply interleaved_snoc |].
  split; [by rewrite length_insert |]. split; [cbn [fst]; by rewrite length_insert |].
  cbn [fst snd]. split; [| split].
  - intros j t' Hj. destruct (decide (i = j)) as [<- | Hne].
    + rewrite list_lookup_insert_eq in Hj by done. discriminate Hj.
    + rewrite list_lookup_insert_ne in Hj by done.
      destruct (Hrun j t' Hj) as (Ha & t1 & l1 & Ht1 & Hl1 & Hc1).
      split; [exact Ha |]. exists t1, l1. split; [done |].
      split; [by rewrite list_lookup_insert_ne | exact Hc1].
  - intros j Hj. destruct (decide (i = j)) as [<- | Hne].
    + exists r. apply elem_of_app. right. by apply list_elem_of_singleton.
    + rewrite list_lookup_insert_ne in Hj by done.
      destruct (Hend j Hj) as [r' Hr']. exists r'. apply elem_of_app. by left.
  - intros j r' Hin. apply elem_of_app in Hin as [Hin | Hin].
    + destruct (Hout j r' Hin) as (Hj & t1 & l1 & Ht1 & Hl1 & Hr1).
      assert (Hne : i <> j) by (intros ->; congruence).
      split; [by rewrite list_lookup_insert_ne |].
      exists t1, l1. split; [done |]. split; [by rewrite list_lookup_insert_ne | done].
    + apply list_elem_of_singleton in Hin. injection Hin as -> ->.
      split; [by apply list_lookup_insert_eq |].
      exists t0, (l ++ e1). split; [done |].
      split; [apply list_lookup_insert_eq; by eapply lookup_lt_Some | by apply Hcont].
Qed.

(** Thread [i] goes on as [t'], having written [e1] since. *)
Lemma pool_inv_step p w w' i t t' e1 :
  pool_inv threads w0 p w ->
  p.1 !! i = Some (Some t) ->
  trace w' = trace w ++ e1 ->
  acts extends t' ->
  (forall e r, runs t' e r -> runs t (e1 ++ e) r) ->
  pool_inv threads w0 (<[i := Some t']> p.1, p.2) w'.
Proof.
  intros (evss & evs & Ht & Hil & Hlen & Hlp & Hrun & Hend & Hout) Hi He1 Hacts' Hcont'.
  destruct (Hrun i t Hi) as (Hacts & t0 & l & Ht0 & Hl & Hcont).
  assert (Hlt : i < length p.1) by (by eapply lookup_lt_Some).
  exists (<[i := l ++ e1]> evss), (evs ++ e1).
  split; [by rewrite He1, Ht, app_assoc |].
  split; [by apply interleaved_snoc |].
  split; [by rewrite length_insert |]. split; [cbn [fst]; by rewrite length_insert |].
  cbn [fst snd]. split; [| split].
  - intros j t'' Hj. destruct (decide (i = j)) as [<- | Hne].
    + rewrite list_lookup_insert_eq in Hj by done. injection Hj as <-.
      split; [exact Hacts' |]. exists t0, (l ++ e1). split; [done |].
      split; [apply list_lookup_insert_eq; by eapply lookup_lt_Some |].
      intros e r Hr. rewrite <- app_assoc. by apply Hcont, Hcont'.
    + rewrite list_lookup_insert_ne in Hj by done.
      destruct (Hrun j t'' Hj) as (Ha & t1 & l1 & Ht1 & Hl1 & Hc1).
      split; [exact Ha |]. exists t1, l1. split; [done |].
      split; [by rewrite list_lookup_insert_ne | exact Hc1].
  - intros j Hj. destruct (decide (i = j)) as [<- | Hne].
    + rewrite list_lookup_insert_eq in Hj by done. discriminate Hj.
    + rewrite list_lookup_insert_ne in Hj by done. by apply Hend.
  - intros j r Hin. destruct (Hout j r Hin) as (Hj & t1 & l1 & Ht1 & Hl1 & Hr1).
    assert (Hne : i <> j) by (intros ->; congruence).
    split; [by rewrite list_lookup_insert_ne |].
    exists t1, l1. split; [done |]. split; [by rewrite list_lookup_insert_ne | done].
Qed.

Lemma turn_inv i p w :
  pool_inv threads w0 p w -> pool_inv threads w0 (turn i p w).1 (turn i p w).2.
Proof.
  intros Hinv. unfold turn.
  destruct (p.1 !! i) as [[t|]|] eqn:Hi; [| exact Hinv | exact Hinv].
  destruct t as [r | X m k].
  - cbn [fst snd]. apply (pool_inv_hand_in p w w i (Done r) r []); try done.
    by rewrite app_nil_r.
  - assert (Hacts : acts extends (Act m k)).
    { destruct Hinv as (evss & evs & _ & _ & _ & _ & Hrun & _). by apply (Hrun i). }
    destruct Hacts as [Hm Hk]. destruct (Hm w) as [e1 He1].
    destruct (m w) as [[x|e] w1] eqn:Hmw; cbn [fst snd] in *.
    + apply (pool_inv_step p w w1 i (Act m k) (k x) e1); try done.
      intros e r Hr. exists w, e1. rewrite Hmw. cbn [fst snd]. split; [done |]. by exists e.
    + apply (pool_inv_step p w w1 i (Act m k) (Done (Raise e)) e1); try done.
      intros e' r [-> ->]. exists w, e1. rewrite Hmw. cbn [fst snd].
      by rewrite app_nil_r.
Qed.

Lemma run_out_inv i p w :
  pool_inv threads w0 p w -> pool_inv threads w0 (run_out i p w).1 (run_out i p w).2.
Proof.
  intros Hinv. unfold run_out.
  destruct (p.1 !! i) as [[t|]|] eqn:Hi; [| exact Hinv | exact Hinv].
  assert (Hacts : acts extends t).
  { destruct Hinv as (evss & evs & _ & _ & _ & _ & Hrun & _). by apply (Hrun i). }
  destruct (finish_runs t Hacts w) as (e1 & He1 & Hr).
  destruct (finish t w) as [r w1]. cbn [fst snd] in *.
  by apply (pool_inv_hand_in p w w1 i t r e1).
Qed.

Lemma each_inv (op : nat -> Pool A -> World -> Pool A * World) order :
  (forall i p w, pool_inv threads w0 p w -> pool_inv threads w0 (op i p w).1 (op i p w).2) ->
  forall p w,
    pool_inv threads w0 p w ->
    pool_inv threads w0 (each op order p w).1 (each op order p w).2.
Proof.
  intros Hop. induction order as [|i order IH]; intros p w Hinv; [exact Hinv |].
  cbn [each]. specialize (Hop i p w Hinv). destruct (op i p w) as [p' w'].
  by apply IH.
Qed.

(** After its run-out a thread has handed in its outcome, and those that
    had are left as they are. *)
Lemma run_out_ended i j (p : Pool A) w :
  j < length p.1 -> i = j \/ p.1 !! j = Some None -> (run_out i p w).1.1 !! j = Some None.
Proof.
  intros Hj Hor. unfold run_out.
  destruct (p.1 !! i) as [[t|]|] eqn:Hi.
  - destruct (finish t w) as [r w1]. cbn [fst].
    destruct (decide (i = j)) as [<- | Hne]; [by apply list_lookup_insert_eq |].
    rewrite list_lookup_insert_ne by done. by destruct Hor.
  - cbn [fst]. destruct Hor as [<- | Hor]; done.
  - cbn [fst]. destruct Hor as [<- | Hor]; [| done].
    apply lookup_ge_None in Hi. lia.
Qed.

Lemma run_out_length i (p : Pool A) w : length (run_out i p w).1.1 = length p.1.
Proof.
  unfold run_out. destruct (p.1 !! i) as [[t|]|]; [| done | done].
  destruct (finish t w). cbn [fst]. by rewrite length_insert.
Qed.

Lemma each_run_out_ended order : forall j (p : Pool A) w,
  j < length p.1 -> j ∈ order \/ p.1 !! j = Some None ->
  (each run_out order p w).1.1 !! j = Some None.
Proof.
  induction order as [|i order IH]; intros j p w Hj Hor.
  - destruct Hor as [Hin | Hor]; [by apply elem_of_nil in Hin | exact Hor].
  - cbn [each]. pose proof (run_out_ended i j p w Hj) as Hended.
    pose proof (run_out_length i p w) as Hlen.
    destruct (run_out i p w) as [p' w']. cbn [fst] in *.
    apply IH; [lia |]. destruct Hor as [Hin | Hor].
    + apply elem_of_cons in Hin as [-> | Hin]; [right; apply Hended; by left | by left].
    + right. apply Hended. by right.
Qed.

End pool.

Lemma first_failure_None {A} (outcomes : list (nat * Res A)) i r :
  first_failure outcomes = None -> (i, r) ∈ outcomes ->
  exists a, result_of outcomes i = Some a /\ (i, OK a) ∈ outcomes.
Proof.
  induction outcomes as [|[j r'] outcomes IH]; intros Hff Hin; [by apply elem_of_nil in Hin |].
  cbn [first_failure] in Hff. destruct r' as [a|e]; [| discriminate Hff].
  cbn [result_of]. destruct (decide (j = i)) as [-> | Hne].
  - exists a. split; [done | left].
  - apply elem_of_cons in Hin as [[=] | Hin]; [congruence |].
    destruct (IH Hff Hin) as (a' & Ha' & Hin'). exists a'. split; [done | by right].
Qed.

Lemma omap_total {A B} (g : A -> option B) (l : list A) :
  (forall x, x ∈ l -> is_Some (g x)) ->
  length (omap g l) = length l
  /\ forall j x, l !! j = Some x -> omap g l !! j = g x.
Proof.
  induction l as [|a l IH]; intros Hall; [done |].
  destruct (Hall a) as [b Hb]; [left |].
  destruct IH as [IHlen IHlook]; [intros x Hx; apply Hall; by right |].
  assert (Hcons : omap g (a :: l) = b :: omap g l).
  { change (omap g (a :: l)) with (from_option (fun y => y :: omap g l) (omap g l) (g a)).
    by rewrite Hb. }
  rewrite Hcons. split; [simpl; by rewrite IHlen |].
  intros [|j] x Hj; simpl in Hj |- *; [injection Hj as <-; by rewrite Hb | auto].
Qed.

(** What [starmap] does, whatever the turns the threads get: the events
    written are an interleaving of what each thread can write on its way
    to an outcome, and when [starmap] returns, these outcomes are the
    results, in the order of the threads. *)
Lemma starmap_interleaves {A} (threads : list (Thread A)) w :
  Forall (acts extends) threads ->
  exists evss evs,
    trace (starmap threads w).2 = trace w ++ evs
    /\ interleaved evss evs
    /\ length evss = length threads
    /\ (forall i t, threads !! i = Some t ->
          exists l r, evss !! i = Some l /\ runs t l r
            /\ forall results, (starmap threads w).1 = OK results ->
                  exists a, r = OK a /\ results !! i = Some a)
    /\ (forall results, (starmap threads w).1 = OK results ->
          length results = length threads).
Proof.
  intros Hacts. unfold starmap.
  pose proof (each_inv threads w turn (scheduler w (length (trace w)))
                (turn_inv threads w) _ _ (pool_inv_start threads w Hacts)) as Hinv1.
  destruct (each turn _ _ w) as [p1 w1]. cbn [fst snd] in Hinv1.
  pose proof (each_inv threads w run_out (seq 0 (length threads))
                (run_out_inv threads w) _ _ Hinv1) as Hinv2.
  assert (Hended : forall j, j < length threads ->
            (each run_out (seq 0 (length threads)) p1 w1).1.1 !! j = Some None).
  { intros j Hj. apply each_run_out_ended.
    - destruct Hinv1 as (_ & _ & _ & _ & _ & Hlp & _). by rewrite Hlp.
    - left. apply elem_of_seq. lia. }
  destruct (each run_out _ p1 w1) as [p2 w2]. cbn [fst snd] in *.
  destruct Hinv2 as (evss & evs & Ht & Hil & Hlen & Hlp & Hrun & Hend & Hout).
  exists evss, evs.
  assert (Hin : forall i, i < length threads -> exists r, (i, r) ∈ p2.2).
  { intros i Hi. apply Hend. by apply Hended. }
  destruct (first_failure p2.2) as [e|] eqn:Hff; cbn [fst snd].
  - split; [exact Ht |]. split; [exact Hil |]. split; [exact Hlen |]. split; [| done].
    intros i t Hi. destruct (Hin i) as [r Hr]; [by eapply lookup_lt_Some |].
    destruct (Hout i r Hr) as (_ & t0 & l & Ht0 & Hl & Hruns).
    exists l, r. split; [done |]. split; [congruence | done].
  - destruct (omap_total (result_of p2.2) (seq 0 (length threads))) as [Hl Hlook].
    { intros i Hi. apply elem_of_seq in Hi. destruct (Hin i) as [r Hr]; [lia |].
      destruct (first_failure_None _ _ _ Hff Hr) as (a & Ha & _). by eexists. }
    split; [exact Ht |]. split; [exact Hil |]. split; [exact Hlen |]. split.
    + intros i t Hi. assert (Hlt : i < length threads) by (by eapply lookup_lt_Some).
      destruct (Hin i Hlt) as [r Hr].
      destruct (first_failure_None _ _ _ Hff Hr) as (a & Ha & Hina).
      destruct (Hout i (OK a) Hina) as (_ & t0 & l & Ht0 & Hl' & Hruns).
      exists l, (OK a). split; [done |]. split; [congruence |].
      intros results [= <-]. exists a. split; [done |].
      rewrite <- Ha. apply Hlook. by apply lookup_seq_lt.
    + intros results [= <-]. by rewrite Hl, length_seq.
Qed.

(** What every step of every thread keeps, [starmap] keeps. *)
Lemma starmap_acts {A} (R : World -> World -> Prop) (threads : list (Thread A)) :
  (forall w, R w w) -> (forall w1 w2 w3, R w1 w2 -> R w2 w3 -> R w1 w3) ->
  Forall (acts R) threads -> forall w, R w (starmap threads w).2.
Proof.
  intros Hrefl Htrans Hacts w.
  set (inv := fun (p : Pool A) (w' : World) =>
                R w w' /\ forall i t, p.1 !! i = Some (Some t) -> acts R t).
  assert (Hturn : forall i p w', inv p w' -> inv (turn i p w').1 (turn i p w').2).
  { intros i p w' [HR Hts]. unfold turn.
    destruct (p.1 !! i) as [[t|]|] eqn:Hi; [| done | done].
    assert (Hlt : i < length p.1) by (by eapply lookup_lt_Some).
    destruct t as [r | X m k].
    - split; [exact HR |]. cbn [fst]. intros j t Hj.
      destruct (decide (i = j)) as [<- | Hne].
      + rewrite list_lookup_insert_eq in Hj by done. discriminate Hj.
      + rewrite list_lookup_insert_ne in Hj by done. by apply (Hts j).
    - destruct (Hts i _ Hi) as [Hm Hk]. specialize (Hm w').
      assert (Hnext : forall t' : Thread A, acts R t' ->
                inv (<[i := Some t']> p.1, p.2) (m w').2).
      { intros t' Ht'. split; [by eapply Htrans |]. cbn [fst]. intros j t Hj.
        destruct (decide (i = j)) as [<- | Hne].
        - rewrite list_lookup_insert_eq in Hj by done. by injection Hj as <-.
        - rewrite list_lookup_insert_ne in Hj by done. by apply (Hts j). }
      destruct (m w') as [[x|e] w1]; cbn [fst snd] in *; apply Hnext; [apply Hk | done]. }
  assert (Hout : forall i p w', inv p w' -> inv (run_out i p w').1 (run_out i p w').2).
  { intros i p w' [HR Hts]. unfold run_out.
    destruct (p.1 !! i) as [[t|]|] eqn:Hi; [| done | done].
    assert (Hlt : i < length p.1) by (by eapply lookup_lt_Some).
    pose proof (finish_acts R t Hrefl Htrans (Hts i t Hi) w') as Hfin.
    destruct (finish t w') as [r w1]. cbn [fst snd] in *.
    split; [by eapply Htrans |]. cbn [fst]. intros j t' Hj.
    destruct (decide (i = j)) as [<- | Hne].
    - rewrite list_lookup_insert_eq in Hj by done. discriminate Hj.
    - rewrite list_lookup_insert_ne in Hj by done. by apply (Hts j). }
  assert (Heach : forall op order,
            (forall i p w', inv p w' -> inv (op i p w').1 (op i p w').2) ->
            forall p w', inv p w' -> inv (each op order p w').1 (each op order p w').2).
  { intros op order Hop. induction order as [|i order IH]; intros p w' Hinv; [exact Hinv |].
    cbn [each]. specialize (Hop i p w' Hinv). destruct (op i p w') as [p' w''].
    by apply IH. }
  assert (Hstart : inv (Some <$> threads, []) w).
  { split; [apply Hrefl |]. intros i t. cbn [fst]. rewrite list_lookup_fmap.
    destruct (threads !! i) as [t0|] eqn:Ht0; [| done]. intros [= <-].
    eapply (proj1 (Forall_forall _ _) Hacts). by eapply list_elem_of_lookup_2. }
  unfold starmap.
  pose proof (Heach turn (scheduler w (length (trace w))) Hturn _ _ Hstart) as H1.
  destruct (each turn _ _ w) as [p1 w1]. cbn [fst snd] in H1.
  pose proof (Heach run_out (seq 0 (length threads)) Hout _ _ H1) as H2.
  destruct (each run_out _ p1 w1) as [p2 w2]. cbn [fst snd] in H2.
  destruct (first_failure p2.2); apply H2.
Qed.

(** *** What the steps of a worker write *)

Lemma writes_refl P w : writes P w w.
Proof. exists []. by rewrite app_nil_r. Qed.

Lemma writes_trans P w1 w2 w3 : writes P w1 w2 -> writes P w2 w3 -> writes P w1 w3.
Proof.
  intros (e1 & H1 & Hp1) (e2 & H2 & Hp2). exists (e1 ++ e2).
  split; [by rewrite H2, H1, app_assoc | by apply Forall_app].
Qed.

Lemma writes_extends P w w' : writes P w w' -> extends w w'.
Proof. intros (evs & H & _). by exists evs. Qed.

Lemma writes_impl (P Q : event -> Prop) w w' :
  (forall e, P e -> Q e) -> writes P w w' -> writes Q w w'.
Proof.
  intros HPQ (evs & H & HP). exists evs. split; [done |]. by eapply Forall_impl.
Qed.

Lemma writes_same P w w' : trace w' = trace w -> writes P w w'.
Proof. intros H. exists []. by rewrite app_nil_r. Qed.

Lemma writes_emit (P : event -> Prop) e w : P e -> writes P w (emit e w).2.
Proof. intros He. exists [e]. split; [done | by repeat constructor]. Qed.

Lemma writes_bind {A B} P (m : M World A) (f : A -> M World B) :
  (forall w, writes P w (m w).2) -> (forall a w, writes P w (f a w).2) ->
  forall w, writes P w ((m ≫= f) w).2.
Proof.
  intros Hm Hf w. rewrite bind_eq. specialize (Hm w).
  destruct (m w) as [[a|e] w1]; cbn [snd] in *; [| exact Hm].
  eapply writes_trans; [exact Hm | apply Hf].
Qed.

Lemma with_self_trace {A} self (body : string -> (string -> bool) -> M Launcher A) w :
  trace (with_self self body w).2 = trace w.
Proof.
  unfold with_self. destruct (heap w !! self); [| done]. by destruct (body _ _ _).
Qed.

Lemma deref_same self w : (deref self w).2 = w.
Proof. unfold deref. by destruct (heap w !! self). Qed.

Lemma writes_deref P self w : writes P w (deref self w).2.
Proof. rewrite deref_same. apply writes_refl. Qed.

Lemma writes_popen (P : event -> Prop) c out err w :
  (forall n, P (EvPopen n c out err)) -> writes P w (subprocess_Popen c out err w).2.
Proof. intros HP. exists [EvPopen (next_id w) c out err]. split; [done | by repeat constructor]. Qed.

Lemma writes_sleep (P : event -> Prop) d w : P (EvSleep d) -> writes P w (time_sleep d w).2.
Proof.
  intros HP. unfold time_sleep. case_decide; [apply writes_refl | by apply writes_emit].
Qed.

Lemma writes_read_clock (P : event -> Prop) w :
  (forall t, P (EvTime t)) -> writes P w (read_clock w).2.
Proof. intros HP. exists [EvTime (clock w (ticks w))]. split; [done | by repeat constructor]. Qed.

Lemma writes_wait_if (P : event -> Prop) h w :
  (forall p, P (EvWait p)) -> writes P w (wait_if h w).2.
Proof. intros HP. destruct h; [by apply writes_emit | apply writes_refl]. Qed.

(** The steps of [run] write lines of the log and start processes. *)
Lemma run_steps_writes (P : event -> Prop) self access pattern out err kwargs :
  (forall e, run_event e -> P e) ->
  acts (writes P) (run_steps self access pattern out err kwargs).
Proof.
  intros HP. unfold run_steps.
  split; [intros w; apply writes_same, with_self_trace | intros _].
  split; [intros w; apply writes_same, with_self_trace | intros _].
  split.
  { apply writes_bind; [apply writes_deref | intros l w]. by apply writes_emit, HP. }
  intros _. split; [apply writes_deref | intros l].
  destruct (_test l); [exact I |].
  split; [apply writes_deref | intros l'].
  split; [intros w; by apply writes_emit, HP | intros _].
  split; [intros w; by apply writes_emit, HP | intros _].
  split.
  { apply writes_bind; [apply writes_deref | intros l'' w]. apply writes_popen.
    intros n. by apply HP. }
  intros proc. split; [intros w; apply writes_same, with_self_trace | intros _]. exact I.
Qed.

(** The steps of a worker of the pool write events of the run phase. *)
Lemma worker_writes (P : event -> Prop) wl delay :
  (forall e, phase_event Run e = true -> P e) ->
  acts (writes P) (_run_and_wait_after_delay wl delay).
Proof.
  intros HP. unfold _run_and_wait_after_delay.
  split; [intros w; by apply writes_sleep, HP | intros _].
  split; [intros w; by apply writes_emit, HP | intros _].
  apply acts_call.
  { apply run_steps_writes. intros e He. apply HP. by destruct e. }
  intros proc. split; [intros w; by apply writes_emit, HP | intros _].
  split; [intros w; apply writes_read_clock; intros t; by apply HP | intros time0].
  split; [intros w; apply writes_wait_if; intros p; by apply HP | intros _].
  split; [intros w; apply writes_read_clock; intros t; by apply HP | intros timef].
  exact I.
Qed.

(** What a thread writes on a way to an outcome is what its steps write. *)
Lemma runs_writes {A} P (t : Thread A) evs r :
  acts (writes P) t -> runs t evs r -> Forall P evs.
Proof.
  revert evs. induction t as [r' | X m k IH]; intros evs Hacts Hruns.
  - destruct Hruns as [-> _]. constructor.
  - destruct Hacts as [Hm Hk]. destruct Hruns as (w & e1 & He1 & H).
    destruct (Hm w) as (e1' & He1' & HP). rewrite He1' in He1.
    apply app_inv_head in He1 as <-.
    destruct ((m w).1) as [x|e].
    + destruct H as (e2 & -> & H). apply Forall_app. split; [exact HP |]. by eapply IH.
    + by destruct H as [-> _].
Qed.

(** *** A worker, step by step *)

Lemma emit_eq e w : emit e w = (OK tt, (emit e w).2).
Proof. reflexivity. Qed.

Lemma emit_trace e w : trace (emit e w).2 = trace w ++ [e].
Proof. reflexivity. Qed.

Lemma runs_emit {A} e (k : unit -> Thread A) evs r :
  runs (Act (emit e) k) evs r -> exists e2, evs = e :: e2 /\ runs (k tt) e2 r.
Proof.
  intros (w & e1 & He1 & e2 & -> & H). rewrite emit_trace in He1.
  apply app_inv_head in He1 as <-. by exists e2.
Qed.

Lemma runs_sleep {A} d (k : unit -> Thread A) evs r :
  runs (Act (time_sleep d) k) evs r ->
  ((d < 0)%Z /\ evs = [] /\ r = Raise (ValueError "sleep length must be non-negative"))
  \/ ((0 <= d)%Z /\ exists e2, evs = EvSleep d :: e2 /\ runs (k tt) e2 r).
Proof.
  intros (w & e1 & He1 & H). unfold time_sleep in He1, H. case_decide.
  - left. cbn [raise fst snd] in *. destruct H as [-> ->].
    rewrite <- (app_nil_r (trace w)) in He1 at 1. apply app_inv_head in He1 as <-.
    by repeat split.
  - right. split; [lia |]. by apply (runs_emit (EvSleep d) k), (ex_intro _ w), (ex_intro _ e1).
Qed.

Lemma runs_read_clock {A} (k : float -> Thread A) evs r :
  runs (Act read_clock k) evs r -> exists t e2, evs = EvTime t :: e2 /\ runs (k t) e2 r.
Proof.
  intros (w & e1 & He1 & e2 & -> & H).
  change (trace w ++ [EvTime (clock w (ticks w))] = trace w ++ e1) in He1.
  apply app_inv_head in He1 as <-. by exists (clock w (ticks w)), e2.
Qed.

Lemma runs_wait_if {A} h (k : unit -> Thread A) evs r :
  runs (Act (wait_if h) k) evs r -> exists e2, evs = wait_events h ++ e2 /\ runs (k tt) e2 r.
Proof.
  destruct h as [p|]; [apply runs_emit |].
  intros (w & e1 & He1 & e2 & -> & H). cbn in He1.
  rewrite <- (app_nil_r (trace w)) in He1 at 1. apply app_inv_head in He1 as <-.
  by exists e2.
Qed.

(** The ways of a worker to an outcome: the sleep is refused; or, the run
    call once issued, it raises, or returns a handle, and then the worker
    reads the clock, waits on the handle and reads the clock again. *)
Lemma runs_worker wl delay evs r :
  runs (_run_and_wait_after_delay wl delay) evs r ->
  ((delay < 0)%Z /\ evs = []
   /\ r = Raise (ValueError "sleep length must be non-negative"))
  \/ ((0 <= delay)%Z
      /\ exists inner,
           Forall run_event inner
           /\ ((exists e, r = Raise e
                  /\ evs = [EvSleep delay; EvIssued Run (launcher wl)] ++ inner)
               \/ (exists h t,
                     r = OK t
                     /\ evs = [EvSleep delay; EvIssued Run (launcher wl)] ++ inner
                              ++ [EvReturned Run (launcher wl) h; EvTime t.1]
                              ++ wait_events h ++ [EvTime t.2]))).
Proof.
  unfold _run_and_wait_after_delay. intros H.
  apply runs_sleep in H as [H | (Hd & e2 & -> & H)]; [by left | right].
  split; [exact Hd |]. apply runs_emit in H as (e3 & -> & H).
  apply runs_call in H as [(e4 & e5 & proc & Hrun & H & ->) | (e & Hrun & ->)].
  - exists e4. split.
    { eapply runs_writes; [| exact Hrun]. by apply run_steps_writes. }
    right. apply runs_emit in H as (e6 & -> & H).
    apply runs_read_clock in H as (t0 & e7 & -> & H).
    apply runs_wait_if in H as (e8 & -> & H).
    apply runs_read_clock in H as (tf & e9 & -> & H).
    destruct H as [-> ->]. by exists proc, (t0, tf).
  - exists e3. split.
    { eapply runs_writes; [| exact Hrun]. by apply run_steps_writes. }
    left. by exists e.
Qed.

(** *** The pool in the view *)

Lemma scheduler_view_run_events evs : Forall run_event evs -> scheduler_view evs = [].
Proof.
  induction 1 as [|e evs He _ IH]; [done |].
  unfold scheduler_view in *. simpl. rewrite IH. by destruct e.
Qed.

Lemma scheduler_view_wait_events h : scheduler_view (wait_events h) = wait_events h.
Proof. by destruct h. Qed.

Lemma list_choice {B} n (P : nat -> B -> Prop) :
  (forall i, i < n -> exists b, P i b) ->
  exists bs, length bs = n /\ forall i, i < n -> exists b, bs !! i = Some b /\ P i b.
Proof.
  induction n as [|n IH]; intros H.
  - exists []. split; [done | lia].
  - destruct IH as (bs & Hlen & Hbs); [intros i Hi; apply H; lia |].
    destruct (H n) as [b Hb]; [lia |].
    exists (bs ++ [b]). split; [rewrite length_app; simpl; lia |].
    intros i Hi. destruct (decide (i = n)) as [-> | Hne].
    + exists b. split; [| done]. rewrite lookup_app_r by lia.
      by rewrite Hlen, Nat.sub_diag.
    + destruct (Hbs i) as (b' & Hb' & HP); [lia |]. exists b'. split; [| done].
      by rewrite lookup_app_l by lia.
Qed.

Lemma pool_view ws delay w results w' :
  pool_starmap ws delay w = (OK results, w') ->
  exists evs handles,
    trace w' = (trace w ++ evs)%list
    /\ length handles = length ws
    /\ length results = length ws
    /\ interleaved (zip_with (fun wl ht => run_block wl ht.1 ht.2) ws (zip handles results))
         (scheduler_view evs).
Proof.
  unfold pool_starmap. case_decide; [discriminate |]. intros Hpool.
  set (threads := imap (fun idx wl => _run_and_wait_after_delay wl (delay * Z.of_nat idx)) ws)
    in *.
  destruct (starmap_interleaves threads w) as (evss & evs & Ht & Hil & Hlen & Hth & Hres).
  { apply Forall_forall. intros t Ht. apply elem_of_lookup_imap_1 in Ht as (i & wl & -> & _).
    eapply acts_impl; [| by apply (worker_writes (fun _ => True))].
    intros w1 w2. apply writes_extends. }
  rewrite Hpool in Ht, Hth, Hres. cbn [fst snd] in *.
  specialize (Hres results eq_refl).
  assert (Hn : length threads = length ws) by apply length_imap.
  rewrite Hn in Hlen, Hres.
  destruct (list_choice (length ws)
              (fun i h => exists wl t l,
                 ws !! i = Some wl /\ results !! i = Some t /\ evss !! i = Some l
                 /\ scheduler_view l = run_block wl h t)) as (handles & Hhl & Hh).
  { intros i Hi. apply lookup_lt_is_Some_2 in Hi as [wl Hwl].
    destruct (Hth i (_run_and_wait_after_delay wl (delay * Z.of_nat i)))
      as (l & r & Hl & Hruns & Hok).
    { unfold threads. by rewrite list_lookup_imap, Hwl. }
    destruct (Hok results eq_refl) as (t & -> & Ht').
    apply runs_worker in Hruns as [(_ & _ & [=]) | (_ & inner & Hinner & Hcase)].
    destruct Hcase as [(e & [=] & _) | (h & t' & [= <-] & ->)].
    exists h, wl, t. eexists. split; [done |]. split; [done |]. split; [exact Hl |].
    rewrite !scheduler_view_app, (scheduler_view_run_events _ Hinner),
      scheduler_view_wait_events. reflexivity. }
  exists evs, handles. split; [exact Ht |]. split; [exact Hhl |]. split; [exact Hres |].
  replace (zip_with (fun wl ht => run_block wl ht.1 ht.2) ws (zip handles results))
    with (scheduler_view <$> evss); [by apply interleaved_filter |].
  apply list_eq. intros i. rewrite list_lookup_fmap.
  destruct (decide (i < length ws)) as [Hi | Hi].
  - destruct (Hh i Hi) as (h & Hhi & wl & t & l & Hwl & Hti & Hli & Hv).
    rewrite Hli. cbn [fmap option_fmap option_map]. rewrite Hv. symmetry.
    apply lookup_zip_with_Some. exists wl, (h, t). split; [done |]. split; [done |].
    apply lookup_zip_with_Some. by exists h, t.
  - rewrite (proj2 (lookup_ge_None evss i)) by lia. symmetry.
    apply lookup_ge_None. rewrite length_zip_with. lia.
Qed.

(** C2, as the code has it.  When an invocation of the scheduler on N
    descriptors returns, the scheduler's calls, the waits and the readings
    of the clock, in the order they happened, are: N preflight calls in
    input order, each followed by the wait on the handle it returned; then
    what the N workers of the pool did, in any interleaving: each one its
    run call, a reading of the clock, the wait on the handle the call
    returned and a second reading; then N teardown calls in input order
    with their waits.  The result has N pairs, and the pair at position [i]
    holds the two readings of the worker of descriptor [i]. *)
Theorem run_launchers_phases workloads delay w results w' :
  run_launchers workloads delay w = (OK results, w') ->
  let n := length workloads in
  exists evs pre handles calls post,
    trace w' = (trace w ++ evs)%list
    /\ length pre = n /\ length handles = n /\ length post = n /\ length results = n
    /\ scheduler_view evs
       = (blocks Preflight (launcher <$> workloads) pre
          ++ calls
          ++ blocks Teardown (launcher <$> workloads) post)%list
    /\ interleaved
         (zip_with (fun wl ht => run_block wl ht.1 ht.2) workloads (zip handles results))
         calls.
Proof.
  intros H n. unfold run_launchers in H.
  apply bind_inv in H as [([] & w1 & Hpre & H) | (e & _ & He)]; [| discriminate He].
  apply bind_inv in H as [(res & w2 & Hpool & H) | (e & _ & He)]; [| discriminate He].
  rewrite bind_eq in H.
  change (time_sleep 5 w2) with (OK tt, (emit (EvSleep 5) w2).2) in H.
  cbv beta iota in H.
  apply bind_inv in H as [([] & w3 & Hpost & H) | (e & _ & He)]; [| discriminate He].
  injection H as <- <-.
  destruct (loop_view Preflight launcher (fun wl => preflight (launcher wl))
              workloads w w1) as (e1 & pre & (Ht1 & _) & Hl1 & Hv1);
    [intros wl w0; apply preflight_internal | exact Hpre |].
  destruct (pool_view workloads delay w1 res w2 Hpool) as (e2 & handles & Ht2 & Hl2 & Hlen & Hv2).
  destruct (loop_view Teardown launcher
              (fun wl => teardown (launcher wl) (access wl) (pattern wl) [])
              workloads (emit (EvSleep 5) w2).2 w3) as (e3 & post & (Ht3 & _) & Hl3 & Hv3);
    [intros wl w0; apply teardown_internal | exact Hpost |].
  exists (e1 ++ e2 ++ [EvSleep 5] ++ e3)%list, pre, handles, (scheduler_view e2), post.
  split.
  { rewrite Ht3. simpl. rewrite Ht2, Ht1. by rewrite <- !app_assoc. }
  split; [exact Hl1 |]. split; [exact Hl2 |]. split; [exact Hl3 |]. split; [exact Hlen |].
  split; [| exact Hv2].
  rewrite !scheduler_view_app, Hv1, Hv3. reflexivity.
Qed.

Lemma run_launchers_phases_witness :
  let w := Sample.scheduled Sample.turns (Sample.adapters false) in
  let w' := (run_launchers sample_workloads 0 w).2 in
  let n := length sample_workloads in
  exists evs pre handles calls post,
    trace w' = (trace w ++ evs)%list
    /\ length pre = n /\ length handles = n /\ length post = n
    /\ length [(2, 3); (0, 1)]%float = n
    /\ scheduler_view evs
       = (blocks Preflight (launcher <$> sample_workloads) pre
          ++ calls
          ++ blocks Teardown (launcher <$> sample_workloads) post)%list
    /\ interleaved
         (zip_with (fun wl ht => run_block wl ht.1 ht.2) sample_workloads
            (zip handles [(2, 3); (0, 1)]%float))
         calls.
Proof.
  apply (run_launchers_phases sample_workloads 0
           (Sample.scheduled Sample.turns (Sample.adapters false))
           [(2, 3); (0, 1)]%float
           (run_launchers sample_workloads 0
              (Sample.scheduled Sample.turns (Sample.adapters false))).2).
  vm_compute. reflexivity.
Defined.

(** C2 as stated fails.  With an access mode the launcher does not know,
    the preflight is issued, the run call raises, and the scheduler raises
    in turn: no teardown is issued and no list is returned.  On no
    descriptor at all the scheduler raises when it creates the pool. *)
Lemma run_launchers_without_teardown :
  (run_launchers [Sample.descriptor 1 "primary" "append" "bw"] 0 (Sample.adapters true)).1
  = Raise (KeyError "append")
  /\ trace (run_launchers [Sample.descriptor 1 "primary" "append" "bw"] 0
              (Sample.adapters true)).2
     = [EvIssued Preflight 1; EvReturned Preflight 1 None; EvSleep 0; EvIssued Run 1]
  /\ (run_launchers [] 0 (Sample.adapters true)).1
     = Raise (ValueError "Number of processes must be at least 1").
Proof. vm_compute. repeat split; reflexivity. Qed.

(** * Further properties *)

(** ** Tokens of the configuration *)

Lemma append_cons c s t : (String c s ++ t)%string = String c (s ++ t)%string.
Proof. reflexivity. Qed.

Lemma append_nil_r s : (s ++ EmptyString)%string = s.
Proof. induction s as [|c s IH]; [done | by rewrite append_cons, IH]. Qed.

Lemma append_assoc s1 s2 s3 : ((s1 ++ s2) ++ s3)%string = (s1 ++ (s2 ++ s3))%string.
Proof. induction s1 as [|c s1 IH]; [done | by rewrite !append_cons, IH]. Qed.

(** A white-space character at the head of a string is there whatever
    follows the string. *)
Lemma space_width_app lone s t :
  Py.space_width lone s <> 0 ->
  Py.space_width lone (s ++ t)%string = Py.space_width lone s.
Proof.
  destruct s as [|a [|b [|c s]]]; [done | | |]; rewrite ?append_cons; cbn [Py.space_width];
    change ("" ++ t)%string with t.
  - by destruct (Py.is_space a || lone && Py.is_lone_space a).
  - destruct (Py.is_space a || lone && Py.is_lone_space a); [done |].
    by destruct (Py.is_space2 a b).
  - done.
Qed.

(** The bytes of a white-space character of two or three bytes are not
    ASCII: such a character does not reach into a blank. *)
Lemma is_space2_blank a : Py.is_space2 a " " = false.
Proof. unfold Py.is_space2. cbn. apply andb_false_r. Qed.

Lemma is_space3_blank a b : Py.is_space3 a b " " = false.
Proof. unfold Py.is_space3. cbn. by rewrite !andb_false_r. Qed.

Lemma is_space3_blank2 a c : Py.is_space3 a " " c = false.
Proof. unfold Py.is_space3. cbn. by rewrite !andb_false_r. Qed.

Lemma space_width_blank lone s t :
  s <> "" -> Py.space_width lone (s ++ String " " t)%string = Py.space_width lone s.
Proof.
  intros Hs. destruct s as [|a [|b [|c s]]]; [done | | |]; rewrite ?append_cons;
    cbn [Py.space_width]; change ("" ++ ?x)%string with x.
  - destruct (Py.is_space a || lone && Py.is_lone_space a); [done |].
    rewrite is_space2_blank. destruct t as [|c t]; [done |]. by rewrite is_space3_blank2.
  - destruct (Py.is_space a || lone && Py.is_lone_space a); [done |].
    destruct (Py.is_space2 a b); [done |]. by rewrite is_space3_blank.
  - done.
Qed.

Lemma spaceless_snoc lone cur c s :
  spaceless lone cur (String c s) ->
  Py.space_width (lone_after lone cur) (String c s) = 0 ->
  spaceless lone (cur ++ String c "")%string s.
Proof.
  revert lone. induction cur as [|a cur IH]; intros lone Hcur Hc.
  - split; [exact Hc | exact I].
  - destruct Hcur as [Ha Hcur].
    change (Py.space_width lone (String a (cur ++ String c "") ++ s)%string = 0
            /\ spaceless (Py.is_ascii a) (cur ++ String c "")%string s).
    split; [| by apply IH].
    rewrite append_cons, append_assoc. exact Ha.
Qed.

Lemma lone_after_snoc lone cur c :
  lone_after lone (cur ++ String c "")%string = Py.is_ascii c.
Proof. revert lone. induction cur as [|a cur IH]; intros lone; [done | apply IH]. Qed.

Lemma spaceless_has_space lone cur s : spaceless lone cur s -> has_space_from lone cur = false.
Proof.
  revert lone. induction cur as [|a cur IH]; intros lone; [done |]. intros [Ha Hcur].
  cbn [has_space_from]. rewrite (IH _ Hcur), orb_false_r.
  destruct (decide (Py.space_width lone (String a cur) = 0)) as [-> | Hne]; [done |].
  rewrite (space_width_app _ _ s Hne) in Ha. done.
Qed.

Lemma split_from_tokens s :
  forall skip lone cur,
    (skip = 0 -> lone = lone_after true cur) -> (skip <> 0 -> cur = "") ->
    spaceless true cur s -> Forall token (Py.split_from skip lone cur s).
Proof.
  induction s as [|c s IH]; intros skip lone cur Hlone Hskip Hcur.
  - simpl. case_decide; [constructor |]. constructor; [| constructor].
    split; [done | by eapply spaceless_has_space].
  - cbn [Py.split_from]. destruct skip as [|k].
    + rewrite (Hlone eq_refl).
      destruct (Py.space_width (lone_after true cur) (String c s)) as [|k] eqn:Hw.
      * apply IH; [intros _; by rewrite lone_after_snoc | done | by apply spaceless_snoc].
      * assert (Hnext : Forall token (Py.split_from k true "" s)).
        { apply IH; [done | done | exact I]. }
        case_decide; [exact Hnext |]. constructor; [| exact Hnext].
        split; [done | by eapply spaceless_has_space].
    + rewrite (Hskip ltac:(done)). apply IH; [done | done | exact I].
Qed.

Lemma split_tokens s : Forall token (Py.split s).
Proof. apply split_from_tokens; [done | done | exact I]. Qed.

Lemma split_from_token lone cur t s :
  has_space_from lone t = false -> s = "" \/ (exists s', s = String " " s') ->
  Py.split_from 0 lone cur (t ++ s)%string
  = Py.split_from 0 (lone_after lone t) (cur ++ t)%string s.
Proof.
  intros Ht Hs. revert lone cur Ht. induction t as [|c t IH]; intros lone cur Ht.
  - by rewrite append_nil_r.
  - cbn [has_space_from] in Ht. apply orb_false_elim in Ht as [Hc Ht].
    apply negb_false_iff, Nat.eqb_eq in Hc.
    rewrite append_cons. cbn [Py.split_from lone_after].
    assert (Hw : Py.space_width lone (String c (t ++ s)) = 0).
    { destruct Hs as [-> | [s' ->]]; [by rewrite append_nil_r |].
      rewrite <- append_cons, space_width_blank; done. }
    rewrite Hw, IH by done. by rewrite append_assoc.
Qed.

Lemma split_join_tokens toks :
  Forall token toks -> Py.split (Py.join " " toks) = toks.
Proof.
  unfold Py.split, Py.join.
  induction 1 as [|t toks [Hne Ht] Htoks IH]; [done |].
  destruct toks as [|t' toks].
  - simpl. rewrite <- (append_nil_r t) at 1. rewrite split_from_token; [| done | by left].
    simpl. by rewrite decide_False.
  - change (String.concat " " (t :: t' :: toks))
      with (t ++ String " " (String.concat " " (t' :: toks)))%string.
    rewrite split_from_token; [| done | right; by eexists].
    change ("" ++ t)%string with t.
    change (Py.split_from 0 ?l t (String " " ?x))
      with (if decide (t = EmptyString) then Py.split_from 0 true EmptyString x
            else t :: Py.split_from 0 true EmptyString x).
    rewrite decide_False by done. f_equal. exact IH.
Qed.

(** X1.  Construction reads every argument string of the tool's
    configuration with [strip().split()]: in the launcher it builds, no
    token of the common, time-limit and random-data arguments, nor of any
    entry of the access, pattern and access-pattern tables, is empty or
    holds a white-space character, of ASCII or not, whatever the
    configuration holds.  A tool the configuration lacks is a [KeyError]
    on its name. *)
Theorem _init_args_tokens c key a :
  match config a !! key with
  | None => _init_args c key a = Raise (KeyError key)
  | Some _ =>
      exists l, _init_args c key a = OK l
        /\ Forall token (_common_args l)
        /\ Forall token (_timelimit_args l)
        /\ Forall token (_random_data_args l)
        /\ (forall k v, _access_args l !! k = Some v -> Forall token v)
        /\ (forall k v, _pattern_args l !! k = Some v -> Forall token v)
        /\ (forall k k' m v, _access_pattern_args l !! k = Some m -> m !! k' = Some v ->
            Forall token v)
  end.
Proof.
  unfold _init_args. destruct (config a !! key) as [t|]; [| done].
  eexists. split; [reflexivity |]. cbn [_common_args _timelimit_args _random_data_args
    _access_args _pattern_args _access_pattern_args].
  repeat split; try apply split_tokens.
  - intros k v. rewrite lookup_fmap. destruct (access_args t !! k); [| done].
    intros [= <-]. apply split_tokens.
  - intros k v. rewrite lookup_fmap. destruct (pattern_args t !! k); [| done].
    intros [= <-]. apply split_tokens.
  - intros k k' m v. rewrite lookup_fmap.
    destruct (default ∅ (access_pattern_args t) !! k) as [m0|]; [| done].
    intros [= <-]. rewrite lookup_fmap. destruct (m0 !! k'); [| done].
    intros [= <-]. apply split_tokens.
Qed.

(** X2.  A configuration string that is its tokens joined by single
    blanks is read back as exactly those tokens, a token being a string
    that is not empty and holds no white-space character, of ASCII or not:
    the common arguments of the launcher are the tokens the configuration
    spells out, in order. *)
Theorem _init_args_common_args c key a t toks :
  config a !! key = Some t ->
  Forall token toks ->
  common_args t = Py.join " " toks ->
  exists l, _init_args c key a = OK l /\ _common_args l = toks.
Proof.
  intros Ht Htoks Hc. unfold _init_args. rewrite Ht. eexists. split; [reflexivity |].
  cbn [_common_args]. rewrite Hc. by apply split_join_tokens.
Qed.

Lemma _init_args_common_args_witness :
  exists l, _init_args Ior "ior" (Sample.init false) = OK l /\ _common_args l = ["-F"; "-e"].
Proof.
  eapply (_init_args_common_args Ior "ior" (Sample.init false) _ ["-F"; "-e"]).
  - vm_compute. reflexivity.
  - repeat constructor; vm_compute; discriminate.
  - vm_compute. reflexivity.
Defined.
(** ** The thread count of elbencho *)

Lemma index_of_None x l : x ∉ l -> index_of x l = None.
Proof.
  induction l as [|y l IH]; [done |]. intros H. apply not_elem_of_cons in H as [Hxy Hl].
  simpl. rewrite decide_False by done. by rewrite IH.
Qed.

Lemma index_of_app x pre rest :
  x ∉ pre -> index_of x (pre ++ x :: rest) = Some (length pre).
Proof.
  induction pre as [|y pre IH]; intros H; simpl.
  - by rewrite decide_True.
  - apply not_elem_of_cons in H as [Hxy Hl].
    rewrite decide_False by done. by rewrite IH.
Qed.

Lemma insert_after_prefix (pre : list string) flag v rest :
  <[length pre + 1 := v]> (pre ++ flag :: rest)
  = pre ++ flag :: match rest with [] => [] | _ :: post => v :: post end.
Proof.
  rewrite insert_app_r_alt by lia.
  replace (length pre + 1 - length pre) with 1 by lia. by destruct rest.
Qed.

(** X3.  [ElbenchoLauncher.__init__] writes the process count over the
    token that follows the first [-t] of the common arguments, or, when
    there is no [-t], over the token that follows the first [--threads]:
    every other token keeps its place.  When the flag is the last token
    there is nothing to overwrite and construction raises [IndexError]. *)
Theorem ElbenchoLauncher_threads a t flag pre rest :
  config a !! "elbencho" = Some t ->
  Py.split (common_args t) = pre ++ flag :: rest ->
  flag ∉ pre ->
  flag = "-t" \/ (flag = "--threads" /\ "-t" ∉ Py.split (common_args t)) ->
  match rest with
  | [] => ElbenchoLauncher a = Raise (IndexError "list assignment index out of range")
  | _ :: post =>
      exists l, ElbenchoLauncher a = OK l
        /\ _common_args l = pre ++ flag :: Py.str_int (ppn a) :: post
        /\ _init_args Elbencho "elbencho" a = OK (with_common_args (pre ++ flag :: rest) l)
  end.
Proof.
  intros Ht Hsplit Hpre Hflag. unfold ElbenchoLauncher, _init_args. rewrite Ht.
  cbn [_common_args _ppn]. 
  assert (Hidx : match index_of "-t" (Py.split (common_args t)) with
                 | Some i => i
                 | None => default 0 (index_of "--threads" (Py.split (common_args t)))
                 end = length pre).
  { destruct Hflag as [-> | [-> Hno]].
    - by rewrite Hsplit, index_of_app.
    - rewrite (index_of_None _ _ Hno). by rewrite Hsplit, index_of_app. }
  rewrite Hidx, Hsplit, length_app. cbn [length].
  destruct rest as [|old post].
  - rewrite decide_False by (simpl; lia). done.
  - rewrite decide_True by (simpl; lia). eexists. split; [reflexivity |].
    cbn [_common_args with_common_args]. by rewrite insert_after_prefix.
Qed.

Lemma ElbenchoLauncher_threads_witness :
  exists l, ElbenchoLauncher (Sample.init false) = OK l
    /\ _common_args l = [] ++ "--threads" :: Py.str_int 4 :: ["--sync"]
    /\ _init_args Elbencho "elbencho" (Sample.init false)
       = OK (with_common_args ([] ++ "--threads" :: ["1"; "--sync"]) l).
Proof.
  eapply (ElbenchoLauncher_threads (Sample.init false) _ "--threads" [] ["1"; "--sync"]).
  - vm_compute. reflexivity.
  - vm_compute. reflexivity.
  - apply not_elem_of_nil.
  - right. split; [reflexivity |]. vm_compute.
    intros H. repeat (apply elem_of_cons in H as [H | H]; [discriminate H |]).
    by apply elem_of_nil in H.
Defined.

(** X4.  With neither [-t] nor [--threads] among the common arguments,
    [ElbenchoLauncher.__init__] still writes the process count, over the
    second token whatever it is; with fewer than two tokens it raises
    [IndexError]. *)
Theorem ElbenchoLauncher_no_thread_flag a t :
  config a !! "elbencho" = Some t ->
  "-t" ∉ Py.split (common_args t) ->
  "--threads" ∉ Py.split (common_args t) ->
  match Py.split (common_args t) with
  | first :: _ :: post =>
      exists l, ElbenchoLauncher a = OK l
        /\ _common_args l = first :: Py.str_int (ppn a) :: post
  | _ => ElbenchoLauncher a = Raise (IndexError "list assignment index out of range")
  end.
Proof.
  intros Ht H1 H2. unfold ElbenchoLauncher, _init_args. rewrite Ht.
  cbn [_common_args _ppn]. rewrite (index_of_None _ _ H1), (index_of_None _ _ H2).
  cbn [default].
  destruct (Py.split (common_args t)) as [|first [|second post]].
  - done.
  - done.
  - rewrite decide_True by (simpl; lia). eexists. split; reflexivity.
Qed.

Lemma ElbenchoLauncher_no_thread_flag_witness :
  exists l, ElbenchoLauncher flagless = OK l /\ _common_args l = ["--sync"; "4"; "--nolive"].
Proof.
  assert (Hno : forall flag, flag = "-t" \/ flag = "--threads" ->
                  flag ∉ Py.split (common_args flagless_tool)).
  { intros flag Hflag H. vm_compute in H.
    repeat (apply elem_of_cons in H as [H | H]; [destruct Hflag; congruence |]).
    by apply elem_of_nil in H. }
  exact (ElbenchoLauncher_no_thread_flag flagless flagless_tool eq_refl
           (Hno _ (or_introl eq_refl)) (Hno _ (or_intror eq_refl))).
Defined.
(** ** The command line, fragment by fragment *)

Lemma extend_at toks c l :
  extend toks (with_cmdline c l) = (OK tt, with_cmdline (c ++ toks) l).
Proof. reflexivity. Qed.

Lemma _add_timelimit_at c l :
  _add_timelimit (with_cmdline c l) = (OK tt, with_cmdline (c ++ timelimit_tokens l) l).
Proof.
  unfold _add_timelimit, timelimit_tokens. rewrite bind_eq. simpl.
  destruct (decide (_timelimit l = 0%Z)); [by rewrite app_nil_r | done].
Qed.

Lemma _add_random_data_at c l :
  _add_random_data (with_cmdline c l) = (OK tt, with_cmdline (c ++ random_data_tokens l) l).
Proof.
  unfold _add_random_data, random_data_tokens. rewrite bind_eq. simpl.
  destruct (_random_data l); [done | by rewrite app_nil_r].
Qed.

Lemma _add_results_file_at isfile c l :
  _add_results_file isfile (with_cmdline c l)
  = (OK tt, with_cmdline (c ++ match cls l with
                               | Elbencho => results_tokens isfile l
                               | _ => []
                               end) l).
Proof.
  unfold _add_results_file, results_tokens. rewrite bind_eq. simpl.
  destruct (cls l), (_stdout l); try (by rewrite app_nil_r).
  destruct (isfile name); [done | by rewrite app_nil_r].
Qed.

Lemma _add_output_dir_at c l :
  _add_output_dir (with_cmdline c l)
  = (OK tt, with_cmdline (c ++ match cls l with
                               | Elbencho => _output_dir l
                               | _ => first_output_dir l
                               end) l).
Proof.
  unfold _add_output_dir, first_output_dir. rewrite bind_eq. simpl.
  destruct (_output_dir l), (cls l); try done; by rewrite app_nil_r.
Qed.

Lemma _add_hosts_mpirun mpirun_bin rest c l :
  cls l <> Elbencho ->
  _add_hosts mpirun_bin (with_cmdline (mpirun_bin :: rest ++ c) l)
  = (OK tt, with_cmdline (mpirun_bin :: nodelist_tokens l ++ rest ++ c) l).
Proof.
  intros Hc. unfold _add_hosts, nodelist_tokens. rewrite bind_eq. simpl.
  destruct (_hosts l); [| done].
  destruct (cls l); [done | |]; by rewrite decide_True.
Qed.

Lemma for_each_kwargs kw c l :
  for_each kw (fun kv => extend (kwarg_tokens kv)) (with_cmdline c l)
  = (OK tt, with_cmdline (c ++ flat_map kwarg_tokens kw) l).
Proof.
  revert c. induction kw as [|kv kw IH]; intros c; simpl.
  - by rewrite app_nil_r.
  - rewrite bind_eq, extend_at, IH. by rewrite <- app_assoc.
Qed.

Lemma prep_tail_at access pattern a p c l :
  _access_args l !! access = Some a ->
  _pattern_args l !! pattern = Some p ->
  (extend (_common_args l) ;; prep_tail l access pattern) (with_cmdline c l)
  = (OK tt,
     with_cmdline (c ++ workload_tokens l access pattern a p
                     ++ match cls l with
                        | Elbencho => _output_dir l
                        | _ => first_output_dir l
                        end) l).
Proof.
  intros Ha Hp. unfold prep_tail, getitem, workload_tokens. rewrite Ha, Hp.
  rewrite bind_eq, extend_at. rewrite bind_eq. unfold mret at 1, M_ret at 1.
  rewrite bind_eq, extend_at. rewrite bind_eq. unfold mret at 1, M_ret at 1.
  rewrite bind_eq, extend_at, bind_eq, extend_at, bind_eq, for_each_kwargs.
  rewrite _add_output_dir_at. by rewrite <- !app_assoc.
Qed.

Lemma _prep_cmdline_start mpirun_bin isfile access pattern l :
  _prep_cmdline mpirun_bin isfile access pattern l
  = (_add_hosts mpirun_bin ;;
     _add_timelimit ;;
     _add_random_data ;;
     _add_results_file isfile ;;
     extend (_common_args l) ;;
     prep_tail l access pattern) (with_cmdline (_prepend_cmdline l ++ [_binary l]) l).
Proof.
  unfold _prep_cmdline. rewrite bind_eq. simpl. rewrite bind_eq. simpl.
  destruct (_prepend_cmdline l) eqn:Hp; rewrite bind_eq; simpl; rewrite bind_eq; simpl;
    reflexivity.
Qed.

Lemma _prep_cmdline_after_hosts mpirun_bin isfile access pattern l a p c :
  _add_hosts mpirun_bin (with_cmdline (_prepend_cmdline l ++ [_binary l]) l)
  = (OK tt, with_cmdline c l) ->
  _access_args l !! access = Some a ->
  _pattern_args l !! pattern = Some p ->
  _prep_cmdline mpirun_bin isfile access pattern l
  = (OK tt,
     with_cmdline
       (c ++ timelimit_tokens l ++ random_data_tokens l
          ++ match cls l with
             | Elbencho => results_tokens isfile l
             | _ => []
             end
          ++ workload_tokens l access pattern a p
          ++ match cls l with
             | Elbencho => _output_dir l
             | _ => first_output_dir l
             end) l).
Proof.
  intros Hh Ha Hp. rewrite _prep_cmdline_start, bind_eq, Hh.
  rewrite bind_eq, _add_timelimit_at, bind_eq, _add_random_data_at.
  rewrite bind_eq, _add_results_file_at, (prep_tail_at _ _ _ _ _ _ Ha Hp).
  by rewrite <- !app_assoc.
Qed.

Lemma assemble_eq mpirun_bin isfile access pattern kwargs l :
  assemble mpirun_bin isfile access pattern kwargs l
  = _prep_cmdline mpirun_bin isfile access pattern
      (with_kwargs (Py.dict_update (_kwargs l) kwargs) l).
Proof. reflexivity. Qed.

(** X5.  The command line of elbencho, for an access mode and a pattern the
    tables know: the binary (after the prefix, which construction leaves
    empty), the inline host list, the time limit, the random-data switch,
    the results files, the workload's arguments, and last every output
    directory. *)
Theorem _prep_cmdline_elbencho mpirun_bin isfile access pattern l a p :
  cls l = Elbencho ->
  _access_args l !! access = Some a ->
  _pattern_args l !! pattern = Some p ->
  _prep_cmdline mpirun_bin isfile access pattern l
  = (OK tt,
     with_cmdline
       (_prepend_cmdline l ++ [_binary l] ++ hosts_tokens l ++ timelimit_tokens l
          ++ random_data_tokens l ++ results_tokens isfile l
          ++ workload_tokens l access pattern a p ++ _output_dir l) l).
Proof.
  intros Hc Ha Hp.
  rewrite (_prep_cmdline_after_hosts _ _ _ _ _ _ _ _ (_add_hosts_elbencho _ _ _ Hc) Ha Hp), Hc.
  by rewrite <- !app_assoc.
Qed.

Lemma _prep_cmdline_elbencho_witness :
  _prep_cmdline "srun" (fun _ => true) "read" "bw"
    (with_stdout (SFile 0 "x.out") (Sample.elbencho false))
  = (OK tt,
     with_cmdline
       ["/opt/elbencho"; "--hosts"; "n1,n2"; "--timelimit"; "45"; "--randdata";
        "--resfile"; "x.out.results"; "--csvfile"; "x.out.csv";
        "--threads"; "4"; "--sync"; "--read"; "--size"; "1t"; "--block"; "1m";
        "/scratch/out"]
       (with_stdout (SFile 0 "x.out") (Sample.elbencho false))).
Proof.
  exact (_prep_cmdline_elbencho "srun" (fun _ => true) "read" "bw"
           (with_stdout (SFile 0 "x.out") (Sample.elbencho false))
           ["--read"] ["--size"; "1t"; "--block"; "1m"] eq_refl eq_refl eq_refl).
Defined.

(** X6.  The command line of the two adapters started through the job
    launcher, when the prefix begins with [MPIRUN_BIN] as construction
    leaves it: the node list comes right after the launcher's name, before
    the rest of the prefix and the binary; no results file is named, and of
    the output directories only the first is passed, after [-o]. *)
Theorem _prep_cmdline_mpirun mpirun_bin isfile access pattern l rest a p :
  cls l <> Elbencho ->
  _prepend_cmdline l = mpirun_bin :: rest ->
  _access_args l !! access = Some a ->
  _pattern_args l !! pattern = Some p ->
  _prep_cmdline mpirun_bin isfile access pattern l
  = (OK tt,
     with_cmdline
       (mpirun_bin :: nodelist_tokens l ++ rest ++ [_binary l] ++ timelimit_tokens l
          ++ random_data_tokens l ++ workload_tokens l access pattern a p
          ++ first_output_dir l) l).
Proof.
  intros Hc Hpre Ha Hp.
  assert (Hh : _add_hosts mpirun_bin (with_cmdline (_prepend_cmdline l ++ [_binary l]) l)
               = (OK tt, with_cmdline (mpirun_bin :: nodelist_tokens l ++ rest ++ [_binary l]) l)).
  { rewrite Hpre. by apply (_add_hosts_mpirun mpirun_bin rest [_binary l] l). }
  rewrite (_prep_cmdline_after_hosts _ _ _ _ _ _ _ _ Hh Ha Hp).
  destruct (cls l); [done | |]; simpl; by rewrite <- !app_assoc.
Qed.

Lemma _prep_cmdline_mpirun_witness :
  _prep_cmdline "srun" (fun _ => true) "write" "iops"
    (with_stdout (SFile 0 "x.out") (Sample.ior false))
  = (OK tt,
     with_cmdline
       ["srun"; "--nodelist"; "n1,n2"; "-N"; "2"; "-n"; "8"; "/opt/ior"; "-D"; "45";
        "-F"; "-e"; "-w"; "-t"; "4k"; "-z"; "-Y"; "-o"; "/scratch/out"]
       (with_stdout (SFile 0 "x.out") (Sample.ior false))).
Proof.
  assert (Hc : cls (with_stdout (SFile 0 "x.out") (Sample.ior false)) <> Elbencho)
    by discriminate.
  exact (_prep_cmdline_mpirun "srun" (fun _ => true) "write" "iops"
           (with_stdout (SFile 0 "x.out") (Sample.ior false))
           ["-N"; "2"; "-n"; "8"] ["-w"] ["-t"; "4k"; "-z"] Hc eq_refl eq_refl eq_refl).
Defined.
(** ** The launcher methods outside dry-run mode *)

Lemma assemble_ok mpirun_bin isfile access pattern kwargs l :
  launcher_ok mpirun_bin l ->
  is_Some (_access_args l !! access) ->
  is_Some (_pattern_args l !! pattern) ->
  exists c,
    assemble mpirun_bin isfile access pattern kwargs l
    = (OK tt, with_cmdline c (with_kwargs (Py.dict_update (_kwargs l) kwargs) l)).
Proof.
  intros Hok [a Ha] [p Hp]. rewrite assemble_eq.
  set (l1 := with_kwargs (Py.dict_update (_kwargs l) kwargs) l).
  destruct (succeeds__add_hosts mpirun_bin (_prepend_cmdline l1 ++ [_binary l1]) l1) as [c Hc].
  { destruct Hok as [He | [rest Hr]]; [by left | right].
    exists (rest ++ [_binary l1]). unfold l1. cbn [_prepend_cmdline with_kwargs]. by rewrite Hr. }
  rewrite (_prep_cmdline_after_hosts _ _ _ _ _ a p _ Hc Ha Hp). by eexists.
Qed.

(** X7.  Outside dry-run mode, [run] on a launcher as construction leaves
    it, with an access mode and a pattern its tables know, starts exactly
    one process and returns its handle.  The process gets the command line
    the assembly built, and, for each of stdout and stderr, the stream
    given in the call or else the launcher's own; the log names the
    command line and both destinations first.  Afterwards the launcher
    holds the merged keyword arguments and an empty command line, and its
    own streams are as they were. *)
Theorem run_launches self access pattern out err kwargs w l :
  heap w !! self = Some l ->
  launcher_ok (MPIRUN_BIN w) l ->
  _test l = false ->
  is_Some (_access_args l !! access) ->
  is_Some (_pattern_args l !! pattern) ->
  exists c w',
    assemble (MPIRUN_BIN w) (isfile w) access pattern kwargs l
    = (OK tt, with_cmdline c (with_kwargs (Py.dict_update (_kwargs l) kwargs) l))
    /\ run self access pattern out err kwargs w = (OK (Some (next_id w)), w')
    /\ trace w'
       = trace w
           ++ [EvLog INFO ("Executing: " ++ Py.join " " c);
               EvLog DEBUG ("Directing stdout to " ++ pipe_target (default (_stdout l) out));
               EvLog DEBUG ("Directing stderr to " ++ pipe_target (default (_stderr l) err));
               EvPopen (next_id w) c (default (_stdout l) out) (default (_stderr l) err)]
    /\ heap w'
       = <[self := with_cmdline [] (with_kwargs (Py.dict_update (_kwargs l) kwargs) l)]> (heap w)
    /\ next_id w' = S (next_id w)
    /\ files w' = files w.
Proof.
  intros Hl Hok Ht Ha Hp.
  destruct (assemble_ok (MPIRUN_BIN w) (isfile w) access pattern kwargs l Hok Ha Hp) as [c Hc].
  exists c. eexists. split; [exact Hc |].
  rewrite (run_at _ _ _ _ _ _ _ _ Hl), Hc. unfold run_outcome, run_events.
  cbn [fst snd]. rewrite Ht. split; [reflexivity |]. by repeat split.
Qed.

Lemma run_launches_witness :
  exists c w',
    assemble "srun" (isfile (Sample.adapters false)) "read" "bw" [("dryrun", Py.VBool true)]
      (Sample.ior false)
    = (OK tt, with_cmdline c (with_kwargs [("dryrun", Py.VBool true)] (Sample.ior false)))
    /\ run 1 "read" "bw" (Some SPipe) None [("dryrun", Py.VBool true)] (Sample.adapters false)
       = (OK (Some 0), w')
    /\ trace w'
       = [] ++ [EvLog INFO ("Executing: " ++ Py.join " " c);
                EvLog DEBUG "Directing stdout to subprocess.PIPE";
                EvLog DEBUG "Directing stderr to nowhere";
                EvPopen 0 c SPipe SNone]
    /\ heap w'
       = [Sample.elbencho false;
          with_cmdline [] (with_kwargs [("dryrun", Py.VBool true)] (Sample.ior false));
          Sample.mdworkbench false]
    /\ next_id w' = 1
    /\ files w' = [].
Proof.
  exact (run_launches 1 "read" "bw" (Some SPipe) None [("dryrun", Py.VBool true)]
           (Sample.adapters false) (Sample.ior false) eq_refl
           (or_intror (ex_intro _ _ eq_refl)) eq_refl
           (ex_intro _ _ eq_refl) (ex_intro _ _ eq_refl)).
Defined.

(** X8.  Outside dry-run mode, the preflight of the two adapters that
    have one starts one process through the job launcher, one task on each
    node of the host list, with both streams on pipes.  Elbencho's starts
    the service, returns no handle, so that the scheduler does not wait for
    the service to end, and sleeps five seconds instead; md-workbench's
    runs the precreation phase with the common arguments and returns the
    handle.  Both leave the launcher's command line empty. *)
Theorem preflight_launches self w l hs :
  heap w !! self = Some l ->
  _test l = false ->
  _hosts l = Some hs ->
  cls l <> Ior ->
  let n := Py.str_int (Z.of_nat (length hs)) in
  let c := [MPIRUN_BIN w; "-N"; n; "-n"; n; "--nodelist"; Py.join "," hs; _binary l]
             ++ (if decide (cls l = Elbencho) then ["--service"; "--foreground"]
                 else "-1" :: _common_args l) in
  exists w',
    preflight self w
    = (OK (if decide (cls l = Elbencho) then None else Some (next_id w)), w')
    /\ trace w'
       = trace w
           ++ [EvLog INFO "Launching preflight"; EvLog INFO (Py.join " " c);
               EvPopen (next_id w) c SPipe SPipe]
           ++ (if decide (cls l = Elbencho) then [EvSleep 5] else [])
    /\ heap w' = <[self := with_cmdline [] l]> (heap w)
    /\ next_id w' = S (next_id w).
Proof.
  intros Hl Ht Hh Hc n c. rewrite (preflight_at _ _ _ Hl).
  unfold service_outcome, service_events, service_cmdline, len_hosts, join_hosts.
  rewrite Hh, Ht. subst c n. destruct (cls l); [| done |].
  - rewrite decide_True by done. eexists. split; [reflexivity |]. by repeat split.
  - rewrite decide_False by done. eexists. split; [reflexivity |]. by repeat split.
Qed.

Lemma preflight_launches_witness :
  exists w',
    preflight 2 (Sample.adapters false) = (OK (Some 0), w')
    /\ trace w'
       = [] ++ [EvLog INFO "Launching preflight";
                EvLog INFO "srun -N 2 -n 2 --nodelist n1,n2 /opt/md-workbench -1 -I 10";
                EvPopen 0 ["srun"; "-N"; "2"; "-n"; "2"; "--nodelist"; "n1,n2";
                           "/opt/md-workbench"; "-1"; "-I"; "10"] SPipe SPipe]
           ++ []
    /\ heap w' = [Sample.elbencho false; Sample.ior false;
                  with_cmdline [] (Sample.mdworkbench false)]
    /\ next_id w' = 1.
Proof.
  assert (Hc : cls (Sample.mdworkbench false) <> Ior) by discriminate.
  exact (preflight_launches 2 (Sample.adapters false) (Sample.mdworkbench false) ["n1"; "n2"]
           eq_refl eq_refl eq_refl Hc).
Defined.

(** X9.  On a launcher without a host list, the preflight of the two
    adapters that have one raises [TypeError] when it takes the length of
    the list, in dry-run mode too: the banner is in the log, nothing is
    launched and the launcher is as it was. *)
Theorem preflight_without_hosts self w l :
  heap w !! self = Some l ->
  _hosts l = None ->
  cls l <> Ior ->
  exists w',
    preflight self w = (Raise (TypeError "object of type 'NoneType' has no len()"), w')
    /\ trace w' = trace w ++ [EvLog INFO "Launching preflight"]
    /\ heap w' = heap w
    /\ next_id w' = next_id w.
Proof.
  intros Hl Hh Hc. rewrite (preflight_at _ _ _ Hl).
  unfold service_outcome, service_cmdline, len_hosts. rewrite Hh.
  destruct (cls l); [| done |]; eexists; (split; [reflexivity |]); by repeat split.
Qed.

Lemma preflight_without_hosts_witness :
  exists w',
    preflight 0 (Sample.world [hostless])
    = (Raise (TypeError "object of type 'NoneType' has no len()"), w')
    /\ trace w' = [] ++ [EvLog INFO "Launching preflight"]
    /\ heap w' = [hostless]
    /\ next_id w' = 0.
Proof.
  assert (Hc : cls hostless <> Ior) by discriminate.
  exact (preflight_without_hosts 0 (Sample.world [hostless]) hostless eq_refl eq_refl Hc).
Defined.

(** X10.  Outside dry-run mode, elbencho's [teardown] starts two
    processes.  The first is the cleanup: the command line of the access
    mode [clean], whatever access mode the call names, assembled while the
    launcher's streams are [None], so that it names no results file; its
    streams are pipes, and [teardown] waits for it.  The second, started
    after that wait, shuts the service down on the launcher's hosts; its
    handle is the one returned, after a sleep of five seconds. *)
Theorem elbencho_teardown_launches self access pattern kwargs w l a p :
  heap w !! self = Some l ->
  cls l = Elbencho ->
  _test l = false ->
  _access_args l !! "clean" = Some a ->
  _pattern_args l !! pattern = Some p ->
  let l1 := with_kwargs (Py.dict_update (_kwargs l) kwargs) l in
  let cleanup := _prepend_cmdline l ++ [_binary l] ++ hosts_tokens l ++ timelimit_tokens l
                   ++ random_data_tokens l ++ workload_tokens l1 "clean" pattern a p
                   ++ _output_dir l in
  let quit := [_binary l; "--quit"] ++ hosts_tokens l in
  exists w',
    teardown self access pattern kwargs w = (OK (Some (S (next_id w))), w')
    /\ trace w'
       = trace w
           ++ [EvLog INFO "Launching teardown - file cleanup";
               EvLog INFO ("Executing: " ++ Py.join " " cleanup);
               EvLog DEBUG "Directing stdout to subprocess.PIPE";
               EvLog DEBUG "Directing stderr to subprocess.PIPE";
               EvPopen (next_id w) cleanup SPipe SPipe;
               EvWait (next_id w);
               EvLog INFO "Launching teardown - service shutdown";
               EvLog INFO (Py.join " " quit);
               EvPopen (S (next_id w)) quit SPipe SPipe;
               EvSleep 5]
    /\ heap w' = <[self := with_cmdline [] l1]> (heap w).
Proof.
  intros Hl Hc Ht Ha Hp l1 cleanup quit.
  rewrite (teardown_at _ _ _ _ _ _ Hl), Hc, assemble_eq.
  set (l2 := with_kwargs _ (with_stderr SNone (with_stdout SNone l))).
  rewrite (_prep_cmdline_after_hosts (MPIRUN_BIN w) (isfile w) "clean" pattern l2 a p _
             (_add_hosts_elbencho _ _ l2 Hc) Ha Hp).
  change (cls l2) with (cls l). rewrite Hc.
  unfold elbencho_teardown_outcome, run_events. cbn [fst snd]. rewrite Ht.
  eexists. split; [reflexivity |]. split; [| reflexivity].
  cbn [trace after _cmdline with_cmdline]. unfold cleanup, quit, results_tokens.
  cbn [_stdout l2 with_kwargs with_stderr with_stdout].
  rewrite <- !app_assoc. reflexivity.
Qed.

Lemma elbencho_teardown_launches_witness :
  let l := with_stderr (SFile 0 "primary_quiet.2p-1s.123.out")
             (with_stdout (SFile 0 "primary_quiet.2p-1s.123.out") (Sample.elbencho false)) in
  let cleanup := ["/opt/elbencho"; "--hosts"; "n1,n2"; "--timelimit"; "45"; "--randdata";
                  "--threads"; "4"; "--sync"; "--delfiles"; "--size"; "1t"; "--block"; "1m";
                  "/scratch/out"] in
  let quit := ["/opt/elbencho"; "--quit"; "--hosts"; "n1,n2"] in
  exists w',
    teardown 0 "write" "bw" [] routed = (OK (Some 2), w')
    /\ trace w'
       = trace routed
           ++ [EvLog INFO "Launching teardown - file cleanup";
               EvLog INFO ("Executing: " ++ Py.join " " cleanup);
               EvLog DEBUG "Directing stdout to subprocess.PIPE";
               EvLog DEBUG "Directing stderr to subprocess.PIPE";
               EvPopen 1 cleanup SPipe SPipe;
               EvWait 1;
               EvLog INFO "Launching teardown - service shutdown";
               EvLog INFO (Py.join " " quit);
               EvPopen 2 quit SPipe SPipe;
               EvSleep 5]
    /\ heap w' = <[0 := with_cmdline [] (with_kwargs [] l)]> (heap routed).
Proof.
  exact (elbencho_teardown_launches 0 "write" "bw" [] routed
           (with_stderr (SFile 0 "primary_quiet.2p-1s.123.out")
              (with_stdout (SFile 0 "primary_quiet.2p-1s.123.out") (Sample.elbencho false)))
           ["--delfiles"] ["--size"; "1t"; "--block"; "1m"]
           eq_refl eq_refl eq_refl eq_refl eq_refl).
Defined.

(** X11.  When the access table of an elbencho launcher has no [clean]
    entry, [teardown] raises [KeyError] on [clean] from the assembly of the
    cleanup, after its banner and before anything is launched.  The
    statements that put the launcher's streams back are not reached: the
    launcher's stdout and stderr are left [None], whatever they were. *)
Theorem elbencho_teardown_without_clean self access pattern kwargs w l :
  heap w !! self = Some l ->
  cls l = Elbencho ->
  _access_args l !! "clean" = None ->
  exists w',
    teardown self access pattern kwargs w = (Raise (KeyError "clean"), w')
    /\ trace w' = trace w ++ [EvLog INFO "Launching teardown - file cleanup"]
    /\ get_stdout self w' = (OK SNone, w')
    /\ get_stderr self w' = (OK SNone, w')
    /\ next_id w' = next_id w.
Proof.
  intros Hl Hc Ha.
  rewrite (teardown_at _ _ _ _ _ _ Hl), Hc, assemble_eq.
  set (l2 := with_kwargs _ (with_stderr SNone (with_stdout SNone l))).
  destruct (_prep_cmdline_unknown_access (MPIRUN_BIN w) (isfile w) "clean" pattern l2)
    as [c Hprep]; [by left | exact Ha |].
  rewrite Hprep. unfold elbencho_teardown_outcome. cbn [fst snd].
  eexists. split; [reflexivity |]. split; [reflexivity |].
  rewrite (get_stdout_after _ _ _ _ _ _ (lookup_insert_self _ _ _ _ Hl)).
  rewrite (get_stderr_after _ _ _ _ _ _ (lookup_insert_self _ _ _ _ Hl)).
  by repeat split.
Qed.

Lemma elbencho_teardown_without_clean_witness :
  exists w',
    teardown 0 "write" "bw" [] (Sample.world [uncleanable]) = (Raise (KeyError "clean"), w')
    /\ trace w' = [] ++ [EvLog INFO "Launching teardown - file cleanup"]
    /\ get_stdout 0 w' = (OK SNone, w')
    /\ get_stderr 0 w' = (OK SNone, w')
    /\ next_id w' = 0.
Proof.
  exact (elbencho_teardown_without_clean 0 "write" "bw" [] (Sample.world [uncleanable])
           uncleanable eq_refl eq_refl eq_refl).
Defined.
(** ** What the launcher methods leave alone *)

Lemma same_setup_refl l : same_setup l l.
Proof. exists (_cmdline l), (_kwargs l). by destruct l. Qed.

Lemma same_setup_but_streams_refl l : same_setup_but_streams l l.
Proof.
  exists (_stdout l), (_stderr l), (_cmdline l), (_kwargs l). by destruct l.
Qed.

Lemma confined_same R self w evs n :
  (forall l, R l l) -> confined R self w (after w (heap w) evs n).
Proof. intros HR. repeat split; try done. intros l Hl. exists l. auto. Qed.

Lemma confined_refl R self w : (forall l, R l l) -> confined R self w w.
Proof. intros HR. repeat split; try done. intros l Hl. exists l. auto. Qed.

Lemma confined_after R self w l l' evs n :
  heap w !! self = Some l ->
  R l l' ->
  confined R self w (after w (<[self := l']> (heap w)) evs n).
Proof.
  intros Hl HR. split; [| split; [| split]]; simpl.
  - intros i Hi. by rewrite list_lookup_insert_ne.
  - by rewrite length_insert.
  - intros l0 Hl0. exists l'. split; [by eapply lookup_insert_self |]. congruence.
  - done.
Qed.

Lemma service_outcome_confined self l banner tail settle handle w :
  heap w !! self = Some l ->
  confined same_setup self w
    (service_outcome self l banner tail settle handle w (heap w) [] (next_id w)).2.
Proof.
  intros Hl. unfold service_outcome.
  destruct (service_cmdline _ l tail) as [c|e]; [| apply confined_same, same_setup_refl].
  destruct (_test l); cbn [snd]; apply (confined_after _ _ _ l); try done.
  - exists c, (_kwargs l). by destruct l.
  - exists [], (_kwargs l). by destruct l.
Qed.

Lemma confined_weaken self w w' :
  confined same_setup self w w' -> confined same_setup_but_streams self w w'.
Proof.
  intros (H1 & H2 & H3 & H4). repeat split; try done; try apply H4.
  intros l Hl. destruct (H3 l Hl) as (l' & Hl' & c & k & ->).
  exists (with_cmdline c (with_kwargs k l)). split; [done |].
  exists (_stdout l), (_stderr l), c, k. by destruct l.
Qed.

Lemma preflight_confined self w : confined same_setup self w (preflight self w).2.
Proof.
  destruct (heap w !! self) as [l|] eqn:Hl.
  - rewrite (preflight_at _ _ _ Hl).
    destruct (cls l); [| apply confined_refl, same_setup_refl |];
      by apply service_outcome_confined.
  - unfold preflight, deref. rewrite bind_eq, Hl. apply confined_refl, same_setup_refl.
Qed.

Lemma run_confined self access pattern out err kwargs w :
  confined same_setup self w (run self access pattern out err kwargs w).2.
Proof.
  destruct (heap w !! self) as [l|] eqn:Hl.
  - rewrite (run_at _ _ _ _ _ _ _ _ Hl).
    destruct (assemble_frame (MPIRUN_BIN w) (isfile w) access pattern kwargs l) as [c Hc].
    destruct (assemble _ _ _ _ _ l) as [[[]|e] l1]; simpl in Hc; subst l1;
      unfold run_outcome; cbn [fst snd].
    + destruct (_test l); cbn [snd]; apply (confined_after _ _ _ l); try done;
        by eexists _, _.
    + apply (confined_after _ _ _ l); [done | by eexists _, _].
  - unfold run, with_self. rewrite bind_eq, Hl. apply confined_refl, same_setup_refl.
Qed.

Lemma teardown_confined self access pattern kwargs w :
  confined same_setup_but_streams self w (teardown self access pattern kwargs w).2.
Proof.
  destruct (heap w !! self) as [l|] eqn:Hl.
  - rewrite (teardown_at _ _ _ _ _ _ Hl).
    destruct (cls l);
      [| apply confined_refl, same_setup_but_streams_refl
       | by apply confined_weaken, service_outcome_confined].
    destruct (assemble_frame (MPIRUN_BIN w) (isfile w) "clean" pattern kwargs
                (with_stderr SNone (with_stdout SNone l))) as [c Hc].
    destruct (assemble _ _ _ _ _ _) as [[[]|e] l1]; simpl in Hc; subst l1;
      unfold elbencho_teardown_outcome; cbn [fst snd].
    + destruct (_test l); cbn [snd]; apply (confined_after _ _ _ l); try done.
      * eexists (_stdout l), (_stderr l), _, _. reflexivity.
      * eexists (_stdout l), (_stderr l), _, _. reflexivity.
    + apply (confined_after _ _ _ l); [done |].
      eexists SNone, SNone, _, _. reflexivity.
  - unfold teardown, deref. rewrite bind_eq, Hl.
    apply confined_refl, same_setup_but_streams_refl.
Qed.

(** X12.  A call of [preflight], [run] or [teardown] on a launcher
    changes no other launcher, creates no file and does not read the
    clock, whether it returns or raises.  Of the launcher itself,
    [preflight] and [run] change at most the command-line buffer and the
    merged keyword arguments: the configuration read at construction, the
    hosts, the flags and the streams are as before; [teardown] may also
    leave other streams. *)
Theorem methods_confined self w :
  confined same_setup self w (preflight self w).2
  /\ (forall access pattern out err kwargs,
        confined same_setup self w (run self access pattern out err kwargs w).2)
  /\ (forall access pattern kwargs,
        confined same_setup_but_streams self w (teardown self access pattern kwargs w).2).
Proof.
  split; [apply preflight_confined |].
  split; [intros; apply run_confined | intros; apply teardown_confined].
Qed.
(** ** The barriers between the phases of the scheduler *)

Lemma returned_app m e1 e2 : returned m (e1 ++ e2) = returned m e1 + returned m e2.
Proof. unfold returned. by rewrite List.filter_app, length_app. Qed.

Ltac launched_after :=
  eexists; split; [apply steps_after | by repeat constructor].

Lemma service_outcome_launched self l banner tail settle handle w :
  exists evs,
    steps w (service_outcome self l banner tail settle handle w (heap w) [] (next_id w)).2 evs
    /\ Forall launched evs.
Proof.
  unfold service_outcome. destruct (service_cmdline _ l tail); [| launched_after].
  unfold service_events. destruct (_test l); [launched_after |].
  destruct settle; launched_after.
Qed.

Lemma preflight_launched self w :
  exists evs, steps w (preflight self w).2 evs /\ Forall launched evs.
Proof.
  destruct (heap w !! self) as [l|] eqn:Hl.
  - rewrite (preflight_at _ _ _ Hl). destruct (cls l).
    + apply service_outcome_launched.
    + exists []. split; [apply steps_refl | constructor].
    + apply service_outcome_launched.
  - unfold preflight, deref. rewrite bind_eq, Hl.
    exists []. split; [apply steps_refl | constructor].
Qed.

Lemma teardown_launched self access pattern kwargs w :
  exists evs,
    steps w (teardown self access pattern kwargs w).2 evs /\ Forall launched evs.
Proof.
  destruct (heap w !! self) as [l|] eqn:Hl.
  - rewrite (teardown_at _ _ _ _ _ _ Hl). destruct (cls l).
    + destruct (assemble _ _ _ _ _ _) as [[[]|e] l1];
        unfold elbencho_teardown_outcome, run_events; cbn [fst snd]; [| launched_after].
      destruct (_test l); launched_after.
    + exists []. split; [apply steps_refl | constructor].
    + apply service_outcome_launched.
  - unfold teardown, deref. rewrite bind_eq, Hl.
    exists []. split; [apply steps_refl | constructor].
Qed.

Lemma phase_event_launched m e : launched e -> phase_event m e = true.
Proof. by destruct e. Qed.

Lemma phase_launched m evs : Forall launched evs -> Forall (fun e => phase_event m e = true) evs.
Proof.
  intros H. eapply Forall_impl; [exact H |]. intros e. apply phase_event_launched.
Qed.

Lemma returned_launched m evs : Forall launched evs -> returned m evs = 0.
Proof.
  induction 1 as [|e evs He _ IH]; [done |].
  unfold returned in *. simpl. by destruct e.
Qed.

Lemma returned_other m m' evs :
  m <> m' -> Forall (fun e => phase_event m e = true) evs -> returned m' evs = 0.
Proof.
  intros Hm. induction 1 as [|e evs He _ IH]; [done |].
  unfold returned in *. simpl. destruct e; try done. simpl in *.
  apply bool_decide_eq_true in He as ->. by rewrite bool_decide_false.
Qed.

Lemma issued_other m m' evs :
  m <> m' -> Forall (fun e => phase_event m e = true) evs ->
  Forall (fun e => is_issued m' e = false) evs.
Proof.
  intros Hm H. eapply Forall_impl; [exact H |].
  intros e He. destruct e; try done. simpl in *.
  apply bool_decide_eq_true in He as ->. by rewrite bool_decide_false.
Qed.

Lemma guarded_free P m n k evs :
  Forall (fun e => P e = false) evs -> guarded P m n k evs.
Proof.
  intros Hall before e after -> HP.
  apply Forall_app in Hall as [_ Hall]. apply Forall_cons in Hall as [He _]. congruence.
Qed.

Lemma guarded_quiet P m n evs :
  returned m evs = 0 -> guarded P m n n evs.
Proof.
  intros Hz before e after -> _. rewrite returned_app in Hz. lia.
Qed.

Lemma guarded_app P m n k e1 e2 :
  guarded P m n k e1 -> guarded P m n (k + returned m e1) e2 -> guarded P m n k (e1 ++ e2).
Proof.
  intros H1 H2 before e after Heq HP.
  apply app_eq_inv in Heq as [(mid & -> & Hmid) | (mid & -> & Hmid)].
  - destruct mid as [|e' mid].
    + simpl in Hmid. subst e2. rewrite app_nil_r in H2.
      specialize (H2 [] e after eq_refl HP). unfold returned in H2 at 2. simpl in H2. lia.
    + injection Hmid as <- ->. by apply (H1 before e mid).
  - specialize (H2 mid e after Hmid HP). rewrite returned_app. lia.
Qed.

(** One call of the scheduler, whatever its outcome. *)
Lemma call_phase (m : method) (ref : nat) (call : M World (option nat)) w :
  (forall w0, exists evs, steps w0 (call w0).2 evs /\ Forall launched evs) ->
  let body := emit (EvIssued m ref) ;;
              prep_p ← call;
              emit (EvReturned m ref prep_p) ;;
              wait_if prep_p in
  exists evs,
    trace (body w).2 = trace w ++ evs
    /\ Forall (fun e => phase_event m e = true) evs
    /\ ((body w).1 = OK tt -> returned m evs = 1).
Proof.
  intros Hcall body. subst body. rewrite bind_eq, emit_eq. cbv beta iota.
  rewrite bind_eq.
  destruct (Hcall (emit (EvIssued m ref) w).2) as (evs & (Ht & _) & Hint).
  destruct (call _) as [[h|e] w2]; cbn [snd] in Ht.
  - rewrite bind_eq, emit_eq. cbv beta iota.
    exists ([EvIssued m ref] ++ evs ++ [EvReturned m ref h] ++ wait_events h).
    split; [| split].
    + destruct h as [p|]; simpl; rewrite Ht; simpl; rewrite <- !app_assoc; simpl;
        by rewrite ?app_nil_r.
    + apply Forall_app. split; [constructor; [simpl; by rewrite bool_decide_true | constructor] |].
      apply Forall_app. split; [by apply phase_launched |].
      constructor; [simpl; by rewrite bool_decide_true |]. destruct h; by repeat constructor.
    + intros _. rewrite !returned_app, (returned_launched _ _ Hint).
      unfold returned. simpl. rewrite bool_decide_true by done. by destruct h.
  - exists ([EvIssued m ref] ++ evs). split; [| split].
    + cbn [snd]. rewrite Ht. simpl. by rewrite <- app_assoc.
    + apply Forall_app. split; [constructor; [simpl; by rewrite bool_decide_true | constructor] |].
      by apply phase_launched.
    + intros H. discriminate H.
Qed.

(** A serial loop of calls, whatever its outcome. *)
Lemma loop_phase (m : method) (ref : Workload -> nat)
    (call : Workload -> M World (option nat)) ws :
  (forall wl w0, exists evs, steps w0 (call wl w0).2 evs /\ Forall launched evs) ->
  let loop := for_each ws (fun wl =>
                emit (EvIssued m (ref wl)) ;;
                prep_p ← call wl;
                emit (EvReturned m (ref wl) prep_p) ;;
                wait_if prep_p) in
  forall w,
  exists evs,
    trace (loop w).2 = trace w ++ evs
    /\ Forall (fun e => phase_event m e = true) evs
    /\ ((loop w).1 = OK tt -> returned m evs = length ws).
Proof.
  intros Hcall. induction ws as [|wl ws IH]; intros loop w.
  - exists []. subst loop. simpl. rewrite app_nil_r. by repeat split.
  - subst loop. cbn [for_each]. rewrite bind_eq.
    destruct (call_phase m (ref wl) (call wl) w (Hcall wl)) as (e1 & Ht1 & Hp1 & Hr1).
    cbv zeta in Ht1, Hr1.
    destruct ((emit (EvIssued m (ref wl)) ;; prep_p ← call wl;
               emit (EvReturned m (ref wl) prep_p) ;; wait_if prep_p) w) as [[[]|e] w1].
    + destruct (IH w1) as (e2 & Ht2 & Hp2 & Hr2). cbv zeta in Ht2, Hr2.
      exists (e1 ++ e2). split; [| split].
      * rewrite Ht2. cbn [snd] in Ht1. by rewrite Ht1, app_assoc.
      * by apply Forall_app.
      * intros Hok. rewrite returned_app, Hr1, Hr2 by done. done.
    + exists e1. split; [exact Ht1 |]. split; [exact Hp1 |]. intros H. discriminate H.
Qed.
(** *** The pool, whatever its outcome *)

Lemma returned_interleaved m evss evs :
  interleaved evss evs -> returned m evs = sum_list (returned m <$> evss).
Proof.
  intros H. unfold returned.
  rewrite (interleaved_length _ _ (interleaved_filter (is_returned m) _ _ H)).
  by rewrite <- list_fmap_compose.
Qed.

Lemma run_event_launched e : run_event e -> launched e.
Proof. by destruct e. Qed.

Lemma interleaved_split {A} (ls : list (list A)) before x after :
  interleaved ls (before ++ x :: after) ->
  exists i l1 l2, ls !! i = Some (l1 ++ x :: l2) /\ Forall (fun y => y ∈ before) l1.
Proof.
  revert ls. induction before as [|y before IH]; intros ls H.
  - inversion H as [| ? i ? l ? Hi _]; subst. by exists i, [], l.
  - inversion H as [| ? j ? l ? Hj Hrest]; subst.
    destruct (IH _ Hrest) as (i & l1 & l2 & Hi & Hl1).
    assert (Hweak : Forall (fun z => z ∈ y :: before) l1).
    { eapply Forall_impl; [exact Hl1 |]. intros z Hz. by right. }
    destruct (decide (i = j)) as [-> | Hne].
    + rewrite list_lookup_insert_eq in Hi by (by eapply lookup_lt_Some).
      injection Hi as ->. exists j, (y :: l1), l2. split; [exact Hj |].
      constructor; [left | exact Hweak].
    + rewrite list_lookup_insert_ne in Hi by done. by exists i, l1, l2.
Qed.

(** What a worker writes begins with its sleep and the issue of its run
    call, the only one it issues. *)
Lemma runs_worker_issue wl delay evs r :
  runs (_run_and_wait_after_delay wl delay) evs r ->
  ((delay < 0)%Z /\ evs = [])
  \/ ((0 <= delay)%Z
      /\ exists rest,
           evs = EvSleep delay :: EvIssued Run (launcher wl) :: rest
           /\ Forall (fun e => is_issued Run e = false) rest).
Proof.
  intros H. apply runs_worker in H as [(Hd & -> & _) | (Hd & inner & Hinner & H)]; [by left |].
  right. split; [exact Hd |].
  assert (Hquiet : Forall (fun e => is_issued Run e = false) inner).
  { eapply Forall_impl; [exact Hinner |]. by intros []. }
  destruct H as [(e & _ & ->) | (h & t & _ & ->)].
  - by exists inner.
  - eexists. split; [reflexivity |]. apply Forall_app. split; [exact Hquiet |].
    constructor; [done |]. constructor; [done |]. apply Forall_app.
    split; [destruct h; by repeat constructor | by repeat constructor].
Qed.

Lemma runs_worker_returned wl delay evs t :
  runs (_run_and_wait_after_delay wl delay) evs (OK t) -> returned Run evs = 1.
Proof.
  intros H. apply runs_worker in H as [(_ & _ & [=]) | (_ & inner & Hinner & H)].
  destruct H as [(e & [=] & _) | (h & t' & _ & ->)].
  rewrite !returned_app, (returned_launched Run inner).
  - unfold returned. simpl. by destruct h.
  - eapply Forall_impl; [exact Hinner |]. apply run_event_launched.
Qed.

Lemma pool_phase ws delay w :
  exists evs,
    trace (pool_starmap ws delay w).2 = trace w ++ evs
    /\ Forall (fun e => phase_event Run e = true) evs
    /\ staggered ws delay evs
    /\ (forall results, (pool_starmap ws delay w).1 = OK results ->
        returned Run evs = length ws /\ length results = length ws)
    /\ ((delay < 0)%Z -> 1 < length ws -> exists e, (pool_starmap ws delay w).1 = Raise e)
    /\ workers_phase ws delay evs.
Proof.
  unfold pool_starmap. case_decide.
  { exists []. simpl. rewrite app_nil_r.
    split; [done |]. split; [done |]. split; [intros before r after Heq; by destruct before |].
    split; [done |]. split; [lia |].
    exists []. split; [by repeat constructor |]. split; [simpl; lia |]. by intros idx wl l _ Hl. }
  set (threads := imap (fun idx wl => _run_and_wait_after_delay wl (delay * Z.of_nat idx)) ws).
  destruct (starmap_interleaves threads w) as (evss & evs & Ht & Hil & Hlen & Hth & Hres).
  { apply Forall_forall. intros t Ht. apply elem_of_lookup_imap_1 in Ht as (i & wl & -> & _).
    eapply acts_impl; [| by apply (worker_writes (fun _ => True))].
    intros w1 w2. apply writes_extends. }
  assert (Hn : length threads = length ws) by apply length_imap.
  rewrite Hn in Hlen.
  assert (Hworker : forall i l, evss !! i = Some l ->
            exists wl r,
              ws !! i = Some wl
              /\ runs (_run_and_wait_after_delay wl (delay * Z.of_nat i)) l r
              /\ forall results, (starmap threads w).1 = OK results -> exists t, r = OK t).
  { intros i l Hl. assert (Hi : i < length ws) by (rewrite <- Hlen; by eapply lookup_lt_Some).
    apply lookup_lt_is_Some_2 in Hi as [wl Hwl].
    destruct (Hth i (_run_and_wait_after_delay wl (delay * Z.of_nat i)))
      as (l' & r & Hl' & Hruns & Hok).
    { unfold threads. by rewrite list_lookup_imap, Hwl. }
    rewrite Hl in Hl'. injection Hl' as <-. exists wl, r. split; [done |]. split; [done |].
    intros results Hr. destruct (Hok results Hr) as (t & -> & _). by exists t. }
  exists evs. split; [exact Ht |]. split; [| split; [| split; [| split]]].
  - apply (interleaved_Forall _ evss); [exact Hil |].
    apply Forall_lookup. intros i l Hl. destruct (Hworker i l Hl) as (wl & r & _ & Hruns & _).
    eapply runs_writes; [| exact Hruns]. by apply worker_writes.
  - intros before r after ->.
    destruct (interleaved_split _ _ _ _ Hil) as (i & l1 & l2 & Hl & Hl1).
    destruct (Hworker i _ Hl) as (wl & r' & Hwl & Hruns & _).
    apply runs_worker_issue in Hruns as [[_ Hnil] | (Hd & rest & Heq & Hquiet)];
      [by destruct l1 |].
    exists i, wl. split; [exact Hwl |].
    destruct l1 as [|e0 [|e1 l1]].
    + discriminate Heq.
    + injection Heq as -> Hr _. split; [done |]. split; [exact Hd |].
      by apply Forall_cons in Hl1 as [Hin _].
    + injection Heq as _ _ Heq. exfalso.
      assert (Hin : EvIssued Run r ∈ rest).
      { rewrite <- Heq. apply elem_of_app. right. left. }
      apply (proj1 (Forall_forall _ _) Hquiet) in Hin. vm_compute in Hin. discriminate Hin.
  - intros results Hok. split; [| rewrite <- Hn; by apply Hres].
    rewrite (returned_interleaved _ _ _ Hil), sum_list_ones; [exact Hlen |].
    apply Forall_lookup. intros i l Hl. destruct (Hworker i l Hl) as (wl & r & _ & Hruns & Hr).
    destruct (Hr results Hok) as [t ->]. by eapply runs_worker_returned.
  - intros Hd Hlen2. destruct ((starmap threads w).1) as [results|e] eqn:Hr; [| by exists e].
    exfalso. destruct (lookup_lt_is_Some_2 evss 1) as [l Hl]; [lia |].
    destruct (Hworker 1 l Hl) as (wl & r & _ & Hruns & Hok).
    destruct (Hok results eq_refl) as [t ->].
    apply runs_worker in Hruns as [(_ & _ & [=]) | (Hpos & _)]. lia.
  - exists evss. split; [exact Hil |]. split; [exact Hlen |].
    intros idx wl l Hwl Hl. destruct (Hworker idx l Hl) as (wl' & r & Hwl' & Hruns & _).
    rewrite Hwl in Hwl'. injection Hwl' as <-. unfold worker_start.
    apply runs_worker_issue in Hruns as [[Hd ->] | (Hd & rest & -> & Hquiet)].
    + by rewrite decide_True by done.
    + rewrite decide_False by lia. by exists rest.
Qed.

(** The trace of an invocation of the scheduler, whatever its outcome:
    the events of the preflight phase, of the run phase and of the teardown
    phase, each phase begun only when the one before is complete. *)
Lemma run_launchers_trace ws delay w :
  exists e1 e2 e3,
    trace (run_launchers ws delay w).2 = trace w ++ e1 ++ e2 ++ e3
    /\ Forall (fun e => phase_event Preflight e = true) e1
    /\ Forall (fun e => phase_event Run e = true) e2
    /\ Forall (fun e => phase_event Teardown e = true) e3
    /\ staggered ws delay e2
    /\ (e2 <> [] -> returned Preflight e1 = length ws)
    /\ (e3 <> [] -> returned Run e2 = length ws)
    /\ (forall results, (run_launchers ws delay w).1 = OK results ->
        length results = length ws)
    /\ ((delay < 0)%Z -> 1 < length ws ->
        e3 = [] /\ exists e, (run_launchers ws delay w).1 = Raise e)
    /\ (e2 <> [] -> workers_phase ws delay e2).
Proof.
  assert (Hnone : staggered ws delay []).
  { intros before r after Heq. by destruct before. }
  unfold run_launchers. rewrite bind_eq.
  destruct (loop_phase Preflight launcher (fun wl => preflight (launcher wl)) ws
              (fun wl w0 => preflight_launched (launcher wl) w0) w) as (e1 & Ht1 & Hp1 & Hr1).
  cbv zeta in Ht1, Hr1.
  destruct (for_each ws _ w) as [[[]|e] w1]; cbn [fst snd] in *.
  2: { exists e1, [], []. rewrite !app_nil_r. repeat split; try done. by exists e. }
  specialize (Hr1 eq_refl). rewrite bind_eq.
  destruct (pool_phase ws delay w1) as (e2 & Ht2 & Hp2 & Hs2 & Hr2 & Hneg & Hw).
  destruct (pool_starmap ws delay w1) as [[results|e] w2]; cbn [fst snd] in *.
  2: { exists e1, e2, []. rewrite !app_nil_r. repeat split; try done.
       - by rewrite Ht2, Ht1, app_assoc.
       - by exists e. }
  destruct (Hr2 results eq_refl) as [Hret Hlen].
  rewrite bind_eq. change (time_sleep 5 w2) with (OK tt, (emit (EvSleep 5) w2).2).
  cbv beta iota. rewrite bind_eq.
  destruct (loop_phase Teardown launcher
              (fun wl => teardown (launcher wl) (access wl) (pattern wl) []) ws
              (fun wl w0 => teardown_launched (launcher wl) (access wl) (pattern wl) [] w0)
              (emit (EvSleep 5) w2).2) as (e3 & Ht3 & Hp3 & _).
  cbv zeta in Ht3.
  exists e1, e2, ([EvSleep 5] ++ e3).
  split; [| split; [| split; [| split; [| split; [| split; [| split; [| split; [| split]]]]]]]];
    try done.
  - destruct (for_each ws _ (emit (EvSleep 5) w2).2) as [[[]|e] w3];
      unfold mret, M_ret; cbn [snd] in *;
      rewrite Ht3, emit_trace, Ht2, Ht1; by rewrite <- !app_assoc.
  - apply Forall_app. split; [by repeat constructor | exact Hp3].
  - intros results'.
    destruct (for_each ws _ (emit (EvSleep 5) w2).2) as [[[]|e] w3];
      unfold mret, M_ret; cbn [fst]; [| discriminate]. by intros [= <-].
  - intros Hd Hlen2. destruct (Hneg Hd Hlen2) as [e He]. discriminate He.
Qed.

(** X13.  The barriers of the scheduler hold on every invocation, whether
    it returns or a call raises on the way: when a run call is issued,
    the preflight calls of all the workloads have returned, and when a
    teardown call is issued, the run calls of all the workloads have
    returned. *)
Theorem run_launchers_barriers workloads delay w :
  exists evs,
    trace (run_launchers workloads delay w).2 = trace w ++ evs
    /\ forall before e after,
         evs = before ++ e :: after ->
         (is_issued Run e = true -> returned Preflight before = length workloads)
         /\ (is_issued Teardown e = true -> returned Run before = length workloads).
Proof.
  destruct (run_launchers_trace workloads delay w)
    as (e1 & e2 & e3 & Ht & Hp1 & Hp2 & Hp3 & _ & Hr1 & Hr2 & _).
  exists (e1 ++ e2 ++ e3). split; [exact Ht |].
  assert (H1 : guarded (is_issued Run) Preflight (length workloads) 0 (e1 ++ e2 ++ e3)).
  { apply guarded_app; [apply guarded_free; by eapply issued_other; [| exact Hp1] |].
    simpl. destruct e2 as [|e e2].
    - apply guarded_free. by eapply issued_other; [| exact Hp3].
    - rewrite Hr1 by done. apply guarded_quiet. rewrite returned_app.
      rewrite (returned_other Run Preflight (e :: e2)) by done.
      by rewrite (returned_other Teardown Preflight e3) by done. }
  assert (H2 : guarded (is_issued Teardown) Run (length workloads) 0 (e1 ++ e2 ++ e3)).
  { apply guarded_app; [apply guarded_free; by eapply issued_other; [| exact Hp1] |].
    rewrite (returned_other Preflight Run e1) by done. simpl.
    apply guarded_app; [apply guarded_free; by eapply issued_other; [| exact Hp2] |].
    simpl. destruct e3 as [|e e3]; [by apply guarded_free |].
    rewrite Hr2 by done. apply guarded_quiet.
    by rewrite (returned_other Teardown Run (e :: e3)) by done. }
  intros before e after Heq. split; intros He.
  - exact (H1 before e after Heq He).
  - exact (H2 before e after Heq He).
Qed.

(** X14.  The workloads are started staggered, whatever the interleaving
    of the workers.  The run phase of every invocation of the scheduler
    that has one is an interleaving of what the workers write, one worker
    for each workload: the worker of the workload at position [idx] first
    sleeps [delay] times [idx], then issues the run call of its workload,
    its only one; when that length is negative the sleep is refused and
    the worker does nothing.  So a run call is issued only after a sleep of
    that length, one that is not negative, and no run call is issued
    outside the run phase.  With a negative [delay] and two workloads or
    more, the invocation raises, and nothing follows the run phase, no
    teardown either. *)
Theorem run_launchers_stagger workloads delay w :
  exists e1 e2 e3,
    trace (run_launchers workloads delay w).2 = trace w ++ e1 ++ e2 ++ e3
    /\ Forall (fun e => is_issued Run e = false) (e1 ++ e3)
    /\ (e2 <> [] ->
        exists evss,
          interleaved evss e2 /\ length evss = length workloads
          /\ forall idx wl l, workloads !! idx = Some wl -> evss !! idx = Some l ->
                worker_start delay idx wl l)
    /\ (forall before r after,
          e2 = before ++ EvIssued Run r :: after ->
          exists idx wl,
            workloads !! idx = Some wl /\ launcher wl = r
            /\ (0 <= delay * Z.of_nat idx)%Z
            /\ EvSleep (delay * Z.of_nat idx) ∈ before)
    /\ ((delay < 0)%Z -> 1 < length workloads ->
        e3 = [] /\ exists e, (run_launchers workloads delay w).1 = Raise e).
Proof.
  destruct (run_launchers_trace workloads delay w)
    as (e1 & e2 & e3 & Ht & Hp1 & Hp2 & Hp3 & Hs & _ & _ & _ & Hneg & Hw).
  exists e1, e2, e3. split; [exact Ht |].
  split; [| split; [exact Hw | split; [exact Hs | exact Hneg]]].
  apply Forall_app. split; by eapply issued_other; [| eassumption].
Qed.

(** ** The drivers *)

Lemma init_labels_eq wl w :
  has_hosts w wl ->
  exists j n w',
    init_labels wl w
    = (OK (with_labels (Some j) (Some n) (pnodes wl) (snodes wl) (contention wl) wl), w')
    /\ only_clock_read w w'.
Proof.
  intros (l & h & Hl & Hh). unfold init_labels, get_hosts.
  rewrite bind_eq. simpl. rewrite bind_eq. simpl. rewrite !bind_eq.
  rewrite (deref_eq (launcher wl) (with_ticks (S (ticks w)) w) l Hl). simpl.
  rewrite bind_eq. unfold lift. rewrite Hh. simpl.
  eexists _, _, _. split; [reflexivity |]. by repeat split.
Qed.

(** X15.  The symmetric driver needs exactly two workloads.  Given one, it
    raises [IndexError] when the isolation loop reads the node count of a
    second; given none, it raises the [ValueError] of a thread pool without
    workers.  In both cases nothing has been logged, opened or launched. *)
Theorem run_symmetric_interference_fewer workloads w :
  length workloads < 2 ->
  Forall (has_hosts w) workloads ->
  exists w',
    run_symmetric_interference workloads w
    = (Raise (match workloads with
              | [] => ValueError "Number of processes must be at least 1"
              | _ => IndexError "tuple index out of range"
              end), w')
    /\ only_clock_read w w'.
Proof.
  intros Hlen Hall. destruct workloads as [|wl [|wl2 ws]]; [| | simpl in Hlen; lia].
  - exists w. split; [reflexivity | by repeat split].
  - apply Forall_cons in Hall as [Hwl _].
    destruct (init_labels_eq wl w Hwl) as (j & n & w' & E & Hframe).
    exists w'. split; [| exact Hframe].
    unfold run_symmetric_interference. cbn [for_each_update].
    rewrite bind_eq, bind_eq, E. reflexivity.
Qed.

Lemma run_symmetric_interference_fewer_witness :
  exists w',
    run_symmetric_interference [Sample.descriptor 0 "primary" "write" "bw"]
      (Sample.adapters true)
    = (Raise (IndexError "tuple index out of range"), w')
    /\ only_clock_read (Sample.adapters true) w'.
Proof.
  apply (run_symmetric_interference_fewer [Sample.descriptor 0 "primary" "write" "bw"]).
  - simpl. lia.
  - repeat constructor. exists (Sample.elbencho true), ["n1"; "n2"]. split; reflexivity.
Defined.

Lemma start_phase_at c wl w l j n p s :
  heap w !! launcher wl = Some l ->
  jobid wl = Some j -> nnodes wl = Some n -> pnodes wl = Some p -> snodes wl = Some s ->
  let name := (workload wl ++ "_" ++ c ++ "." ++ Py.str_int p ++ "p-" ++ Py.str_int s
                 ++ "s." ++ j ++ ".out")%string in
  let f := SFile (next_id w) name in
  exists w',
    start_phase c wl w = (OK (with_labels (Some j) (Some n) (Some p) (Some s) (Some c) wl), w')
    /\ heap w' = <[launcher wl := with_stderr f (with_stdout f l)]> (heap w)
    /\ trace w'
       = trace w
           ++ [EvLog INFO ("Launching " ++ c ++ " " ++ access wl ++ " " ++ pattern wl ++ " on "
                             ++ Py.str_int n ++ " " ++ workload wl ++ " nodes")%string;
               EvOpen (next_id w) name]
    /\ next_id w' = S (next_id w)
    /\ isfile w' name = true.
Proof.
  intros Hl Hj Hn Hp Hs name f.
  unfold start_phase, launching_message, OUTPUT_FILENAME, key, lift.
  cbn [contention nnodes pnodes snodes jobid workload access pattern launcher with_labels].
  rewrite Hj, Hn, Hp, Hs. fold name.
  rewrite bind_eq. cbv beta iota. unfold logger_info. rewrite bind_eq, emit_eq. cbv beta iota.
  rewrite bind_eq. cbv beta iota. rewrite bind_eq.
  unfold open_append at 1. cbv beta iota.
  set (w1 := with_next_id _ _).
  assert (Hl1 : heap w1 !! launcher wl = Some l) by exact Hl.
  unfold set_stdout, update. rewrite bind_eq, (with_self_eq _ _ _ _ Hl1).
  cbn [fst snd modify].
  set (w2 := with_heap _ w1).
  assert (Hl2 : heap w2 !! launcher wl = Some (with_stdout f l)).
  { unfold w2. cbn [heap with_heap]. by eapply lookup_insert_self. }
  unfold get_stdout. rewrite bind_eq, bind_eq, (deref_eq _ _ _ Hl2). cbn [mret M_ret].
  unfold set_stderr, update. rewrite bind_eq, (with_self_eq _ _ _ _ Hl2).
  cbn [fst snd modify].
  eexists. split; [reflexivity |]. split; [| split; [| split]].
  - cbn [heap with_heap w2]. by rewrite list_insert_insert_eq.
  - cbn. by rewrite <- app_assoc.
  - reflexivity.
  - unfold isfile at 1. apply bool_decide_eq_true.
    cbn [files with_heap w2 w1 with_next_id with_files]. unfold isfile.
    case_bool_decide as E; [exact E | apply elem_of_app; right; by left].
Qed.

(** X16.  Starting a phase on a labelled workload opens the output file
    named after the workload, the contention, the two node counts and the
    job, and makes that one file object both the stdout and the stderr of
    the launcher.  The file exists from then on, so an elbencho launcher
    names its results files beside it in the command line of the run that
    follows. *)
Theorem start_phase_routes c wl w l j n p s :
  heap w !! launcher wl = Some l ->
  jobid wl = Some j -> nnodes wl = Some n -> pnodes wl = Some p -> snodes wl = Some s ->
  let name := (workload wl ++ "_" ++ c ++ "." ++ Py.str_int p ++ "p-" ++ Py.str_int s
                 ++ "s." ++ j ++ ".out")%string in
  let f := SFile (next_id w) name in
  exists w',
    start_phase c wl w = (OK (with_labels (Some j) (Some n) (Some p) (Some s) (Some c) wl), w')
    /\ heap w' = <[launcher wl := with_stderr f (with_stdout f l)]> (heap w)
    /\ trace w'
       = trace w
           ++ [EvLog INFO ("Launching " ++ c ++ " " ++ access wl ++ " " ++ pattern wl ++ " on "
                             ++ Py.str_int n ++ " " ++ workload wl ++ " nodes")%string;
               EvOpen (next_id w) name]
    /\ next_id w' = S (next_id w)
    /\ results_tokens (isfile w') (with_stderr f (with_stdout f l))
       = ["--resfile"; (name ++ ".results")%string; "--csvfile"; (name ++ ".csv")%string]
           ++ (if _livecsv l then ["--livecsv"; (name ++ ".live.csv")%string] else []).
Proof.
  intros Hl Hj Hn Hp Hs name f.
  destruct (start_phase_at c wl w l j n p s Hl Hj Hn Hp Hs) as (w' & E & Hh & Ht & Hi & Hf).
  exists w'. split; [exact E |]. split; [exact Hh |]. split; [exact Ht |]. split; [exact Hi |].
  unfold results_tokens. cbn [_stdout with_stderr with_stdout _livecsv]. unfold f at 1.
  cbv zeta in Hf. fold name in Hf. by rewrite Hf.
Qed.

Lemma start_phase_routes_witness :
  let f := SFile 0 "primary_quiet.2p-1s.123.out" in
  exists w',
    start_phase "quiet" labelled (Sample.adapters false)
    = (OK (with_labels (Some "123") (Some 2%Z) (Some 2%Z) (Some 1%Z) (Some "quiet") labelled),
       w')
    /\ heap w' = [with_stderr f (with_stdout f (Sample.elbencho false)); Sample.ior false;
                  Sample.mdworkbench false]
    /\ trace w' = [] ++ [EvLog INFO "Launching quiet write bw on 2 primary nodes";
                         EvOpen 0 "primary_quiet.2p-1s.123.out"]
    /\ next_id w' = 1
    /\ results_tokens (isfile w') (with_stderr f (with_stdout f (Sample.elbencho false)))
       = ["--resfile"; "primary_quiet.2p-1s.123.out.results";
          "--csvfile"; "primary_quiet.2p-1s.123.out.csv"] ++ [].
Proof.
  exact (start_phase_routes "quiet" labelled (Sample.adapters false) (Sample.elbencho false)
           "123" 2 2 1 eq_refl eq_refl eq_refl eq_refl eq_refl).
Defined.

(** ** The names of the output files *)

Lemma OUTPUT_FILENAME_eq wl name :
  OUTPUT_FILENAME wl = OK name ->
  exists c p s j,
    contention wl = Some c /\ pnodes wl = Some p /\ snodes wl = Some s /\ jobid wl = Some j
    /\ name = (workload wl ++ "_" ++ c ++ "." ++ Py.str_int p ++ "p-" ++ Py.str_int s
                 ++ "s." ++ j ++ ".out")%string.
Proof.
  unfold OUTPUT_FILENAME, key.
  destruct (contention wl) as [c|], (pnodes wl) as [p|], (snodes wl) as [s|],
    (jobid wl) as [j|]; try discriminate.
  intros [= <-]. by eexists _, _, _, _.
Qed.

(** X17.  The output files of the four phases of an iteration are
    distinct: two descriptors labelled [primary] or [secondary], in a
    [quiet] or a [noisy] phase, get the same file name only when they
    agree on the label and on the phase, whatever the node counts and the
    job are. *)
Theorem OUTPUT_FILENAME_distinct wl wl' name :
  workload wl ∈ ["primary"; "secondary"] ->
  workload wl' ∈ ["primary"; "secondary"] ->
  contention wl ∈ [Some "quiet"; Some "noisy"] ->
  contention wl' ∈ [Some "quiet"; Some "noisy"] ->
  OUTPUT_FILENAME wl = OK name ->
  OUTPUT_FILENAME wl' = OK name ->
  workload wl = workload wl' /\ contention wl = contention wl'.
Proof.
  intros Hw Hw' Hc Hc' H H'.
  apply OUTPUT_FILENAME_eq in H as (c & p & s & j & Ec & _ & _ & _ & ->).
  apply OUTPUT_FILENAME_eq in H' as (c' & p' & s' & j' & Ec' & _ & _ & _ & H').
  rewrite Ec, Ec' in *.
  repeat (apply elem_of_cons in Hw as [Hw | Hw]); [| | by apply elem_of_nil in Hw];
    repeat (apply elem_of_cons in Hw' as [Hw' | Hw']); try (by apply elem_of_nil in Hw');
    repeat (apply elem_of_cons in Hc as [Hc | Hc]); try (by apply elem_of_nil in Hc);
    repeat (apply elem_of_cons in Hc' as [Hc' | Hc']); try (by apply elem_of_nil in Hc');
    injection Hc as ->; injection Hc' as ->; rewrite Hw, Hw' in *;
    try (split; reflexivity);
    exfalso; rewrite !append_cons in H'; discriminate H'.
Qed.

Lemma OUTPUT_FILENAME_distinct_witness :
  let quiet := with_labels (Some "123") (Some 2%Z) (Some 2%Z) (Some 1%Z) (Some "quiet") in
  workload (quiet labelled) = workload (quiet (Sample.descriptor 1 "primary" "read" "iops"))
  /\ contention (quiet labelled)
     = contention (quiet (Sample.descriptor 1 "primary" "read" "iops")).
Proof.
  intros quiet.
  apply (OUTPUT_FILENAME_distinct (quiet labelled)
           (quiet (Sample.descriptor 1 "primary" "read" "iops")) "primary_quiet.2p-1s.123.out").
  - by left.
  - by left.
  - by left.
  - by left.
  - reflexivity.
  - reflexivity.
Defined.

(** ** The node counts [main] goes through *)

Example py_range_example :
  py_range 7 0 (-2) = OK [7; 5; 3; 1]%Z /\ py_range 6 0 (-2) = OK [6; 4; 2]%Z
  /\ py_range 0 7 3 = OK [0; 3; 6]%Z /\ py_range 3 0 1 = OK [] /\ py_range 0 3 (-1) = OK [].
Proof. repeat split; reflexivity. Qed.

Example slice_example :
  slice_to ["a"; "b"; "c"] 2 = ["a"; "b"] /\ slice_from ["a"; "b"; "c"] 2 = ["c"]
  /\ slice_to ["a"; "b"; "c"] (-1) = ["a"; "b"] /\ slice_from ["a"; "b"; "c"] 5 = [].
Proof. repeat split; reflexivity. Qed.

Example node_partitions_example :
  node_partitions ["n1"; "n2"; "n3"; "n4"] 1
  = OK [(["n1"; "n2"; "n3"], ["n4"]); (["n1"; "n2"], ["n3"; "n4"]);
        (["n1"], ["n2"; "n3"; "n4"])].
Proof. reflexivity. Qed.

(** X18.  With a positive [--step], [main] gives the primary workload the
    first [N - step], [N - 2 step], ... of the [N] nodes of the job, as long
    as that is at least one node, and the secondary workload the nodes that
    are left: every iteration splits the node list in two parts that are
    both non-empty, and there are [(N - 1) / step] iterations, none when the
    job has a single node. *)
Theorem node_partitions_split node_list step :
  (0 < step)%Z ->
  let N := Z.of_nat (length node_list) in
  exists parts,
    node_partitions node_list step = OK parts
    /\ length parts = Z.to_nat ((N - 1) / step)
    /\ forall i primary secondary,
         parts !! i = Some (primary, secondary) ->
         primary ++ secondary = node_list
         /\ Z.of_nat (length primary) = (N - (Z.of_nat i + 1) * step)%Z
         /\ primary <> [] /\ secondary <> [].
Proof.
  intros Hstep N. unfold node_partitions, py_range. fold N.
  rewrite decide_False by lia. rewrite decide_False by lia.
  replace ((N + -1 * step - 0 - -1 * step - 1) / - (-1 * step))%Z with ((N - 1) / step)%Z
    by (f_equal; lia).
  eexists. split; [reflexivity |]. split; [by rewrite !length_fmap, length_seq |].
  intros i primary secondary Hi.
  rewrite !list_lookup_fmap in Hi.
  destruct (seq 0 (Z.to_nat ((N - 1) / step)) !! i) as [i'|] eqn:Hseq; [| discriminate Hi].
  apply lookup_seq in Hseq as [-> Hlt]. simpl in Hi. injection Hi as <- <-.
  assert (Hdiv : (step * ((N - 1) / step) <= N - 1)%Z) by (apply Z.mul_div_le; lia).
  assert (Hk : (1 <= N + -1 * step + Z.of_nat i * (-1 * step) < N)%Z) by nia.
  unfold slice_to, slice_from, slice_bound. rewrite decide_False by lia.
  set (k := Z.to_nat (N + -1 * step + Z.of_nat i * (-1 * step))).
  assert (Hkn : 0 < k < length node_list) by (unfold k, N in *; lia).
  split; [apply take_drop |]. split; [rewrite length_take; unfold k, N in *; lia |].
  split; intros Hnil; apply (f_equal length) in Hnil;
    rewrite ?length_take, ?length_drop in Hnil; simpl in Hnil; lia.
Qed.

Lemma node_partitions_split_witness :
  exists parts,
    node_partitions ["n1"; "n2"; "n3"; "n4"; "n5"] 2 = OK parts
    /\ length parts = 2
    /\ forall i primary secondary,
         parts !! i = Some (primary, secondary) ->
         primary ++ secondary = ["n1"; "n2"; "n3"; "n4"; "n5"]
         /\ Z.of_nat (length primary) = (5 - (Z.of_nat i + 1) * 2)%Z
         /\ primary <> [] /\ secondary <> [].
Proof.
  assert (Hstep : (0 < 2)%Z) by lia.
  exact (node_partitions_split ["n1"; "n2"; "n3"; "n4"; "n5"] 2 Hstep).
Defined.

(** X19.  With [--step 0] the loop header of [main] raises the
    [ValueError] of a range with a zero step, and with a negative [--step]
    the range is empty: no workload is run at all. *)
Theorem node_partitions_no_step node_list step :
  (step <= 0)%Z ->
  node_partitions node_list step
  = if decide (step = 0%Z) then Raise (ValueError "range() arg 3 must not be zero")
    else OK [].
Proof.
  intros Hstep. unfold node_partitions, py_range.
  destruct (decide (step = 0%Z)) as [-> | Hne]; [done |].
  rewrite decide_False by lia. rewrite decide_True by lia.
  assert (Hn : ((0 - (Z.of_nat (length node_list) + -1 * step) + -1 * step - 1) / (-1 * step)
                <= 0)%Z).
  { assert (Hlt : ((0 - (Z.of_nat (length node_list) + -1 * step) + -1 * step - 1)
                   / (-1 * step) < 0)%Z); [| lia].
    apply Z.div_lt_upper_bound; lia. }
  replace (Z.to_nat _) with 0 by lia. reflexivity.
Qed.

Lemma node_partitions_no_step_witness :
  node_partitions ["n1"; "n2"; "n3"] 0 = Raise (ValueError "range() arg 3 must not be zero")
  /\ node_partitions ["n1"; "n2"; "n3"] (-1) = OK [].
Proof.
  split.
  - assert (H : (0 <= 0)%Z) by lia. exact (node_partitions_no_step ["n1"; "n2"; "n3"] 0 H).
  - assert (H : (-1 <= 0)%Z) by lia. exact (node_partitions_no_step ["n1"; "n2"; "n3"] (-1) H).
Defined.

(** ** The shape of the loss pivot *)

Lemma row_loss_columns cols cells cells' ids :
  (Summary.row_loss cols cells ids).*1 = (Summary.row_loss cols cells' ids).*1.
Proof.
  induction ids as [|i ids IH]; simpl; [done |].
  destruct (Summary.loss_of cols cells i) as [v|e] eqn:E,
           (Summary.loss_of cols cells' i) as [v'|e'] eqn:E'; simpl.
  - f_equal. exact IH.
  - assert (exists v, Summary.loss_of cols cells' i = OK v) as [? ?]; [| congruence].
    apply SummaryFacts.loss_of_OK. apply (SummaryFacts.loss_of_OK cols cells). by eexists.
  - assert (exists v, Summary.loss_of cols cells i = OK v) as [? ?]; [| congruence].
    apply SummaryFacts.loss_of_OK. apply (SummaryFacts.loss_of_OK cols cells'). by eexists.
  - exact IH.
Qed.

(** X20.  [loss_frame] never fails on a performance pivot that has rows.
    Whether a row has a loss to report depends on the columns of the pivot
    only, so either every row is skipped or none is, and the records always
    match the index they are given: the loss pivot has the node-count pairs
    of the performance pivot, in the same order, and all its rows report on
    the same workloads. *)
Theorem loss_frame_index performance :
  Summary.rows performance <> [] ->
  exists loss,
    Summary.loss_frame performance = OK loss
    /\ loss.*1 = Summary.index performance
    /\ forall r r', r ∈ loss -> r' ∈ loss -> r.2.*1 = r'.2.*1.
Proof.
  intros Hne. unfold Summary.loss_frame, Summary.index.
  set (f := fun row : Summary.pair * list float =>
              Summary.row_loss (Summary.columns performance) row.2 ["primary"; "secondary"]).
  destruct (Summary.rows performance) as [|[p0 c0] rs] eqn:Hrows; [done |].
  rewrite <- Hrows.
  destruct (decide (f (p0, c0) = [])) as [Hempty | Hfull].
  - rewrite SummaryFacts.filter_all_empty.
    2:{ intros [p' c'] _. apply (SummaryFacts.row_loss_keys _ c0). exact Hempty. }
    eexists. split; [reflexivity |]. split.
    + rewrite <- list_fmap_compose. apply (list_fmap_id (Summary.rows performance).*1).
    + intros r r' Hr Hr'. apply list_elem_of_fmap in Hr as (? & -> & _).
      by apply list_elem_of_fmap in Hr' as (? & -> & _).
  - rewrite SummaryFacts.filter_none_empty.
    2:{ intros [p' c'] _ H. apply Hfull. apply (SummaryFacts.row_loss_keys _ c'). exact H. }
    unfold Summary.from_records.
    destruct (f <$> Summary.rows performance) eqn:E; [by rewrite Hrows in E |].
    rewrite <- E. rewrite decide_True by (by rewrite !length_fmap).
    eexists. split; [reflexivity |]. split.
    + apply fst_zip. by rewrite !length_fmap.
    + intros [p1 r] [p2 r'] Hr Hr'.
      apply elem_of_zip_r in Hr. apply elem_of_zip_r in Hr'.
      apply list_elem_of_fmap in Hr as ([? c1] & -> & _).
      apply list_elem_of_fmap in Hr' as ([? c2] & -> & _).
      apply row_loss_columns.
Qed.

Lemma loss_frame_index_witness :
  exists loss,
    Summary.loss_frame sample_performance = OK loss
    /\ loss.*1 = [(4, 2)%Z; (3, 3)%Z]
    /\ forall r r', r ∈ loss -> r' ∈ loss -> r.2.*1 = r'.2.*1.
Proof.
  assert (Hne : Summary.rows sample_performance <> []) by discriminate.
  exact (loss_frame_index sample_performance Hne).
Defined.

(** ** The job launcher in the prefix *)

Lemma _add_hosts_mismatch mpirun_bin c0 rest l hs :
  cls l <> Elbencho ->
  _hosts l = Some hs ->
  c0 <> mpirun_bin ->
  _add_hosts mpirun_bin (with_cmdline (c0 :: rest) l)
  = (Raise (ValueError ("Can't find " ++ mpirun_bin ++ " to insert nodelist")%string),
     with_cmdline (c0 :: rest) l).
Proof.
  intros Hc Hh Hne. unfold _add_hosts. rewrite bind_eq. simpl. rewrite Hh.
  destruct (cls l); [done | |]; by rewrite decide_False.
Qed.

(** X21.  On a launcher of the two adapters started through the job
    launcher that has a host list, [run] raises [ValueError] when the
    command line does not begin with [MPIRUN_BIN] as it is when [run] is
    called, for instance because it was another when the launcher was
    built: the node list cannot be inserted.  Nothing is logged and no
    process is started. *)
Theorem run_without_mpirun self access pattern out err kwargs w l hs :
  heap w !! self = Some l ->
  cls l <> Elbencho ->
  _hosts l = Some hs ->
  hd (_binary l) (_prepend_cmdline l) <> MPIRUN_BIN w ->
  exists w',
    run self access pattern out err kwargs w
    = (Raise (ValueError ("Can't find " ++ MPIRUN_BIN w ++ " to insert nodelist")%string), w')
    /\ trace w' = trace w
    /\ next_id w' = next_id w.
Proof.
  intros Hl Hc Hh Hhd.
  assert (Hasm : exists c,
            assemble (MPIRUN_BIN w) (isfile w) access pattern kwargs l
            = (Raise (ValueError ("Can't find " ++ MPIRUN_BIN w ++ " to insert nodelist")%string),
               with_cmdline c (with_kwargs (Py.dict_update (_kwargs l) kwargs) l))).
  { rewrite assemble_eq, _prep_cmdline_start, bind_eq.
    set (l1 := with_kwargs (Py.dict_update (_kwargs l) kwargs) l).
    change (_prepend_cmdline l1) with (_prepend_cmdline l).
    change (_binary l1) with (_binary l).
    destruct (_prepend_cmdline l) as [|c0 rest]; cbn [app hd] in *;
      rewrite (_add_hosts_mismatch _ _ _ l1 hs Hc Hh Hhd); by eexists. }
  destruct Hasm as [c Hasm].
  rewrite (run_at _ _ _ _ _ _ _ _ Hl), Hasm. unfold run_outcome. cbn [fst snd].
  eexists. split; [reflexivity |]. split; [| reflexivity].
  simpl. by rewrite app_nil_r.
Qed.

Lemma run_without_mpirun_witness :
  exists w',
    run 1 "write" "bw" None None [] (Sample.world [Sample.elbencho false; flagged])
    = (Raise (ValueError "Can't find srun to insert nodelist"), w')
    /\ trace w' = []
    /\ next_id w' = 0.
Proof.
  assert (Hc : cls flagged <> Elbencho) by discriminate.
  assert (Hhd : hd (_binary flagged) (_prepend_cmdline flagged) <> "srun") by discriminate.
  exact (run_without_mpirun 1 "write" "bw" None None []
           (Sample.world [Sample.elbencho false; flagged]) flagged ["n1"; "n2"]
           eq_refl Hc eq_refl Hhd).
Defined.

(** ** The other teardown that launches *)

(** X22.  Outside dry-run mode, md-workbench's [teardown] starts one
    process through the job launcher, one task on each node of the host
    list: the cleanup phase [-3] with the common arguments and nothing
    else, whatever access mode, pattern and keyword arguments the call
    names.  Both streams are pipes; [teardown] sleeps five seconds and
    returns the handle, leaving the launcher's command line empty. *)
Theorem mdworkbench_teardown_launches self access pattern kwargs w l hs :
  heap w !! self = Some l ->
  cls l = Mdworkbench ->
  _test l = false ->
  _hosts l = Some hs ->
  let n := Py.str_int (Z.of_nat (length hs)) in
  let c := [MPIRUN_BIN w; "-N"; n; "-n"; n; "--nodelist"; Py.join "," hs; _binary l; "-3"]
             ++ _common_args l in
  exists w',
    teardown self access pattern kwargs w = (OK (Some (next_id w)), w')
    /\ trace w'
       = trace w
           ++ [EvLog INFO "Launching teardown - file cleanup"; EvLog INFO (Py.join " " c);
               EvPopen (next_id w) c SPipe SPipe; EvSleep 5]
    /\ heap w' = <[self := with_cmdline [] l]> (heap w)
    /\ next_id w' = S (next_id w).
Proof.
  intros Hl Hc Ht Hh n c. rewrite (teardown_at _ _ _ _ _ _ Hl), Hc.
  unfold service_outcome, service_events, service_cmdline, len_hosts, join_hosts.
  rewrite Hh, Ht. eexists. split; [reflexivity |]. by repeat split.
Qed.

Lemma mdworkbench_teardown_launches_witness :
  exists w',
    teardown 2 "write" "iops" [("x", Py.VInt 1)] (Sample.adapters false) = (OK (Some 0), w')
    /\ trace w'
       = [] ++ [EvLog INFO "Launching teardown - file cleanup";
                EvLog INFO "srun -N 2 -n 2 --nodelist n1,n2 /opt/md-workbench -3 -I 10";
                EvPopen 0 ["srun"; "-N"; "2"; "-n"; "2"; "--nodelist"; "n1,n2";
                           "/opt/md-workbench"; "-3"; "-I"; "10"] SPipe SPipe;
                EvSleep 5]
    /\ heap w' = [Sample.elbencho false; Sample.ior false;
                  with_cmdline [] (Sample.mdworkbench false)]
    /\ next_id w' = 1.
Proof.
  exact (mdworkbench_teardown_launches 2 "write" "iops" [("x", Py.VInt 1)]
           (Sample.adapters false) (Sample.mdworkbench false) ["n1"; "n2"]
           eq_refl eq_refl eq_refl eq_refl).
Defined.

(** ** The labels of a workload *)

Lemma init_labels_at wl w l :
  heap w !! launcher wl = Some l ->
  init_labels wl w
  = match _hosts l with
    | Some h =>
        (OK (with_labels (Some (job_label w 0)) (Some (Z.of_nat (length h))) (pnodes wl)
               (snodes wl) (contention wl) wl),
         with_ticks (S (ticks w)) w)
    | None =>
        (Raise (TypeError "object of type 'NoneType' has no len()"), with_ticks (S (ticks w)) w)
    end.
Proof.
  intros Hl. unfold init_labels, get_hosts, job_label.
  rewrite bind_eq. simpl. rewrite bind_eq. simpl. rewrite !bind_eq.
  rewrite (deref_eq (launcher wl) (with_ticks (S (ticks w)) w) l Hl). simpl.
  rewrite bind_eq. unfold lift. rewrite Nat.add_0_r. by destruct (_hosts l).
Qed.

(** X23.  The first two labels of a workload: the job is that of
    [SLURM_JOBID] when the environment has one, else the integer part of
    the clock, which is read once in either case; the node count is the
    length of the launcher's host list.  A launcher without a host list
    makes the labelling raise [TypeError].  Nothing else changes. *)
Theorem init_labels_labels wl w l :
  heap w !! launcher wl = Some l ->
  exists w',
    init_labels wl w
    = (match _hosts l with
       | Some h =>
           OK (with_labels
                 (Some (default (Py.str_int (Py.int_of_float (clock w (ticks w))))
                          (SLURM_JOBID w)))
                 (Some (Z.of_nat (length h))) (pnodes wl) (snodes wl) (contention wl) wl)
       | None => Raise (TypeError "object of type 'NoneType' has no len()")
       end, w')
    /\ ticks w' = S (ticks w)
    /\ only_clock_read w w'.
Proof.
  intros Hl. rewrite (init_labels_at _ _ _ Hl). exists (with_ticks (S (ticks w)) w).
  unfold job_label. rewrite Nat.add_0_r. split; [by destruct (_hosts l) |]. by repeat split.
Qed.

Lemma init_labels_labels_witness :
  exists w',
    init_labels (Sample.descriptor 1 "primary" "write" "bw") (Sample.adapters false)
    = (OK (with_labels (Some "123") (Some 2%Z) None None None
             (Sample.descriptor 1 "primary" "write" "bw")), w')
    /\ ticks w' = 1
    /\ only_clock_read (Sample.adapters false) w'.
Proof.
  exact (init_labels_labels (Sample.descriptor 1 "primary" "write" "bw")
           (Sample.adapters false) (Sample.ior false) eq_refl).
Defined.

(** ** The keyword arguments a launcher keeps *)

Lemma filter_ext_elem {A} (P Q : A -> Prop) `{!forall x, Decision (P x)}
    `{!forall x, Decision (Q x)} (l : list A) :
  (forall x, x ∈ l -> P x <-> Q x) -> filter P l = filter Q l.
Proof.
  induction l as [|x l IH]; intros Hall; [done |].
  assert (Hx : P x <-> Q x) by (apply Hall; by left).
  assert (Hl : filter P l = filter Q l) by (apply IH; intros y Hy; apply Hall; by right).
  destruct (decide (P x)) as [HP | HP].
  - rewrite !filter_cons_True by tauto. by rewrite Hl.
  - rewrite !filter_cons_False by tauto. exact Hl.
Qed.

Lemma dict_set_keys {V} k (v : V) d :
  (Py.dict_set k v d).*1 = if decide (k ∈ d.*1) then d.*1 else d.*1 ++ [k].
Proof.
  induction d as [|[k' v'] d IH].
  - rewrite decide_False; [done | apply not_elem_of_nil].
  - cbn [Py.dict_set]. destruct (decide (k = k')) as [-> | Hne].
    + rewrite decide_True; [done | by left].
    + rewrite !fmap_cons, IH. cbn [fst]. destruct (decide (k ∈ d.*1)) as [Hin | Hnot].
      * rewrite decide_True; [done | by right].
      * rewrite decide_False; [done |]. intros [? | ?]%elem_of_cons; done.
Qed.

Lemma dict_get_set {V} k k' (v : V) d :
  dict_get k' (Py.dict_set k v d) = if decide (k' = k) then Some v else dict_get k' d.
Proof.
  induction d as [|[k0 v0] d IH]; [done |].
  cbn [Py.dict_set dict_get]. destruct (decide (k = k0)) as [-> | Hne]; cbn [dict_get].
  - by destruct (decide (k' = k0)).
  - rewrite IH. destruct (decide (k' = k0)) as [-> | ?]; [| done].
    by rewrite decide_False.
Qed.

Lemma dict_get_None {V} k (d : Py.dict V) : k ∉ d.*1 -> dict_get k d = None.
Proof.
  induction d as [|[k0 v0] d IH]; [done |]. cbn [dict_get]. rewrite fmap_cons.
  intros H. apply not_elem_of_cons in H as [Hne Hd]. rewrite decide_False by done. auto.
Qed.

Lemma dict_update_cons {V} (d : Py.dict V) k v new :
  Py.dict_update d ((k, v) :: new) = Py.dict_update (Py.dict_set k v d) new.
Proof. reflexivity. Qed.

Lemma dict_update_keys {V} (d new : Py.dict V) :
  NoDup new.*1 ->
  (Py.dict_update d new).*1 = d.*1 ++ filter (fun k => k ∉ d.*1) new.*1.
Proof.
  revert d. induction new as [|[k v] new IH]; intros d Hnd.
  - cbn. by rewrite app_nil_r.
  - rewrite fmap_cons in Hnd. apply NoDup_cons in Hnd as [Hk Hnd]. cbn [fst] in Hk.
    rewrite dict_update_cons, IH, dict_set_keys by done. rewrite fmap_cons. cbn [fst].
    destruct (decide (k ∈ d.*1)) as [Hin | Hnot].
    + by rewrite filter_cons_False by (intros H; by apply H).
    + rewrite filter_cons_True by done. rewrite <- app_assoc. cbn [app]. do 2 f_equal.
      apply filter_ext_elem. intros k' Hk'. rewrite elem_of_app, list_elem_of_singleton.
      split; [tauto |]. intros Hd [? | ->]; done.
Qed.

Lemma dict_update_get {V} (d new : Py.dict V) k :
  NoDup new.*1 ->
  dict_get k (Py.dict_update d new)
  = match dict_get k new with
    | Some v => Some v
    | None => dict_get k d
    end.
Proof.
  revert d. induction new as [|[k0 v0] new IH]; intros d Hnd; [done |].
  rewrite fmap_cons in Hnd. apply NoDup_cons in Hnd as [Hk Hnd]. cbn [fst] in Hk.
  rewrite dict_update_cons, IH, dict_get_set by done. cbn [dict_get].
  destruct (decide (k = k0)) as [-> | Hne]; [| done].
  by rewrite (dict_get_None k0 new Hk).
Qed.

(** X24.  The keyword arguments of a [run] call are merged into those the
    launcher already holds, with [dict.update]: a keyword the launcher
    holds keeps its place and takes the new value, a new keyword is added
    at the end, in the order of the call.  So the command line names every
    keyword once, first given first. *)
Theorem assemble_merges_kwargs mpirun_bin isfile access pattern kwargs l :
  NoDup (_kwargs l).*1 ->
  NoDup kwargs.*1 ->
  let merged := _kwargs (assemble mpirun_bin isfile access pattern kwargs l).2 in
  merged.*1 = (_kwargs l).*1 ++ filter (fun k => k ∉ (_kwargs l).*1) kwargs.*1
  /\ NoDup merged.*1
  /\ forall k, dict_get k merged
              = match dict_get k kwargs with
                | Some v => Some v
                | None => dict_get k (_kwargs l)
                end.
Proof.
  intros Hl Hk merged. subst merged. rewrite assemble_kwargs.
  split; [by apply dict_update_keys |]. split; [| intros k; by apply dict_update_get].
  rewrite dict_update_keys by done. apply NoDup_app. split; [done |]. split.
  - intros k Hin Hf. by apply list_elem_of_filter in Hf as [Hnot _].
  - by apply NoDup_filter.
Qed.

Lemma assemble_merges_kwargs_witness :
  let merged := _kwargs (assemble "srun" (fun _ => false) "write" "bw"
                           [("depth", Py.VInt 8); ("direct", Py.VBool true)]
                           (with_kwargs [("direct", Py.VBool false); ("verify", Py.VInt 1)]
                              (Sample.ior false))).2 in
  merged.*1 = ["direct"; "verify"] ++ ["depth"]
  /\ NoDup merged.*1
  /\ forall k, dict_get k merged
              = match dict_get k [("depth", Py.VInt 8); ("direct", Py.VBool true)] with
                | Some v => Some v
                | None => dict_get k [("direct", Py.VBool false); ("verify", Py.VInt 1)]
                end.
Proof.
  assert (H1 : NoDup ["direct"; "verify"]).
  { apply NoDup_cons. split; [| apply NoDup_singleton].
    intros H%list_elem_of_singleton. discriminate H. }
  assert (H2 : NoDup ["depth"; "direct"]).
  { apply NoDup_cons. split; [| apply NoDup_singleton].
    intros H%list_elem_of_singleton. discriminate H. }
  exact (assemble_merges_kwargs "srun" (fun _ => false) "write" "bw"
           [("depth", Py.VInt 8); ("direct", Py.VBool true)]
           (with_kwargs [("direct", Py.VBool false); ("verify", Py.VInt 1)] (Sample.ior false))
           H1 H2).
Defined.

(** ** The files of an asymmetric experiment *)

Lemma opened_app e1 e2 : opened (e1 ++ e2) = opened e1 ++ opened e2.
Proof. apply omap_app. Qed.

Lemma opened_phase m evs :
  Forall (fun e => phase_event m e = true) evs -> opened evs = [].
Proof.
  induction 1 as [|e evs He _ IH]; [done |].
  destruct e; try exact IH; discriminate He.
Qed.

Lemma run_launchers_opened ws delay w :
  exists evs, trace (run_launchers ws delay w).2 = trace w ++ evs /\ opened evs = [].
Proof.
  destruct (run_launchers_trace ws delay w) as (e1 & e2 & e3 & Ht & H1 & H2 & H3 & _).
  exists (e1 ++ e2 ++ e3). split; [exact Ht |].
  by rewrite !opened_app, (opened_phase _ _ H1), (opened_phase _ _ H2), (opened_phase _ _ H3).
Qed.

Lemma log_first_finished_opened what ts w :
  exists evs, trace (log_first_finished what ts w).2 = trace w ++ evs /\ opened evs = [].
Proof.
  destruct ts as [|[t0 tf] ts]; simpl.
  - exists []. by rewrite app_nil_r.
  - by eexists.
Qed.

Lemma log_noisy_finished_opened ts :
  forall index w,
  exists evs, trace (log_noisy_finished index ts w).2 = trace w ++ evs /\ opened evs = [].
Proof.
  induction ts as [|[t0 tf] ts IH]; intros index w.
  - exists []. simpl. by rewrite app_nil_r.
  - cbn [log_noisy_finished]. rewrite bind_eq, emit_eq. cbv beta iota.
    destruct (IH (S index) (emit (EvLogFinished
                ("noisy workload " ++ Py.str_int (Z.of_nat index))%string t0 tf) w).2)
      as (evs & Ht & Ho).
    eexists (_ :: evs). split.
    + rewrite Ht, emit_trace, <- app_assoc. reflexivity.
    + exact Ho.
Qed.

Lemma init_labels_inv wl w wl' w' :
  init_labels wl w = (OK wl', w') ->
  exists l h,
    heap w !! launcher wl = Some l /\ _hosts l = Some h
    /\ wl' = with_labels (Some (job_label w 0)) (Some (Z.of_nat (length h))) (pnodes wl)
               (snodes wl) (contention wl) wl
    /\ w' = with_ticks (S (ticks w)) w.
Proof.
  destruct (heap w !! launcher wl) as [l|] eqn:Hl.
  - rewrite (init_labels_at _ _ _ Hl). destruct (_hosts l) as [h|] eqn:Hh; [| discriminate].
    intros [= <- <-]. by exists l, h.
  - unfold init_labels, get_hosts, deref.
    rewrite bind_eq. simpl. rewrite bind_eq. simpl. rewrite !bind_eq. simpl.
    rewrite Hl. discriminate.
Qed.

Lemma start_phase_inv c wl w wl' w' :
  start_phase c wl w = (OK wl', w') ->
  exists j n p s msg fid,
    jobid wl = Some j /\ nnodes wl = Some n /\ pnodes wl = Some p /\ snodes wl = Some s
    /\ wl' = with_labels (Some j) (Some n) (Some p) (Some s) (Some c) wl
    /\ trace w' = trace w ++ [EvLog INFO msg; EvOpen fid (output_name (workload wl) c p s j)].
Proof.
  destruct (nnodes wl) as [n|] eqn:Hn.
  2: { unfold start_phase, launching_message, key, lift.
       cbn [contention nnodes pnodes snodes jobid with_labels]. rewrite Hn.
       rewrite bind_eq. discriminate. }
  destruct (pnodes wl) as [p|] eqn:Hp.
  2: { unfold start_phase, launching_message, OUTPUT_FILENAME, key, lift.
       cbn [contention nnodes pnodes snodes jobid with_labels]. rewrite Hn, Hp.
       rewrite bind_eq. cbv beta iota. rewrite bind_eq. discriminate. }
  destruct (snodes wl) as [s|] eqn:Hs.
  2: { unfold start_phase, launching_message, OUTPUT_FILENAME, key, lift.
       cbn [contention nnodes pnodes snodes jobid with_labels]. rewrite Hn, Hp, Hs.
       rewrite bind_eq. cbv beta iota. rewrite bind_eq. discriminate. }
  destruct (jobid wl) as [j|] eqn:Hj.
  2: { unfold start_phase, launching_message, OUTPUT_FILENAME, key, lift.
       cbn [contention nnodes pnodes snodes jobid with_labels]. rewrite Hn, Hp, Hs, Hj.
       rewrite bind_eq. cbv beta iota. rewrite bind_eq. discriminate. }
  destruct (heap w !! launcher wl) as [l|] eqn:Hl.
  - destruct (start_phase_at c wl w l j n p s Hl Hj Hn Hp Hs) as (w1 & E & _ & Ht & _).
    rewrite E. intros [= <- <-]. eexists j, n, p, s, _, _. by repeat split.
  - unfold start_phase, launching_message, OUTPUT_FILENAME, key, lift.
    cbn [contention nnodes pnodes snodes jobid workload access pattern launcher with_labels].
    rewrite Hj, Hn, Hp, Hs.
    rewrite bind_eq. cbv beta iota. unfold logger_info. rewrite bind_eq, emit_eq.
    cbv beta iota. rewrite bind_eq. cbv beta iota. rewrite bind_eq.
    unfold open_append at 1. cbv beta iota.
    unfold set_stdout, update, with_self. rewrite bind_eq.
    cbn [heap with_next_id with_files with_trace emit modify snd]. rewrite Hl. discriminate.
Qed.

Lemma start_phase_labels c wl w wl' w' :
  start_phase c wl w = (OK wl', w') ->
  labels_of wl' = labels_of wl /\ contention wl' = Some c
  /\ launcher wl' = launcher wl /\ access wl' = access wl /\ pattern wl' = pattern wl.
Proof.
  intros H. apply start_phase_inv in H as (j & n & p & s & msg & fid & Hj & Hn & Hp & Hs & -> & _).
  unfold labels_of. cbn. by rewrite Hj, Hn, Hp, Hs.
Qed.

Lemma isolated_quiet_inv roles :
  forall p s w p' s' w' np ns jp js,
  isolated_quiet p s roles w = (OK (p', s'), w') ->
  pnodes p = Some np -> snodes p = Some ns -> jobid p = Some jp ->
  pnodes s = Some np -> snodes s = Some ns -> jobid s = Some js ->
  labels_of p' = labels_of p /\ labels_of s' = labels_of s
  /\ exists evs,
       trace w' = trace w ++ evs
       /\ opened evs
          = (fun r => output_name (workload (select p s r)) "quiet" np ns
                        (match r with Primary => jp | Secondary => js end)) <$> roles.
Proof.
  induction roles as [|r roles IH]; intros p s w p' s' w' np ns jp js H Hpp Hps Hpj Hsp Hss Hsj.
  - injection H as <- <- <-. repeat split. exists []. by rewrite app_nil_r.
  - cbn [isolated_quiet] in H.
    apply bind_inv in H as [(wl & w1 & Hstart & H) | (e & _ & He)]; [| discriminate He].
    apply bind_inv in H as [(ts & w2 & Hrun & H) | (e & _ & He)]; [| discriminate He].
    apply bind_inv in H as [(c & w2' & Hc & H) | (e & _ & He)]; [| discriminate He].
    apply bind_inv in H as [([] & w3 & Hlog & H) | (e & _ & He)]; [| discriminate He].
    destruct (start_phase_labels _ _ _ _ _ Hstart) as (Hlab & _).
    apply start_phase_inv in Hstart
      as (j & n & p0 & s0 & msg & fid & Hj & Hn & Hp0 & Hs0 & _ & Ht1).
    destruct (run_launchers_opened [wl] 0 w1) as (e2 & Ht2 & Ho2). rewrite Hrun in Ht2.
    unfold lift in Hc. injection Hc as _ <-.
    destruct (log_first_finished_opened (c ++ " workload")%string ts w2) as (e3 & Ht3 & Ho3).
    rewrite Hlog in Ht3. cbn [snd] in Ht2, Ht3.
    assert (Hname : output_name (workload (select p s r)) "quiet" p0 s0 j
                    = output_name (workload (select p s r)) "quiet" np ns
                        (match r with Primary => jp | Secondary => js end)).
    { destruct r; cbn [select] in *; congruence. }
    unfold labels_of in Hlab.
    destruct r; cbn [select] in *.
    + destruct (IH wl s w3 p' s' w' np ns jp js H) as (Hp' & Hs' & e4 & Ht4 & Ho4);
        try congruence.
      split; [unfold labels_of in *; congruence |]. split; [exact Hs' |].
      exists ([EvLog INFO msg; EvOpen fid (output_name (workload p) "quiet" p0 s0 j)]
                ++ e2 ++ e3 ++ e4).
      split; [rewrite Ht4, Ht3, Ht2, Ht1; by rewrite <- !app_assoc |].
      rewrite !opened_app, Ho2, Ho3, Ho4, fmap_cons.
      change (opened [EvLog INFO msg; EvOpen fid (output_name (workload p) "quiet" p0 s0 j)])
        with [output_name (workload p) "quiet" p0 s0 j].
      cbn [app select]. rewrite Hname. f_equal.
      apply list_fmap_ext. intros _ [] _; cbn [select]; [| done].
      f_equal. congruence.
    + destruct (IH p wl w3 p' s' w' np ns jp js H) as (Hp' & Hs' & e4 & Ht4 & Ho4);
        try congruence.
      split; [exact Hp' |]. split; [unfold labels_of in *; congruence |].
      exists ([EvLog INFO msg; EvOpen fid (output_name (workload s) "quiet" p0 s0 j)]
                ++ e2 ++ e3 ++ e4).
      split; [rewrite Ht4, Ht3, Ht2, Ht1; by rewrite <- !app_assoc |].
      rewrite !opened_app, Ho2, Ho3, Ho4, fmap_cons.
      change (opened [EvLog INFO msg; EvOpen fid (output_name (workload s) "quiet" p0 s0 j)])
        with [output_name (workload s) "quiet" p0 s0 j].
      cbn [app select]. rewrite Hname. f_equal.
      apply list_fmap_ext. intros _ [] _; cbn [select]; [done |].
      f_equal. congruence.
Qed.

(** X25.  The files of an asymmetric experiment that runs to its end.
    Every workload is labelled with the node count of the primary and that
    of the secondary, both read from the launchers' host lists before
    anything is run, and with its job.  The output files are opened in this
    order: the quiet file of each workload the selector isolates, the
    primary before the secondary, each followed by its isolated run; then
    the noisy file of the primary and that of the secondary, before the
    contended run.  Nothing else is opened. *)
Theorem run_interference_files primary secondary delay isolate w w' :
  run_interference primary secondary delay isolate w = (OK tt, w') ->
  exists lp hp ls hs c rest evs,
    heap w !! launcher primary = Some lp /\ _hosts lp = Some hp
    /\ heap w !! launcher secondary = Some ls /\ _hosts ls = Some hs
    /\ Py.lower isolate = String c rest
    /\ trace w' = trace w ++ evs
    /\ let name r phase :=
         output_name (workload (select primary secondary r)) phase
           (Z.of_nat (length hp)) (Z.of_nat (length hs))
           (job_label w (match r with Primary => 0 | Secondary => 1 end)) in
       opened evs
       = ((fun r => name r "quiet")
            <$> (if decide (c = "b"%char) then [Primary; Secondary]
                 else if decide (c = "p"%char) then [Primary] else [Secondary]))
           ++ [name Primary "noisy"; name Secondary "noisy"].
Proof.
  unfold run_interference. intros H.
  destruct (Py.lower isolate) as [|c rest]; [discriminate H |].
  set (roles := if decide (c = "b"%char) then [Primary; Secondary]
                else if decide (c = "p"%char) then [Primary] else [Secondary]).
  assert (Hroles : (if decide (c = "b"%char) then Some [Primary; Secondary]
                    else if decide (c = "p"%char) then Some [Primary]
                    else if decide (c = "s"%char) then Some [Secondary] else None)
                   = Some roles
                   \/ (if decide (c = "b"%char) then Some [Primary; Secondary]
                       else if decide (c = "p"%char) then Some [Primary]
                       else if decide (c = "s"%char) then Some [Secondary] else None)
                      = None).
  { unfold roles. repeat case_decide; auto. }
  cbv zeta in H. destruct Hroles as [Hr | Hr]; rewrite Hr in H; [| discriminate H].
  apply bind_inv in H as [(p1 & w1 & Hp1 & H) | (e & _ & He)]; [| discriminate He].
  apply bind_inv in H as [(s1 & w2 & Hs1 & H) | (e & _ & He)]; [| discriminate He].
  apply init_labels_inv in Hp1 as (lp & hp & Hlp & Hhp & -> & ->).
  apply init_labels_inv in Hs1 as (ls & hs & Hls & Hhs & -> & ->).
  cbn [heap with_ticks] in Hls.
  unfold lift in H. cbn [nnodes with_labels key] in H.
  rewrite bind_eq in H. cbv beta iota in H. rewrite bind_eq in H. cbv beta iota in H.
  set (np := Z.of_nat (length hp)) in *. set (ns := Z.of_nat (length hs)) in *.
  set (jp := job_label w 0) in *.
  set (js := job_label (with_ticks (S (ticks w)) w) 0) in *.
  assert (Hjs : js = job_label w 1).
  { unfold js, job_label. cbn [clock ticks SLURM_JOBID with_ticks].
    by replace (S (ticks w) + 0) with (ticks w + 1) by lia. }
  apply bind_inv in H as [([p3 s3] & w3 & Hquiet & H) | (e & _ & He)]; [| discriminate He].
  apply bind_inv in H as [(p4 & w4 & Hnp & H) | (e & _ & He)]; [| discriminate He].
  apply bind_inv in H as [(s4 & w5 & Hns & H) | (e & _ & He)]; [| discriminate He].
  apply bind_inv in H as [(ts & w6 & Hrun & H) | (e & _ & He)]; [| discriminate He].
  destruct (isolated_quiet_inv roles _ _ _ _ _ _ np ns jp js Hquiet)
    as (Hp3 & Hs3 & e1 & Ht1 & Ho1); try reflexivity.
  unfold labels_of in Hp3, Hs3. cbn [workload jobid nnodes pnodes snodes with_labels] in Hp3, Hs3.
  injection Hp3 as Hp3w Hp3j Hp3n Hp3p Hp3s. injection Hs3 as Hs3w Hs3j Hs3n Hs3p Hs3s.
  apply start_phase_inv in Hnp
    as (j & n & p0 & s0 & msg & fid & Hj & Hn & Hp0 & Hs0 & _ & Ht2).
  apply start_phase_inv in Hns
    as (j' & n' & p0' & s0' & msg' & fid' & Hj' & Hn' & Hp0' & Hs0' & _ & Ht3).
  destruct (run_launchers_opened [p4; s4] delay w5) as (e4 & Ht4 & Ho4). rewrite Hrun in Ht4.
  destruct (log_noisy_finished_opened ts 0 w6) as (e5 & Ht5 & Ho5). rewrite H in Ht5.
  cbn [snd] in Ht4, Ht5.
  exists lp, hp, ls, hs, c, rest. eexists. repeat (split; [done |]). split.
  - rewrite Ht5, Ht4, Ht3, Ht2, Ht1. cbn [trace with_ticks]. rewrite <- !app_assoc. reflexivity.
  - cbv zeta. rewrite !opened_app, Ho1, Ho4, Ho5. fold roles. cbn [select]. fold np ns jp.
    rewrite <- Hjs.
    change (opened [EvLog INFO msg; EvOpen fid (output_name (workload p3) "noisy" p0 s0 j)])
      with [output_name (workload p3) "noisy" p0 s0 j].
    change (opened [EvLog INFO msg'; EvOpen fid' (output_name (workload s3) "noisy" p0' s0' j')])
      with [output_name (workload s3) "noisy" p0' s0' j'].
    rewrite !app_nil_r.
    assert (j = jp /\ p0 = np /\ s0 = ns /\ j' = js /\ p0' = np /\ s0' = ns) as
      (-> & -> & -> & -> & -> & ->) by (repeat split; congruence).
    rewrite Hp3w, Hs3w. cbn [workload with_labels app].
    apply (f_equal2 app); [| reflexivity]. apply list_fmap_ext. intros i r _.
    destruct r; cbn [select workload with_labels]; [reflexivity | by rewrite Hjs].
Qed.

Lemma run_interference_files_witness :
  let run := run_interference (Sample.descriptor 1 "primary" "write" "bw")
               (Sample.descriptor 2 "secondary" "write" "iops") 15 "both"
               (Sample.adapters true) in
  exists lp hp ls hs c rest evs,
    heap (Sample.adapters true) !! 1 = Some lp /\ _hosts lp = Some hp
    /\ heap (Sample.adapters true) !! 2 = Some ls /\ _hosts ls = Some hs
    /\ Py.lower "both" = String c rest
    /\ trace run.2 = [] ++ evs
    /\ opened evs
       = ((fun r => output_name (match r with Primary => "primary" | Secondary => "secondary" end)
                      "quiet" (Z.of_nat (length hp)) (Z.of_nat (length hs))
                      (job_label (Sample.adapters true)
                         (match r with Primary => 0 | Secondary => 1 end)))
            <$> (if decide (c = "b"%char) then [Primary; Secondary]
                 else if decide (c = "p"%char) then [Primary] else [Secondary]))
           ++ [output_name "primary" "noisy" (Z.of_nat (length hp)) (Z.of_nat (length hs))
                 (job_label (Sample.adapters true) 0);
               output_name "secondary" "noisy" (Z.of_nat (length hp)) (Z.of_nat (length hs))
                 (job_label (Sample.adapters true) 1)].
Proof.
  intros run.
  assert (H : run_interference (Sample.descriptor 1 "primary" "write" "bw")
                (Sample.descriptor 2 "secondary" "write" "iops") 15 "both"
                (Sample.adapters true)
              = (OK tt, run.2))
    by (vm_compute; reflexivity).
  destruct (run_interference_files _ _ _ _ _ _ H)
    as (lp & hp & ls & hs & c & rest & evs & H1 & H2 & H3 & H4 & H5 & H6 & H7).
  exists lp, hp, ls, hs, c, rest, evs. repeat (split; [assumption |]).
  cbv zeta in H7. rewrite H7. apply (f_equal2 app); [| reflexivity].
  apply list_fmap_ext. by intros _ [] _.
Defined.

Example sample_experiment_files :
  opened (trace (run_interference (Sample.descriptor 1 "primary" "write" "bw")
                   (Sample.descriptor 2 "secondary" "write" "iops") 15 "both"
                   (Sample.adapters true)).2)
  = ["primary_quiet.2p-2s.123.out"; "secondary_quiet.2p-2s.123.out";
     "primary_noisy.2p-2s.123.out"; "secondary_noisy.2p-2s.123.out"].
Proof. vm_compute. reflexivity. Qed.

(** X26.  The asymmetric driver labels both workloads before it runs
    anything: when the selector is a legal one and one of the two launchers
    has no host list, it raises [TypeError] from the labelling, and nothing
    has been logged, opened or launched. *)
Theorem run_interference_without_hosts primary secondary delay isolate c rest w lp ls :
  Py.lower isolate = String c rest ->
  c = "b"%char \/ c = "p"%char \/ c = "s"%char ->
  heap w !! launcher primary = Some lp ->
  heap w !! launcher secondary = Some ls ->
  _hosts lp = None \/ _hosts ls = None ->
  exists w',
    run_interference primary secondary delay isolate w
    = (Raise (TypeError "object of type 'NoneType' has no len()"), w')
    /\ only_clock_read w w'.
Proof.
  intros Hlow Hc Hlp Hls Hnone. unfold run_interference. rewrite Hlow.
  assert (Hsel : exists roles,
            (if decide (c = "b"%char) then Some [Primary; Secondary]
             else if decide (c = "p"%char) then Some [Primary]
             else if decide (c = "s"%char) then Some [Secondary] else None) = Some roles).
  { destruct Hc as [-> | [-> | ->]]; repeat case_decide; try done; by eexists. }
  destruct Hsel as [roles Hsel]. cbv zeta. rewrite Hsel.
  rewrite bind_eq, (init_labels_at _ _ _ Hlp).
  destruct (_hosts lp) as [hp|] eqn:Hhp.
  - destruct Hnone as [Hn | Hn]; [discriminate Hn |].
    rewrite bind_eq, (init_labels_at _ _ ls) by exact Hls. rewrite Hn.
    eexists. split; [reflexivity |]. by repeat split.
  - eexists. split; [reflexivity |]. by repeat split.
Qed.

Lemma run_interference_without_hosts_witness :
  exists w',
    run_interference (Sample.descriptor 1 "primary" "write" "bw")
      (Sample.descriptor 0 "secondary" "write" "bw") 15 "secondary"
      (Sample.world [hostless; Sample.ior true])
    = (Raise (TypeError "object of type 'NoneType' has no len()"), w')
    /\ only_clock_read (Sample.world [hostless; Sample.ior true]) w'.
Proof.
  exact (run_interference_without_hosts (Sample.descriptor 1 "primary" "write" "bw")
           (Sample.descriptor 0 "secondary" "write" "bw") 15 "secondary" "s"%char "econdary"
           (Sample.world [hostless; Sample.ior true]) (Sample.ior true) hostless
           eq_refl (or_intror (or_intror eq_refl)) eq_refl eq_refl (or_intror eq_refl)).
Defined.

(** ** The files of a symmetric experiment *)

Lemma for_each_update_length {S A} (body : A -> M S A) (xs : list A) :
  forall s ys s', for_each_update xs body s = (OK ys, s') -> length ys = length xs.
Proof.
  induction xs as [|x xs IH]; intros s ys s' H.
  - by injection H as <- <-.
  - cbn [for_each_update] in H.
    apply bind_inv in H as [(y & s1 & _ & H) | (e & _ & He)]; [| discriminate He].
    apply bind_inv in H as [(ys' & s2 & Hys & H) | (e & _ & He)]; [| discriminate He].
    injection H as <- <-. simpl. by rewrite (IH _ _ _ Hys).
Qed.

Lemma symmetric_quiet_step ws i todo wl :
  ws !! i = Some wl ->
  symmetric_quiet ws i (S todo)
  = (p ← lift (nnodes_at ws 0);
     s ← lift (nnodes_at ws 1);
     wl ← start_phase "quiet"
            (with_labels (jobid wl) (nnodes wl) (Some p) (Some s) (contention wl) wl);
     timestamps ← run_launchers [wl] 0;
     log_first_finished "quiet workload" timestamps ;;
     symmetric_quiet (<[i := wl]> ws) (S i) todo).
Proof. intros H. cbn [symmetric_quiet]. by rewrite H. Qed.

(** X27.  The files of a symmetric experiment that runs to its end.  The
    driver returns only when it is given exactly two workloads whose
    launchers have host lists.  It labels both with the node count of the
    first as primary count and that of the second as secondary count, and
    opens, in this order: the quiet file of the first workload, the quiet
    file of the second, each followed by its isolated run, then the two
    noisy files, before the contended run.  Nothing else is opened. *)
Theorem run_symmetric_interference_files workloads w w' :
  run_symmetric_interference workloads w = (OK tt, w') ->
  exists a b la ha lb hb evs,
    workloads = [a; b]
    /\ heap w !! launcher a = Some la /\ _hosts la = Some ha
    /\ heap w !! launcher b = Some lb /\ _hosts lb = Some hb
    /\ trace w' = trace w ++ evs
    /\ let name wl k phase :=
         output_name (workload wl) phase (Z.of_nat (length ha)) (Z.of_nat (length hb))
           (job_label w k) in
       opened evs = [name a 0 "quiet"; name b 1 "quiet"; name a 0 "noisy"; name b 1 "noisy"].
Proof.
  unfold run_symmetric_interference. intros H.
  apply bind_inv in H as [(ws1 & w2 & Hinit & H) | (e & _ & He)]; [| discriminate He].
  pose proof (for_each_update_length _ _ _ _ _ Hinit) as Hlen.
  case_decide as Hmany; [discriminate H |].
  destruct workloads as [|a [|b [|c ws]]]; [| | | simpl in Hlen; lia].
  { injection Hinit as <- <-. discriminate H. }
  { cbn [for_each_update] in Hinit.
    apply bind_inv in Hinit as [(a1 & w1 & Ha & Hinit) | (e & _ & He)]; [| discriminate He].
    injection Hinit as <- <-.
    apply init_labels_inv in Ha as (la & ha & _ & _ & -> & _).
    discriminate H. }
  cbn [for_each_update] in Hinit.
  apply bind_inv in Hinit as [(a1 & w1 & Ha & Hinit) | (e & _ & He)]; [| discriminate He].
  apply bind_inv in Hinit as [(bs & w1' & Hb & Hinit) | (e & _ & He)]; [| discriminate He].
  injection Hinit as <- <-.
  apply bind_inv in Hb as [(b1 & w1'' & Hb & Hnil) | (e & _ & He)]; [| discriminate He].
  injection Hnil as <- <-.
  apply init_labels_inv in Ha as (la & ha & Hla & Hha & -> & ->).
  apply init_labels_inv in Hb as (lb & hb & Hlb & Hhb & -> & ->).
  cbn [heap with_ticks] in Hlb.
  set (np := Z.of_nat (length ha)) in *. set (ns := Z.of_nat (length hb)) in *.
  set (ja := job_label w 0) in *.
  set (jb := job_label (with_ticks (S (ticks w)) w) 0) in *.
  assert (Hjb : jb = job_label w 1).
  { unfold jb, job_label. cbn [clock ticks SLURM_JOBID with_ticks].
    by replace (S (ticks w) + 0) with (ticks w + 1) by lia. }
  set (a1 := with_labels (Some ja) (Some np) (pnodes a) (snodes a) (contention a) a) in *.
  set (b1 := with_labels (Some jb) (Some ns) (pnodes b) (snodes b) (contention b) b) in *.
  apply bind_inv in H as [(ws2 & w3 & Hquiet & H) | (e & _ & He)]; [| discriminate He].
  (* the isolated run of the first workload *)
  change (length [a1; b1]) with 2 in Hquiet.
  rewrite (symmetric_quiet_step [a1; b1] 0 1 a1 eq_refl) in Hquiet.
  apply bind_inv in Hquiet as [(p0 & w3a & Hp0 & Hquiet) | (e & _ & He)]; [| discriminate He].
  apply bind_inv in Hquiet as [(s0 & w3b & Hs0 & Hquiet) | (e & _ & He)]; [| discriminate He].
  injection Hp0 as <- <-. injection Hs0 as <- <-.
  apply bind_inv in Hquiet as [(a2 & w4 & Hsa & Hquiet) | (e & _ & He)]; [| discriminate He].
  apply bind_inv in Hquiet as [(ts1 & w5 & Hra & Hquiet) | (e & _ & He)]; [| discriminate He].
  apply bind_inv in Hquiet as [([] & w6 & Hla1 & Hquiet) | (e & _ & He)]; [| discriminate He].
  destruct (start_phase_labels _ _ _ _ _ Hsa) as (Hlab_a & _).
  apply start_phase_inv in Hsa as (j1 & n1 & p1 & s1 & m1 & f1 & Hj1 & Hn1 & Hp1 & Hs1 & _ & Ht1).
  cbn [jobid nnodes pnodes snodes workload with_labels a1] in Hj1, Hn1, Hp1, Hs1, Ht1.
  injection Hj1 as <-. injection Hn1 as <-. injection Hp1 as <-. injection Hs1 as <-.
  unfold labels_of in Hlab_a. cbn [jobid nnodes pnodes snodes workload with_labels a1] in Hlab_a.
  injection Hlab_a as Ha2w Ha2j Ha2n Ha2p Ha2s.
  destruct (run_launchers_opened [a2] 0 w4) as (e2 & Ht2 & Ho2). rewrite Hra in Ht2.
  destruct (log_first_finished_opened "quiet workload" ts1 w5) as (e3 & Ht3 & Ho3).
  rewrite Hla1 in Ht3. cbn [snd] in Ht2, Ht3.
  (* the isolated run of the second workload *)
  change (<[0 := a2]> [a1; b1]) with [a2; b1] in Hquiet.
  rewrite (symmetric_quiet_step [a2; b1] 1 0 b1 eq_refl) in Hquiet.
  apply bind_inv in Hquiet as [(p0 & w6a & Hp0 & Hquiet) | (e & _ & He)]; [| discriminate He].
  apply bind_inv in Hquiet as [(s0 & w6b & Hs0 & Hquiet) | (e & _ & He)]; [| discriminate He].
  unfold lift in Hp0, Hs0. cbn [nnodes_at lookup list_lookup key] in Hp0, Hs0.
  rewrite Ha2n in Hp0. injection Hp0 as <- <-. injection Hs0 as <- <-.
  apply bind_inv in Hquiet as [(b2 & w7 & Hsb & Hquiet) | (e & _ & He)]; [| discriminate He].
  apply bind_inv in Hquiet as [(ts2 & w8 & Hrb & Hquiet) | (e & _ & He)]; [| discriminate He].
  apply bind_inv in Hquiet as [([] & w9 & Hlb1 & Hquiet) | (e & _ & He)]; [| discriminate He].
  destruct (start_phase_labels _ _ _ _ _ Hsb) as (Hlab_b & _).
  apply start_phase_inv in Hsb as (j2 & n2 & p2 & s2 & m2 & f2 & Hj2 & Hn2 & Hp2 & Hs2 & _ & Ht4).
  cbn [jobid nnodes pnodes snodes workload with_labels b1] in Hj2, Hn2, Hp2, Hs2, Ht4.
  injection Hj2 as <-. injection Hn2 as <-. injection Hp2 as <-. injection Hs2 as <-.
  unfold labels_of in Hlab_b. cbn [jobid nnodes pnodes snodes workload with_labels b1] in Hlab_b.
  injection Hlab_b as Hb2w Hb2j Hb2n Hb2p Hb2s.
  destruct (run_launchers_opened [b2] 0 w7) as (e5 & Ht5 & Ho5). rewrite Hrb in Ht5.
  destruct (log_first_finished_opened "quiet workload" ts2 w8) as (e6 & Ht6 & Ho6).
  rewrite Hlb1 in Ht6. cbn [snd] in Ht5, Ht6.
  change (<[1 := b2]> [a2; b1]) with [a2; b2] in Hquiet.
  cbn [symmetric_quiet] in Hquiet. injection Hquiet as <- <-.
  (* the contended run *)
  apply bind_inv in H as [(ws3 & w10 & Hnoisy & H) | (e & _ & He)]; [| discriminate He].
  cbn [for_each_update] in Hnoisy.
  apply bind_inv in Hnoisy as [(a3 & w11 & Hna & Hnoisy) | (e & _ & He)]; [| discriminate He].
  apply bind_inv in Hnoisy as [(bs & w12 & Hnb & Hnoisy) | (e & _ & He)]; [| discriminate He].
  injection Hnoisy as <- <-.
  apply bind_inv in Hnb as [(b3 & w13 & Hnb & Hnil) | (e & _ & He)]; [| discriminate He].
  injection Hnil as <- <-.
  apply start_phase_inv in Hna as (j3 & n3 & p3 & s3 & m3 & f3 & Hj3 & Hn3 & Hp3 & Hs3 & _ & Ht7).
  apply start_phase_inv in Hnb as (j4 & n4 & p4 & s4 & m4 & f4 & Hj4 & Hn4 & Hp4 & Hs4 & _ & Ht8).
  apply bind_inv in H as [(ts & w14 & Hrun & H) | (e & _ & He)]; [| discriminate He].
  destruct (run_launchers_opened [a3; b3] 0 w13) as (e9 & Ht9 & Ho9). rewrite Hrun in Ht9.
  destruct (log_noisy_finished_opened ts 0 w14) as (e10 & Ht10 & Ho10). rewrite H in Ht10.
  cbn [snd] in Ht9, Ht10.
  assert (j3 = ja /\ p3 = np /\ s3 = ns /\ j4 = jb /\ p4 = np /\ s4 = ns) as
    (-> & -> & -> & -> & -> & ->) by (repeat split; congruence).
  exists a, b, la, ha, lb, hb. eexists. repeat (split; [done |]). split.
  - rewrite Ht10, Ht9, Ht8, Ht7, Ht6, Ht5, Ht4, Ht3, Ht2, Ht1. cbn [trace with_ticks].
    rewrite <- !app_assoc. reflexivity.
  - cbv zeta. rewrite !opened_app, Ho2, Ho3, Ho5, Ho6, Ho9, Ho10. fold np ns ja.
    rewrite <- Hjb, Ha2w, Hb2w. reflexivity.
Qed.

Lemma run_symmetric_interference_files_witness :
  let ws := [Sample.descriptor 1 "primary" "write" "bw";
             Sample.descriptor 2 "secondary" "write" "iops"] in
  let run := run_symmetric_interference ws (Sample.adapters true) in
  exists a b la ha lb hb evs,
    ws = [a; b]
    /\ heap (Sample.adapters true) !! launcher a = Some la /\ _hosts la = Some ha
    /\ heap (Sample.adapters true) !! launcher b = Some lb /\ _hosts lb = Some hb
    /\ trace run.2 = [] ++ evs
    /\ opened evs
       = [output_name (workload a) "quiet" (Z.of_nat (length ha)) (Z.of_nat (length hb))
            (job_label (Sample.adapters true) 0);
          output_name (workload b) "quiet" (Z.of_nat (length ha)) (Z.of_nat (length hb))
            (job_label (Sample.adapters true) 1);
          output_name (workload a) "noisy" (Z.of_nat (length ha)) (Z.of_nat (length hb))
            (job_label (Sample.adapters true) 0);
          output_name (workload b) "noisy" (Z.of_nat (length ha)) (Z.of_nat (length hb))
            (job_label (Sample.adapters true) 1)].
Proof.
  intros ws run.
  assert (H : run_symmetric_interference ws (Sample.adapters true) = (OK tt, run.2))
    by (vm_compute; reflexivity).
  exact (run_symmetric_interference_files ws (Sample.adapters true) run.2 H).
Defined.

(** ** What the scheduler leaves alone *)

Lemma same_setup_but_streams_trans l1 l2 l3 :
  same_setup_but_streams l1 l2 -> same_setup_but_streams l2 l3 ->
  same_setup_but_streams l1 l3.
Proof.
  intros (o & e & c & k & ->) (o' & e' & c' & k' & ->). by exists o', e', c', k'.
Qed.

Lemma undisturbed_same refs w w' :
  heap w' = heap w -> files w' = files w -> undisturbed refs w w'.
Proof.
  intros Hh Hf. unfold undisturbed. rewrite Hh, Hf. repeat split; try done.
  intros i l Hl. exists l. split; [done | apply same_setup_but_streams_refl].
Qed.

Lemma undisturbed_trans refs w1 w2 w3 :
  undisturbed refs w1 w2 -> undisturbed refs w2 w3 -> undisturbed refs w1 w3.
Proof.
  intros (Hf1 & Hl1 & Ho1 & Hs1) (Hf2 & Hl2 & Ho2 & Hs2).
  split; [congruence |]. split; [congruence |]. split.
  - intros i Hi. by rewrite Ho2, Ho1.
  - intros i l Hl. destruct (Hs1 i l Hl) as (l' & Hl' & H1).
    destruct (Hs2 i l' Hl') as (l'' & Hl'' & H2).
    exists l''. split; [done | by eapply same_setup_but_streams_trans].
Qed.

Lemma confined_undisturbed refs self w w' :
  self ∈ refs -> confined same_setup_but_streams self w w' -> undisturbed refs w w'.
Proof.
  intros Hin (Ho & Hlen & Hs & Hf & _). split; [done |]. split; [done |]. split.
  - intros i Hi. apply Ho. by intros ->.
  - intros i l Hl. destruct (decide (i = self)) as [-> | Hne]; [by apply Hs |].
    exists l. split; [by rewrite Ho | apply same_setup_but_streams_refl].
Qed.

Lemma sparing_ret {A} refs (a : A) : sparing refs (mret a).
Proof. intros w. by apply undisturbed_same. Qed.

Lemma sparing_raise {A} refs e : sparing refs (raise (A := A) e).
Proof. intros w. by apply undisturbed_same. Qed.

Lemma sparing_emit refs e : sparing refs (emit e).
Proof. intros w. by apply undisturbed_same. Qed.

Lemma sparing_wait_if refs h : sparing refs (wait_if h).
Proof. destruct h; [apply sparing_emit | apply sparing_ret]. Qed.

Lemma sparing_bind {A B} refs (m : M World A) (f : A -> M World B) :
  sparing refs m -> (forall a, sparing refs (f a)) -> sparing refs (m ≫= f).
Proof.
  intros Hm Hf w. rewrite bind_eq. specialize (Hm w).
  destruct (m w) as [[a|e] w1]; cbn [snd] in *; [| exact Hm].
  eapply undisturbed_trans; [exact Hm | apply Hf].
Qed.

Lemma sparing_for_each {A} refs (xs : list A) (body : A -> M World unit) :
  (forall x, x ∈ xs -> sparing refs (body x)) -> sparing refs (for_each xs body).
Proof.
  induction xs as [|x xs IH]; intros Hb; [apply sparing_ret |].
  cbn [for_each]. apply sparing_bind; [apply Hb; by left |].
  intros _. apply IH. intros y Hy. apply Hb. by right.
Qed.

Lemma sparing_preflight refs self : self ∈ refs -> sparing refs (preflight self).
Proof.
  intros Hin w. apply (confined_undisturbed refs self); [done |].
  apply confined_weaken, preflight_confined.
Qed.

Lemma sparing_run refs self access pattern out err kwargs :
  self ∈ refs -> sparing refs (run self access pattern out err kwargs).
Proof.
  intros Hin w. apply (confined_undisturbed refs self); [done |].
  apply confined_weaken, run_confined.
Qed.

Lemma sparing_teardown refs self access pattern kwargs :
  self ∈ refs -> sparing refs (teardown self access pattern kwargs).
Proof.
  intros Hin w. apply (confined_undisturbed refs self); [done |].
  apply teardown_confined.
Qed.

Lemma sparing_same {A} refs (m : M World A) :
  (forall w, heap (m w).2 = heap w /\ files (m w).2 = files w) -> sparing refs m.
Proof. intros H w. destruct (H w). by apply undisturbed_same. Qed.

Lemma sparing_with_self {A} refs self (body : string -> (string -> bool) -> M Launcher A) :
  self ∈ refs ->
  (forall mpirun_bin isfile l, same_setup l (body mpirun_bin isfile l).2) ->
  sparing refs (with_self self body).
Proof.
  intros Hin Hbody w. unfold with_self.
  destruct (heap w !! self) as [l|] eqn:Hl; [| by apply undisturbed_same].
  specialize (Hbody (MPIRUN_BIN w) (isfile w) l).
  destruct (body _ _ l) as [r l']. cbn [snd] in *.
  apply (confined_undisturbed refs self); [done |]. apply confined_weaken.
  rewrite (after_start w) at 1.
  replace (with_heap (<[self:=l']> (heap w)) w)
    with (after w (<[self := l']> (heap w)) [] (next_id w)).
  - rewrite <- (after_start w). by apply (confined_after _ _ _ l).
  - destruct w. unfold after, with_heap. simpl. by rewrite app_nil_r.
Qed.

Lemma sparing_update refs self c :
  self ∈ refs -> sparing refs (update self (with_cmdline c)).
Proof.
  intros Hin. apply sparing_with_self; [done |]. intros _ _ l.
  exists c, (_kwargs l). by destruct l.
Qed.

(** Every step of [run] spares the launchers of the others. *)
Lemma run_steps_sparing refs self access pattern out err kwargs :
  self ∈ refs ->
  acts (undisturbed refs) (run_steps self access pattern out err kwargs).
Proof.
  intros Hin. unfold run_steps.
  split.
  { apply sparing_with_self; [done |]. intros _ _ l.
    exists (_cmdline l), (Py.dict_update (_kwargs l) kwargs). by destruct l. }
  intros _. split.
  { apply sparing_with_self; [done |]. intros mpirun_bin isfile l.
    destruct (scratch_only__prep_cmdline mpirun_bin isfile access pattern l) as [c ->].
    exists c, (_kwargs l). by destruct l. }
  intros _. split.
  { apply sparing_bind; [apply sparing_same; intros w; by rewrite deref_same | intros l].
    apply sparing_emit. }
  intros _. split; [apply sparing_same; intros w; by rewrite deref_same | intros l].
  destruct (_test l); [exact I |].
  split; [apply sparing_same; intros w; by rewrite deref_same | intros l'].
  split; [apply sparing_emit | intros _]. split; [apply sparing_emit | intros _].
  split.
  { apply sparing_bind; [apply sparing_same; intros w; by rewrite deref_same | intros l''].
    by apply sparing_same. }
  intros proc. split; [by apply sparing_update | intros _]. exact I.
Qed.

Lemma worker_sparing refs wl delay :
  launcher wl ∈ refs -> acts (undisturbed refs) (_run_and_wait_after_delay wl delay).
Proof.
  intros Hin. unfold _run_and_wait_after_delay.
  split.
  { unfold time_sleep. case_decide; [apply sparing_raise | apply sparing_emit]. }
  intros _. split; [apply sparing_emit | intros _].
  apply acts_call; [by apply run_steps_sparing | intros proc].
  split; [apply sparing_emit | intros _].
  split; [by apply sparing_same | intros time0].
  split; [apply sparing_wait_if | intros _].
  split; [by apply sparing_same | intros timef]. exact I.
Qed.

Lemma sparing_pool_starmap ws delay : sparing (launcher <$> ws) (pool_starmap ws delay).
Proof.
  unfold pool_starmap. case_decide; [apply sparing_raise |].
  unfold sparing. apply (starmap_acts (undisturbed (launcher <$> ws))).
  - intros w. by apply undisturbed_same.
  - apply undisturbed_trans.
  - apply Forall_forall. intros t Ht. apply elem_of_lookup_imap_1 in Ht as (i & wl & -> & Hwl).
    apply worker_sparing. apply list_elem_of_fmap. exists wl. split; [done |].
    by eapply list_elem_of_lookup_2.
Qed.

(** X28.  An invocation of the scheduler, whether it returns or raises,
    creates no file, adds or removes no launcher and leaves every launcher
    that is not one of its workloads' exactly as it was; of the workloads'
    launchers it changes at most the command-line buffer, the merged
    keyword arguments and the streams, so their configuration, hosts and
    flags are those of construction. *)
Theorem run_launchers_undisturbed workloads delay w :
  undisturbed (launcher <$> workloads) w (run_launchers workloads delay w).2.
Proof.
  assert (Hin : forall wl, wl ∈ workloads -> launcher wl ∈ launcher <$> workloads).
  { intros wl Hwl. apply list_elem_of_fmap. by exists wl. }
  revert w. change (sparing (launcher <$> workloads) (run_launchers workloads delay)).
  unfold run_launchers. apply sparing_bind.
  { apply sparing_for_each. intros wl Hwl.
    apply sparing_bind; [apply sparing_emit | intros _].
    apply sparing_bind; [by apply sparing_preflight, Hin | intros h].
    apply sparing_bind; [apply sparing_emit | intros _]. apply sparing_wait_if. }
  intros _. apply sparing_bind; [apply sparing_pool_starmap |].
  intros results.
  apply sparing_bind; [apply sparing_same; intros w0; by split | intros _].
  apply sparing_bind; [| intros _; apply sparing_ret].
  apply sparing_for_each. intros wl Hwl.
  apply sparing_bind; [apply sparing_emit | intros _].
  apply sparing_bind; [by apply sparing_teardown, Hin | intros h].
  apply sparing_bind; [apply sparing_emit | intros _]. apply sparing_wait_if.
Qed.

(** ** From the constructor to the command line *)

Lemma mpirun_prefix_inv mpirun_bin l0 l :
  mpirun_prefix mpirun_bin l0 = OK l ->
  exists hs,
    _hosts l0 = Some hs
    /\ l = with_prepend_cmdline
             [mpirun_bin; "-N"; Py.str_int (Z.of_nat (length hs));
              "-n"; Py.str_int (Z.of_nat (length hs) * _ppn l0)] l0.
Proof.
  unfold mpirun_prefix, len_hosts. destruct (_hosts l0) as [hs|]; [| discriminate].
  intros [= <-]. by exists hs.
Qed.

Lemma mpirun_launcher_inv mpirun_bin a l :
  IorLauncher mpirun_bin a = OK l \/ MdworkbenchLauncher mpirun_bin a = OK l ->
  exists hs,
    hosts a = Some hs /\ _hosts l = Some hs /\ cls l <> Elbencho
    /\ _prepend_cmdline l
       = [mpirun_bin; "-N"; Py.str_int (Z.of_nat (length hs));
          "-n"; Py.str_int (Z.of_nat (length hs) * ppn a)].
Proof.
  unfold IorLauncher, MdworkbenchLauncher, _init_args.
  intros [H | H]; destruct (config a !! _) as [t|]; try discriminate H;
    apply mpirun_prefix_inv in H as (hs & Hhs & ->); exists hs; by repeat split.
Qed.

(** X29.  The command line of a launcher that [IorLauncher] or
    [MdworkbenchLauncher] built, while [MPIRUN_BIN] is what it was at
    construction: the job launcher, the node list, [-N] with the number of
    hosts, [-n] with the number of hosts times the processes per node, the
    binary, and then the arguments of the run.  Construction has a host
    list: without one it raises, so these launchers always name their
    nodes. *)
Theorem mpirun_launcher_cmdline mpirun_bin isfile a l access pattern ac p :
  IorLauncher mpirun_bin a = OK l \/ MdworkbenchLauncher mpirun_bin a = OK l ->
  _access_args l !! access = Some ac ->
  _pattern_args l !! pattern = Some p ->
  exists hs,
    hosts a = Some hs
    /\ _prep_cmdline mpirun_bin isfile access pattern l
       = (OK tt,
          with_cmdline
            ([mpirun_bin; "--nodelist"; Py.join "," hs;
              "-N"; Py.str_int (Z.of_nat (length hs));
              "-n"; Py.str_int (Z.of_nat (length hs) * ppn a); _binary l]
               ++ timelimit_tokens l ++ random_data_tokens l
               ++ workload_tokens l access pattern ac p ++ first_output_dir l) l).
Proof.
  intros Hbuilt Ha Hp.
  destruct (mpirun_launcher_inv _ _ _ Hbuilt) as (hs & Hhosts & Hhs & Hc & Hpre).
  exists hs. split; [exact Hhosts |].
  assert (Hh : _add_hosts mpirun_bin (with_cmdline (_prepend_cmdline l ++ [_binary l]) l)
               = (OK tt,
                  with_cmdline
                    [mpirun_bin; "--nodelist"; Py.join "," hs;
                     "-N"; Py.str_int (Z.of_nat (length hs));
                     "-n"; Py.str_int (Z.of_nat (length hs) * ppn a); _binary l] l)).
  { rewrite Hpre.
    etrans; [exact (_add_hosts_mpirun mpirun_bin
                      ["-N"; Py.str_int (Z.of_nat (length hs));
                       "-n"; Py.str_int (Z.of_nat (length hs) * ppn a)] [_binary l] l Hc) |].
    unfold nodelist_tokens. by rewrite Hhs. }
  rewrite (_prep_cmdline_after_hosts _ _ _ _ _ _ _ _ Hh Ha Hp).
  destruct (cls l); [done | |]; by rewrite app_nil_l.
Qed.

Lemma mpirun_launcher_cmdline_witness :
  exists hs,
    hosts (Sample.init false) = Some hs
    /\ _prep_cmdline "srun" (fun _ => false) "write" "iops" (Sample.mdworkbench false)
       = (OK tt,
          with_cmdline
            (["srun"; "--nodelist"; Py.join "," hs;
              "-N"; Py.str_int (Z.of_nat (length hs));
              "-n"; Py.str_int (Z.of_nat (length hs) * 4); "/opt/md-workbench"]
               ++ ["-w"; "45"] ++ [] ++ ["-I"; "10"; "-2"; "-P"; "5"] ++ ["-o"; "/scratch/out"])
            (Sample.mdworkbench false)).
Proof.
  exact (mpirun_launcher_cmdline "srun" (fun _ => false) (Sample.init false)
           (Sample.mdworkbench false) "write" "iops" ["-2"] ["-P"; "5"]
           (or_intror eq_refl) eq_refl eq_refl).
Defined.

(** ** The random-data switch *)

Lemma _add_hosts_flag mpirun_bin c b l :
  _add_hosts mpirun_bin (with_cmdline c (with_random_data b l))
  = ((_add_hosts mpirun_bin (with_cmdline c l)).1,
     with_random_data b (_add_hosts mpirun_bin (with_cmdline c l)).2).
Proof.
  unfold _add_hosts. rewrite !bind_eq. cbn [get fst snd _hosts cls _cmdline with_cmdline
    with_random_data].
  destruct (_hosts l); [| done]. destruct (cls l); try done.
  all: destruct c as [|c0 rest]; [done |]; by case_decide.
Qed.

(** X30.  [set_random_data] changes the command lines that follow, and
    nothing else of them, by the random-data arguments of the
    configuration: for a launcher as construction leaves it and an access
    mode and pattern its tables know, the command line with the switch on
    is the one with the switch off with those arguments inserted, right
    after the time limit.  The method returns the flag it was given. *)
Theorem set_random_data_cmdline self b access pattern w l :
  heap w !! self = Some l ->
  launcher_ok (MPIRUN_BIN w) l ->
  is_Some (_access_args l !! access) ->
  is_Some (_pattern_args l !! pattern) ->
  exists pre post,
    set_random_data self b w = (OK b, with_heap (<[self := with_random_data b l]> (heap w)) w)
    /\ (forall flag,
        _prep_cmdline (MPIRUN_BIN w) (isfile w) access pattern (with_random_data flag l)
        = (OK tt,
           with_cmdline (pre ++ (if flag then _random_data_args l else []) ++ post)
             (with_random_data flag l))).
Proof.
  intros Hl Hok [a Ha] [p Hp].
  destruct (succeeds__add_hosts (MPIRUN_BIN w) (_prepend_cmdline l ++ [_binary l]) l)
    as [c Hc].
  { destruct Hok as [He | [rest Hr]]; [by left | right].
    exists (rest ++ [_binary l]). by rewrite Hr. }
  exists (c ++ timelimit_tokens l),
    (match cls l with Elbencho => results_tokens (isfile w) l | _ => [] end
       ++ workload_tokens l access pattern a p
       ++ match cls l with Elbencho => _output_dir l | _ => first_output_dir l end).
  split.
  - unfold set_random_data, update. rewrite bind_eq, (with_self_eq _ _ _ _ Hl). reflexivity.
  - intros flag.
    assert (Hh : _add_hosts (MPIRUN_BIN w)
                   (with_cmdline (_prepend_cmdline (with_random_data flag l)
                                    ++ [_binary (with_random_data flag l)])
                      (with_random_data flag l))
                 = (OK tt, with_cmdline c (with_random_data flag l))).
    { change (_prepend_cmdline (with_random_data flag l)) with (_prepend_cmdline l).
      change (_binary (with_random_data flag l)) with (_binary l).
      by rewrite _add_hosts_flag, Hc. }
    rewrite (_prep_cmdline_after_hosts _ _ _ _ _ a p _ Hh Ha Hp).
    unfold random_data_tokens. cbn [_random_data with_random_data].
    by rewrite <- !app_assoc.
Qed.

Lemma set_random_data_cmdline_witness :
  exists pre post,
    set_random_data 0 false (Sample.adapters false)
    = (OK false,
       with_heap (<[0 := with_random_data false (Sample.elbencho false)]>
                    (heap (Sample.adapters false))) (Sample.adapters false))
    /\ (forall flag,
        _prep_cmdline "srun" (isfile (Sample.adapters false)) "read" "bw"
          (with_random_data flag (Sample.elbencho false))
        = (OK tt,
           with_cmdline (pre ++ (if flag then ["--randdata"] else []) ++ post)
             (with_random_data flag (Sample.elbencho false)))).
Proof.
  exact (set_random_data_cmdline 0 false "read" "bw" (Sample.adapters false)
           (Sample.elbencho false) eq_refl (or_introl eq_refl)
           (ex_intro _ _ eq_refl) (ex_intro _ _ eq_refl)).
Defined.
